(** * The directory engine of the TNFS daemon

    A shallow embedding of [directory.c] of tnfsd: path resolution,
    directory-handle allocation, directory loading (filter, glob, merge
    sort), the READDIRX paginator and SEEKDIR/TELLDIR, followed by the
    properties of the natural-language specification that concern them.

    Conventions of the embedding.
    - A C string is the list of its characters before the terminator.
    - Fixed-width integers are values of [Z]; every conversion that can
      lose bits in the C code is written out.
    - A pointer to a node of a singly linked list is the chain that starts
      at that node, and the null pointer is the empty chain.  Two pointers
      into one chain are equal exactly when the chains they head are equal,
      since two different suffixes of a list have different lengths.
    - A handler takes the session and the payload of the request and
      returns the new session together with the replies handed to
      [tnfs_send], in order; an array access outside its bounds, or a null
      pointer handed to the C library, is the outcome [Fault]. *)

From Stdlib Require Import ZArith Lia Ascii String DecimalString Sorted Permutation.
From stdpp Require Import base list strings.
From Equations Require Import Equations.

#[local] Open Scope Z_scope.

(** ** C strings and the C library *)

Abbreviation cstr := (list ascii).

Definition cs (s : string) : cstr := list_ascii_of_string s.

Definition code (c : ascii) : Z := Z.of_N (N_of_ascii c).

Definition strlen (s : cstr) : Z := Z.of_nat (length s).

(** [tolower] in the C locale. *)
Definition tolower (c : ascii) : ascii :=
  let n := N_of_ascii c in
  if ((65 <=? n) && (n <=? 90))%N then ascii_of_N (n + 32) else c.

(** [strcmp] compares unsigned characters up to the first difference or the
    terminator. *)
Fixpoint strcmp (a b : cstr) : Z :=
  match a, b with
  | [], [] => 0
  | [], y :: _ => 0 - code y
  | x :: _, [] => code x
  | x :: a', y :: b' =>
      if code x =? code y
      then (if code x =? 0 then 0 else strcmp a' b')
      else code x - code y
  end.

Definition strcasecmp (a b : cstr) : Z := strcmp (map tolower a) (map tolower b).

(** [strncmp a b n]: as [strcmp], over at most [n] characters. *)
Fixpoint strncmp (a b : cstr) (n : nat) : Z :=
  match n with
  | O => 0
  | S n' =>
      match a, b with
      | [], [] => 0
      | [], y :: _ => 0 - code y
      | x :: _, [] => code x
      | x :: a', y :: b' =>
          if code x =? code y
          then (if code x =? 0 then 0 else strncmp a' b' n')
          else code x - code y
      end
  end.

Fixpoint is_prefix (p s : cstr) : bool :=
  match p, s with
  | [], _ => true
  | _ :: _, [] => false
  | x :: p', y :: s' => Ascii.eqb x y && is_prefix p' s'
  end.

(** [strstr haystack needle]: the offset of the first occurrence of
    [needle], [None] for the null pointer. *)
Fixpoint strstr (haystack needle : cstr) : option nat :=
  if is_prefix needle haystack then Some O
  else match haystack with
       | [] => None
       | _ :: rest => S <$> strstr rest needle
       end.

(** [snprintf(buf, bufsz, ...)] and [strlcpy(dst, src, bufsz)] keep at most
    [bufsz - 1] characters. *)
Definition snprintf (bufsz : Z) (formatted : cstr) : cstr :=
  take (Z.to_nat (bufsz - 1)) formatted.

Definition strlcpy (src : cstr) (bufsz : Z) : cstr :=
  take (Z.to_nat (bufsz - 1)) src.

(** ** Compile-time configuration ([config.h]) *)

Definition MAXMSGSZ : Z := 532.
Definition MAX_DHND_PER_CONN : Z := 8.
Definition DIR_HANDLE_TIMEOUT : Z := 300.
Definition TNFS_HEADERSZ : Z := 4.
Definition TNFS_MAX_PAYLOAD : Z := MAXMSGSZ - TNFS_HEADERSZ - 1.
Definition MAX_TNFSPATH : Z := 256.
Definition MAX_FILENAME_LEN : Z := 256.

(** ** Protocol constants ([tnfs.h], [fileinfo.h]) *)

(** The header [tnfs.h] with the option bits and [fileinfo.h] with the flag
    bits are not among the sources.  The specification lists the bits of
    each byte in order; they are taken as successive bits from 0x01, which
    is the value the comment in [_load_directory] gives for the first. *)

(** Modelled from the spec: first [diropt] bit, directories are not
    grouped before the files. *)
Definition TNFS_DIROPT_NO_FOLDERSFIRST : Z := 0x01.

(** Modelled from the spec: second [diropt] bit, hidden entries are kept. *)
Definition TNFS_DIROPT_NO_SKIPHIDDEN : Z := 0x02.

(** Modelled from the spec: third [diropt] bit, special entries are kept. *)
Definition TNFS_DIROPT_NO_SKIPSPECIAL : Z := 0x04.

(** Modelled from the spec: fourth [diropt] bit, the pattern applies to
    directories too. *)
Definition TNFS_DIROPT_DIR_PATTERN : Z := 0x08.

(** Modelled from the spec: fifth [diropt] bit, directories are left out. *)
Definition TNFS_DIROPT_NO_FOLDERS : Z := 0x10.

(** Modelled from the spec: sixth [diropt] bit, recursive listing with
    reuse of the handle. *)
Definition TNFS_DIROPT_TRAVERSE : Z := 0x20.

(** Modelled from the spec: first [sortopt] bit, no sorting. *)
Definition TNFS_DIRSORT_NONE : Z := 0x01.

(** Modelled from the spec: second [sortopt] bit, names compared with
    their case. *)
Definition TNFS_DIRSORT_CASE : Z := 0x02.

(** Modelled from the spec: third [sortopt] bit, descending order. *)
Definition TNFS_DIRSORT_DESCENDING : Z := 0x04.

(** Modelled from the spec: fourth [sortopt] bit, sort by modification
    time. *)
Definition TNFS_DIRSORT_MODIFIED : Z := 0x08.

(** Modelled from the spec: fifth [sortopt] bit, sort by size. *)
Definition TNFS_DIRSORT_SIZE : Z := 0x10.

(** Modelled from the spec: the one bit of [dir_status] in a READDIRX
    reply, set when the cursor has reached the end. *)
Definition TNFS_DIRSTATUS_EOF : Z := 0x01.

(** Modelled from the spec: first flag bit of an entry, a directory. *)
Definition FILEINFOFLAG_DIRECTORY : Z := 0x01.

(** Modelled from the spec: second flag bit of an entry, hidden. *)
Definition FILEINFOFLAG_HIDDEN : Z := 0x02.

(** Modelled from the spec: third flag bit of an entry, special. *)
Definition FILEINFOFLAG_SPECIAL : Z := 0x04.

(** The C test [(v & mask)] used as a condition. *)
Definition has_flag (v mask : Z) : bool := negb (Z.land v mask =? 0).

(** ** Fixed-width arithmetic and the wire codec *)

Definition to_uint8 (v : Z) : Z := v mod 2 ^ 8.
Definition to_uint16 (v : Z) : Z := v mod 2 ^ 16.
Definition to_uint32 (v : Z) : Z := v mod 2 ^ 32.

(** Conversion to [int] (32 bits, two's complement). *)
Definition to_int32 (v : Z) : Z := (v + 2 ^ 31) mod 2 ^ 32 - 2 ^ 31.

(** Modelled from the spec: [endian.c] is not among the sources; all
    multi-byte integers on the wire are little-endian. *)
Definition uint16tnfs (value : Z) : list Z :=
  [Z.land value 255; Z.land (Z.shiftr value 8) 255].

(** Modelled from the spec: little-endian encoding of a 32-bit value, as
    [uint16tnfs]. *)
Definition uint32tnfs (value : Z) : list Z :=
  [Z.land value 255; Z.land (Z.shiftr value 8) 255;
   Z.land (Z.shiftr value 16) 255; Z.land (Z.shiftr value 24) 255].

(** Modelled from the spec: little-endian decoding of the two bytes at the
    head of the buffer. *)
Definition tnfs16uint (buf : list Z) : Z :=
  match buf with
  | b0 :: b1 :: _ => Z.lor b0 (Z.shiftl b1 8)
  | _ => 0
  end.

(** Modelled from the spec: little-endian decoding of the four bytes at the
    head of the buffer. *)
Definition tnfs32uint (buf : list Z) : Z :=
  match buf with
  | b0 :: b1 :: b2 :: b3 :: _ =>
      Z.lor (Z.lor (Z.lor b0 (Z.shiftl b1 8)) (Z.shiftl b2 16)) (Z.shiftl b3 24)
  | _ => 0
  end.

(** ** Data model *)

(** [directory_entry]: what READDIRX returns for one name. *)
Record directory_entry := {
  e_flags : Z;
  e_size : Z;
  e_mtime : Z;
  e_ctime : Z;
  e_entrypath : cstr
}.

Fixpoint cstr_eqb (a b : cstr) : bool :=
  match a, b with
  | [], [] => true
  | x :: a', y :: b' => if Ascii.eqb x y then cstr_eqb a' b' else false
  | _, _ => false
  end.

Definition entry_eqb (a b : directory_entry) : bool :=
  (e_flags a =? e_flags b) && (e_size a =? e_size b)
  && (e_mtime a =? e_mtime b) && (e_ctime a =? e_ctime b)
  && cstr_eqb (e_entrypath a) (e_entrypath b).

(** A [directory_entry_list] is the chain of nodes from its head; a
    [directory_entry_list_node *] is the chain from that node. *)
Abbreviation directory_entry_list := (list directory_entry).

(** The native directory stream.  Of the stream only its location is kept:
    [seekdir] stores it and [telldir] reads it back. *)
Record DIR := { dir_loc : Z }.

Definition native_seekdir (d : DIR) (loc : Z) : DIR := {| dir_loc := loc |}.
Definition native_telldir (d : DIR) : Z := dir_loc d.

Record dir_handle := {
  dh_handle : option DIR;
  dh_path : cstr;
  dh_pattern : cstr;
  dh_diropt : Z;
  dh_sortopt : Z;
  dh_open_at : Z;
  dh_entry_list : directory_entry_list;
  dh_current_entry : directory_entry_list;
  dh_entry_count : Z;
  dh_open : bool;
  dh_loaded : bool
}.

Definition set_open (dh : dir_handle) (b : bool) : dir_handle :=
  {| dh_handle := dh_handle dh; dh_path := dh_path dh;
     dh_pattern := dh_pattern dh; dh_diropt := dh_diropt dh;
     dh_sortopt := dh_sortopt dh; dh_open_at := dh_open_at dh;
     dh_entry_list := dh_entry_list dh;
     dh_current_entry := dh_current_entry dh;
     dh_entry_count := dh_entry_count dh;
     dh_open := b; dh_loaded := dh_loaded dh |}.

Definition set_loaded (dh : dir_handle) (b : bool) : dir_handle :=
  {| dh_handle := dh_handle dh; dh_path := dh_path dh;
     dh_pattern := dh_pattern dh; dh_diropt := dh_diropt dh;
     dh_sortopt := dh_sortopt dh; dh_open_at := dh_open_at dh;
     dh_entry_list := dh_entry_list dh;
     dh_current_entry := dh_current_entry dh;
     dh_entry_count := dh_entry_count dh;
     dh_open := dh_open dh; dh_loaded := b |}.

Definition set_current_entry (dh : dir_handle) (node : directory_entry_list)
  : dir_handle :=
  {| dh_handle := dh_handle dh; dh_path := dh_path dh;
     dh_pattern := dh_pattern dh; dh_diropt := dh_diropt dh;
     dh_sortopt := dh_sortopt dh; dh_open_at := dh_open_at dh;
     dh_entry_list := dh_entry_list dh;
     dh_current_entry := node;
     dh_entry_count := dh_entry_count dh;
     dh_open := dh_open dh; dh_loaded := dh_loaded dh |}.

Definition set_handle (dh : dir_handle) (d : option DIR) : dir_handle :=
  {| dh_handle := d; dh_path := dh_path dh;
     dh_pattern := dh_pattern dh; dh_diropt := dh_diropt dh;
     dh_sortopt := dh_sortopt dh; dh_open_at := dh_open_at dh;
     dh_entry_list := dh_entry_list dh;
     dh_current_entry := dh_current_entry dh;
     dh_entry_count := dh_entry_count dh;
     dh_open := dh_open dh; dh_loaded := dh_loaded dh |}.

(** The part of [Session] the directory engine uses: the mount point and
    the array [dhandles] of [MAX_DHND_PER_CONN] slots. *)
Record Session := {
  s_root : cstr;
  dhandles : list dir_handle
}.

(** [s->dhandles[h]]: [None] when [h] is outside the array. *)
Definition dhandle_at (s : Session) (h : Z) : option dir_handle :=
  dhandles s !! Z.to_nat h.

Definition set_dhandle (s : Session) (h : Z) (dh : dir_handle) : Session :=
  {| s_root := s_root s; dhandles := <[Z.to_nat h := dh]> (dhandles s) |}.

(** ** Replies *)

(** The status of a reply.  [tnfs_error errno] is the call
    [tnfs_error(errno)] of [errortable.c], which is not among the sources,
    kept as the call: the byte the error table gives for the [errno] of the
    host.  That byte can be the byte of one of the named codes, so a
    status written [tnfs_error errno] says where the status comes from and
    not which byte the client reads. *)
Inductive tnfs_status :=
| TNFS_SUCCESS
| TNFS_EBADF
| TNFS_EINVAL
| TNFS_EMFILE
| TNFS_EOF
| tnfs_error (errno : Z).

(** The body of a READDIRX reply: [reply[0]], [reply[1]], the two bytes of
    [dirpos] ([None] while they have not been written; the buffer is an
    uninitialised local array), the entries packed behind the header, and
    the number of bytes handed to [tnfs_send]. *)
Record readdirx_reply := {
  rx_count : Z;
  rx_dir_status : Z;
  rx_dirpos : option (list Z);
  rx_entries : list directory_entry;
  rx_total_size : Z
}.

Inductive payload :=
| no_data
| data (bytes : list Z)
| readdirx_data (r : readdirx_reply).

Record Reply := { r_status : tnfs_status; r_payload : payload }.

(** [hdr->status = st; tnfs_send(s, hdr, body, size)]. *)
Definition tnfs_send (st : tnfs_status) (body : payload) : Reply :=
  {| r_status := st; r_payload := body |}.

Inductive outcome :=
| Done (s : Session) (sent : list Reply)
| Fault.

(** ** Linked-list primitives *)

(** Attaches [list2] to the end of [list1]. *)
Definition dirlist_concat (list1 list2 : directory_entry_list)
  : directory_entry_list :=
  match list1 with
  | [] => list2
  | _ :: _ => list1 ++ list2
  end.

(** The node becomes the head of the list. *)
Definition dirlist_push (dlist : directory_entry_list) (node : directory_entry)
  : directory_entry_list :=
  node :: dlist.

(** [while (dlist && i++ < index) dlist = dlist->next;] with [i] a
    [uint32_t]. *)
Fixpoint get_node_loop (dlist : directory_entry_list) (i index : Z)
  : directory_entry_list :=
  match dlist with
  | [] => []
  | _ :: next =>
      if i <? index then get_node_loop next (to_uint32 (i + 1)) index
      else dlist
  end.

Definition dirlist_get_node_at_index (dlist : directory_entry_list) (index : Z)
  : directory_entry_list :=
  get_node_loop dlist 0 index.

(** [p == q] for two node pointers: the chains they head are the same. *)
Fixpoint same_node (p q : directory_entry_list) : bool :=
  match p, q with
  | [], [] => true
  | a :: p', b :: q' => if entry_eqb a b then same_node p' q' else false
  | _, _ => false
  end.

(** [while (dlist) { if (dlist == node) break; dlist = dlist->next; i++; }]
    with [i] a [uint32_t]. *)
Fixpoint get_index_loop (dlist node : directory_entry_list) (i : Z) : Z :=
  match dlist with
  | [] => i
  | _ :: next =>
      if same_node dlist node then i
      else get_index_loop next node (to_uint32 (i + 1))
  end.

Definition dirlist_get_index_for_node (dlist node : directory_entry_list) : Z :=
  get_index_loop dlist node 0.

(** ** CLOSEDIR, SEEKDIR, TELLDIR *)

Definition ebadf (s : Session) : outcome :=
  Done s [tnfs_send TNFS_EBADF no_data].

Definition tnfs_closedir (s : Session) (databuf : list Z) : outcome :=
  match databuf with
  | [h] =>
      if h >? MAX_DHND_PER_CONN then ebadf s
      else match dhandle_at s h with
           | None => Fault
           | Some dh =>
               if negb (dh_open dh) then ebadf s
               else Done (set_dhandle s h (set_open dh false))
                         [tnfs_send TNFS_SUCCESS no_data]
           end
  | _ => ebadf s
  end.

Definition tnfs_seekdir (s : Session) (databuf : list Z) : outcome :=
  match databuf with
  | [h; _; _; _; _] =>
      if h >? MAX_DHND_PER_CONN then ebadf s
      else match dhandle_at s h with
           | None => Fault
           | Some dh =>
               if negb (dh_open dh) then ebadf s
               else
                 let pos := tnfs32uint (tail databuf) in
                 match dh_entry_list dh, dh_handle dh with
                 | [], None => ebadf s
                 | [], Some d =>
                     Done (set_dhandle s h
                             (set_handle dh (Some (native_seekdir d pos))))
                          [tnfs_send TNFS_SUCCESS no_data]
                 | _ :: _, _ =>
                     Done (set_dhandle s h
                             (set_current_entry dh
                                (dirlist_get_node_at_index (dh_entry_list dh) pos)))
                          [tnfs_send TNFS_SUCCESS no_data]
                 end
           end
  | _ => ebadf s
  end.

Definition tnfs_telldir (s : Session) (databuf : list Z) : outcome :=
  match databuf with
  | [h] =>
      if h >? MAX_DHND_PER_CONN then ebadf s
      else match dhandle_at s h with
           | None => Fault
           | Some dh =>
               if negb (dh_open dh) then ebadf s
               else
                 match dh_entry_list dh, dh_handle dh with
                 | [], None => ebadf s
                 | [], Some d =>
                     let pos := to_int32 (native_telldir d) in
                     Done s [tnfs_send TNFS_SUCCESS
                               (data (uint32tnfs (to_uint32 pos)))]
                 | _ :: _, _ =>
                     let pos :=
                       to_int32 (dirlist_get_index_for_node
                                   (dh_entry_list dh) (dh_current_entry dh)) in
                     Done s [tnfs_send TNFS_SUCCESS
                               (data (uint32tnfs (to_uint32 pos)))]
                 end
           end
  | _ => ebadf s
  end.

(** ** READDIRX *)

Definition READDIRX_HEADER_SIZE : Z := 4.
Definition READDIRX_ENTRY_SIZE : Z := 14.

(** The local variables of the pack loop. *)
Record pack_state := {
  count_sent : Z;
  total_size : Z;
  dirpos : option (list Z);
  packed : list directory_entry;
  cursor : directory_entry_list
}.

(** [while (dh->current_entry != NULL) { ... }]: the argument [current] is
    [dh->current_entry], the result carries its final value in [cursor]. *)
Fixpoint pack_loop (req_count : Z) (entry_list current : directory_entry_list)
    (st : pack_state) : pack_state :=
  match current with
  | [] =>
      {| count_sent := count_sent st; total_size := total_size st;
         dirpos := dirpos st; packed := packed st; cursor := [] |}
  | pThisEntry :: next =>
      let stop :=
        {| count_sent := count_sent st; total_size := total_size st;
           dirpos := dirpos st; packed := packed st; cursor := current |} in
      if negb (req_count =? 0) && (count_sent st >=? req_count) then stop
      else
        let namelen := strlen (e_entrypath pThisEntry) in
        if total_size st + READDIRX_ENTRY_SIZE + namelen >? TNFS_MAX_PAYLOAD
        then stop
        else
          pack_loop req_count entry_list next
            {| count_sent := to_uint8 (count_sent st + 1);
               total_size := total_size st + READDIRX_ENTRY_SIZE + namelen;
               dirpos :=
                 if count_sent st =? 0
                 then Some (uint16tnfs
                              (to_uint16
                                 (dirlist_get_index_for_node entry_list current)))
                 else dirpos st;
               packed := packed st ++ [pThisEntry];
               cursor := next |}
  end.

Definition tnfs_readdirx (s : Session) (databuf : list Z) : outcome :=
  match databuf with
  | [sid; req_count] =>
      if sid >? MAX_DHND_PER_CONN then ebadf s
      else match dhandle_at s sid with
           | None => Fault
           | Some dh =>
               (* no return after this send *)
               let at_end :=
                 match dh_current_entry dh with
                 | [] => [tnfs_send TNFS_EOF no_data]
                 | _ :: _ => []
                 end in
               let st :=
                 pack_loop req_count (dh_entry_list dh) (dh_current_entry dh)
                   {| count_sent := 0; total_size := READDIRX_HEADER_SIZE;
                      dirpos := None; packed := [];
                      cursor := dh_current_entry dh |} in
               let dir_status :=
                 match cursor st with
                 | [] => Z.lor 0 TNFS_DIRSTATUS_EOF
                 | _ :: _ => 0
                 end in
               Done (set_dhandle s sid (set_current_entry dh (cursor st)))
                    (at_end ++
                     [tnfs_send TNFS_SUCCESS
                        (readdirx_data
                           {| rx_count := count_sent st;
                              rx_dir_status := dir_status;
                              rx_dirpos := dirpos st;
                              rx_entries := packed st;
                              rx_total_size := total_size st |})])
           end
  | _ => ebadf s
  end.

(** ** Path resolution *)

(** [normalize_path]: the loop that removes repeated delimiters.  The
    counter [count] is never advanced in the C code, so the bound on it
    does not limit the loop; a character other than a slash takes the first
    branch, so the test for a backslash in the second is never the one that
    decides. *)
Fixpoint normalize_loop (oldbuf : cstr) (slash : bool) : cstr :=
  match oldbuf with
  | [] => []
  | c :: rest =>
      if negb (Ascii.eqb c "/")
      then c :: normalize_loop rest false
      else if negb slash && (Ascii.eqb c "/" || Ascii.eqb c "\")
      then "/"%char :: normalize_loop rest true
      else normalize_loop rest slash
  end.

Definition normalize_path (oldbuf : cstr) : cstr := normalize_loop oldbuf false.

Section Resolution.
(** The host: [realpath(3)], as the content it leaves in the result
    buffer, the global [root] and its canonical form [realroot]. *)
Variable realpath : cstr -> cstr.
Variable root realroot : cstr.

(** Returns 1 if the path is inside the tnfs root, 0 if it is outside. *)
Definition validate_path (path : cstr) : bool :=
  let valpath := realpath path in
  match strstr valpath realroot with
  | Some _ => true
  | None => false
  end.

(** The path [tnfs_opendir] and [tnfs_opendirx] hand to the handle
    allocation, which stores it in the slot for [opendir(3)]. *)
Definition resolve_dirpath (s : Session) (pDirpath : cstr) : cstr :=
  let path :=
    snprintf MAX_TNFSPATH
      (root ++ cs "/" ++ s_root s ++ cs "/" ++ pDirpath) in
  let normalized_path := normalize_path path in
  if negb (validate_path normalized_path) then root else normalized_path.
End Resolution.

(** Canonical form of an absolute path on a host where every component
    names a directory and none is a symbolic link: [realpath(3)] then only
    removes empty and [.] components and resolves [..] against what
    precedes it. *)
Fixpoint split_components (p : cstr) (cur : cstr) : list cstr :=
  match p with
  | [] => [cur]
  | c :: rest =>
      if Ascii.eqb c "/" then cur :: split_components rest []
      else split_components rest (cur ++ [c])
  end.

Definition resolve_component (stack : list cstr) (comp : cstr) : list cstr :=
  if cstr_eqb comp [] then stack
  else if cstr_eqb comp (cs ".") then stack
  else if cstr_eqb comp (cs "..") then removelast stack
  else stack ++ [comp].

Definition realpath_lexical (p : cstr) : cstr :=
  match foldl resolve_component [] (split_components p []) with
  | [] => cs "/"
  | comps => concat (map (fun c => "/"%char :: c) comps)
  end.

(** ** Directory-handle allocation *)

Definition _tnfs_free_dir_handle (dhandle : dir_handle) : dir_handle :=
  {| dh_handle := None; dh_path := []; dh_pattern := [];
     dh_diropt := dh_diropt dhandle; dh_sortopt := dh_sortopt dhandle;
     dh_open_at := dh_open_at dhandle;
     dh_entry_list := []; dh_current_entry := [];
     dh_entry_count := 0;
     dh_open := dh_open dhandle; dh_loaded := false |}.

Definition _tnfs_init_dhandle (now : Z) (dhandle : dir_handle) (path : cstr)
    (diropt sortopt : Z) (pattern : option cstr) : dir_handle :=
  {| dh_handle := dh_handle dhandle;
     dh_path := strlcpy path MAX_TNFSPATH;
     dh_pattern :=
       match pattern with
       | None => []
       | Some p => strlcpy p MAX_TNFSPATH
       end;
     dh_diropt := diropt; dh_sortopt := sortopt;
     dh_open_at := now;
     dh_entry_list := dh_entry_list dhandle;
     dh_current_entry := dh_current_entry dhandle;
     dh_entry_count := dh_entry_count dhandle;
     dh_open := dh_open dhandle; dh_loaded := dh_loaded dhandle |}.

(** The body of the first loop: remove an old handle. *)
Definition sweep_handle (now : Z) (dhandle : dir_handle) : dir_handle :=
  if dh_open dhandle then dhandle
  else if dh_loaded dhandle && (now >? dh_open_at dhandle + DIR_HANDLE_TIMEOUT)
  then _tnfs_free_dir_handle dhandle
  else dhandle.

(** The condition of the reuse loop.  [None] is the call of [strncmp] on a
    null [pattern], reached when the slot holds a pattern and the request
    has none. *)
Definition reuse_test (dhandle : dir_handle) (path : cstr) (diropt sortopt : Z)
    (pattern : option cstr) : option bool :=
  if dh_loaded dhandle
     && (strncmp (dh_path dhandle) path (Z.to_nat MAX_TNFSPATH) =? 0)
     && (dh_diropt dhandle =? diropt)
     && (dh_sortopt dhandle =? sortopt)
  then
    match pattern with
    | None =>
        match dh_pattern dhandle with
        | [] => Some true
        | _ :: _ => None
        end
    | Some p =>
        Some (strncmp (dh_pattern dhandle) p (Z.to_nat MAX_TNFSPATH) =? 0)
    end
  else Some false.

Inductive reuse_result :=
| reuse_at (i : Z)
| reuse_none
| reuse_fault.

(** Attempt 1: [for (i = 0; i < MAX_DHND_PER_CONN; i++)] over the slots
    from index [i] on. *)
Fixpoint reuse_loop (slots : list dir_handle) (i : Z) (path : cstr)
    (diropt sortopt : Z) (pattern : option cstr) : reuse_result :=
  match slots with
  | [] => reuse_none
  | dhandle :: rest =>
      match reuse_test dhandle path diropt sortopt pattern with
      | None => reuse_fault
      | Some true => reuse_at i
      | Some false => reuse_loop rest (i + 1) path diropt sortopt pattern
      end
  end.

(** The index of the first slot, from index [i] on, that a loop of attempt
    2 or 3 does not pass over with [continue]. *)
Fixpoint first_slot (skip : dir_handle -> bool) (slots : list dir_handle) (i : Z)
  : option Z :=
  match slots with
  | [] => None
  | dhandle :: rest =>
      if skip dhandle then first_slot skip rest (i + 1) else Some i
  end.

Inductive find_result :=
| found (i : Z) (s : Session)
| no_handle (s : Session)
| find_fault.

(** Applies [f] to slot [i]; the indices come from loops over the array. *)
Definition update_dhandle (s : Session) (i : Z) (f : dir_handle -> dir_handle)
  : Session :=
  {| s_root := s_root s; dhandles := alter f (Z.to_nat i) (dhandles s) |}.

Definition _tnfs_find_free_dir_handle (now : Z) (s : Session) (path : cstr)
    (diropt sortopt : Z) (pattern : option cstr) (reuse : bool) : find_result :=
  (* remove old handles *)
  let s1 := {| s_root := s_root s;
               dhandles := map (sweep_handle now) (dhandles s) |} in
  (* attempt 1 - try to reuse handle *)
  let attempt1 :=
    if reuse then reuse_loop (dhandles s1) 0 path diropt sortopt pattern
    else reuse_none in
  match attempt1 with
  | reuse_fault => find_fault
  | reuse_at i =>
      found i (update_dhandle s1 i
                 (fun dhandle => set_current_entry dhandle (dh_entry_list dhandle)))
  | reuse_none =>
      (* attempt 2 - try to find empty handle *)
      match first_slot (fun dhandle => dh_open dhandle || dh_loaded dhandle)
                       (dhandles s1) 0 with
      | Some i =>
          found i (update_dhandle s1 i
                     (fun dhandle =>
                        _tnfs_init_dhandle now dhandle path diropt sortopt pattern))
      | None =>
          (* attempt 3 - try to find any available handle *)
          match first_slot dh_open (dhandles s1) 0 with
          | Some i =>
              found i (update_dhandle s1 i
                         (fun dhandle =>
                            let dhandle' :=
                              if dh_loaded dhandle
                              then _tnfs_free_dir_handle dhandle
                              else dhandle in
                            _tnfs_init_dhandle now dhandle' path diropt sortopt
                              pattern))
          | None => no_handle s1
          end
      end
  end.

(** ** Glob matching *)

(** [bool lookup[n + 1][m + 1]], as the function from its indices. *)
Definition table := nat -> nat -> bool.

Definition table_set (lookup : table) (i j : nat) (v : bool) : table :=
  fun i' j' => if (Nat.eqb i' i && Nat.eqb j' j)%bool then v else lookup i' j'.

(** [s[k]]; the terminator beyond the end. *)
Definition char_at (s : cstr) (k : nat) : ascii := nth k s zero.

(** [for (k = 1; k <= hi; k++) body]. *)
Definition for_from_1 {St : Type} (hi : nat) (body : nat -> St -> St) (init : St)
  : St :=
  foldl (fun st k => body k st) init (seq 1 hi).

(** The body of the inner loop of the table fill. *)
Definition match_cell (src pattern : cstr) (i j : nat) (lookup : table) : table :=
  if Ascii.eqb (char_at pattern (j - 1)) "*"
  then table_set lookup i j (lookup i (j - 1)%nat || lookup (i - 1)%nat j)
  else if Ascii.eqb (char_at pattern (j - 1)) "?"
          || Ascii.eqb (char_at src (i - 1)) (char_at pattern (j - 1))
          || Ascii.eqb (tolower (char_at src (i - 1)))
                       (tolower (char_at pattern (j - 1)))
  then table_set lookup i j (lookup (i - 1)%nat (j - 1)%nat)
  else table_set lookup i j false.

(** Returns false if the pattern does not match, otherwise true.  Both
    arguments are non-null at the one call in [_load_directory]. *)
Definition _pattern_match (src pattern : cstr) : bool :=
  let m := length pattern in
  let n := length src in
  if Nat.eqb m 0 then Nat.eqb n 0
  else
    let lookup0 : table := fun _ _ => false in
    let lookup1 := table_set lookup0 0 0 true in
    let lookup2 :=
      for_from_1 m
        (fun j lookup =>
           if Ascii.eqb (char_at pattern (j - 1)) "*"
           then table_set lookup 0 j (lookup 0%nat (j - 1)%nat)
           else lookup)
        lookup1 in
    let lookup3 :=
      for_from_1 n
        (fun i lookup => for_from_1 m (match_cell src pattern i) lookup)
        lookup2 in
    lookup3 n m.

(** ** Sorting *)

(** The value of [r] in [_mergesort_merge] when it chooses between the
    heads of the two lists.  The fields are [uint32_t] and [r] is an
    [int]. *)
Definition merge_order (sortopts : Z) (left right : directory_entry) : Z :=
  let r :=
    if has_flag sortopts TNFS_DIRSORT_SIZE
    then to_int32 (to_uint32 (e_size left - e_size right))
    else if has_flag sortopts TNFS_DIRSORT_MODIFIED
    then to_int32 (to_uint32 (e_mtime left - e_mtime right))
    else if has_flag sortopts TNFS_DIRSORT_CASE
    then strcmp (e_entrypath left) (e_entrypath right)
    else strcasecmp (e_entrypath left) (e_entrypath right) in
  if has_flag sortopts TNFS_DIRSORT_DESCENDING then to_int32 (r * -1) else r.

Fixpoint _mergesort_merge (sortopts : Z)
    (list_left list_right : directory_entry_list) {struct list_left}
  : directory_entry_list :=
  let fix merge_right (list_right : directory_entry_list) {struct list_right}
    : directory_entry_list :=
    match list_left, list_right with
    | [], _ => list_right
    | _, [] => list_left
    | l :: left_next, r :: right_next =>
        if merge_order sortopts l r <? 0
        then l :: _mergesort_merge sortopts left_next list_right
        else r :: merge_right right_next
    end in
  merge_right list_right.

(** [while (fast->next != NULL && fast->next->next != NULL)]: [slow]
    advances by one node and [fast] by two. *)
Fixpoint get_middle_loop (slow fast : directory_entry_list)
  : directory_entry_list :=
  match fast with
  | _ :: _ :: (_ :: _) as fast' => get_middle_loop (tail slow) fast'
  | _ => slow
  end.

Definition _mergesort_get_middle (head : directory_entry_list)
  : directory_entry_list :=
  get_middle_loop head head.

(** The two lists [_mergesort] makes of [head]: the chain from
    [list_mid->next], and [head] cut after [list_mid]. *)
Definition mergesort_right (head : directory_entry_list) : directory_entry_list :=
  tail (_mergesort_get_middle head).

Definition mergesort_left (head : directory_entry_list) : directory_entry_list :=
  take (length head - length (mergesort_right head)) head.

(** [_mergesort]: split after the middle node, sort both halves, merge. *)
Equations? _mergesort (sortopts : Z) (head : directory_entry_list)
  : directory_entry_list by wf (length head) lt :=
  _mergesort sortopts [] := [];
  _mergesort sortopts [x] := [x];
  _mergesort sortopts (x :: y :: rest) :=
    _mergesort_merge sortopts
      (_mergesort sortopts (mergesort_left (x :: y :: rest)))
      (_mergesort sortopts (mergesort_right (x :: y :: rest))).
Proof.
  all: assert (Hmid : forall (n : nat) (fast slow : directory_entry_list),
             (length fast <= n)%nat -> (1 <= length fast)%nat ->
             (length fast <= 2 * length slow)%nat ->
             (2 * length (get_middle_loop slow fast) + length fast
              <= 2 * length slow + 2
              /\ 2 * length slow + 1
              <= 2 * length (get_middle_loop slow fast) + length fast)%nat).
  1,3: induction n as [|n IH]; intros fast slow Hn Hf Hs;
       [ lia
       | destruct fast as [|a [|b [|c fast]]]; simpl in *; try lia;
         destruct slow as [|s0 slow]; simpl in *; try lia;
         destruct (IH (c :: fast) slow) as [H1 H2]; simpl in *; lia ].
  all: specialize (Hmid (length (x :: y :: rest)) (x :: y :: rest) (x :: y :: rest)).
  all: unfold mergesort_left, mergesort_right, _mergesort_get_middle.
  all: rewrite ?length_take.
  all: destruct (get_middle_loop (x :: y :: rest) (x :: y :: rest));
       cbn [length tail] in *; lia.
Defined.

(** Merge sort on a singly-linked list. *)
Definition dirlist_sort (dlist : directory_entry_list) (sortopts : Z)
  : directory_entry_list :=
  _mergesort sortopts dlist.

(** ** Loading a directory *)

(** What [get_fileinfo] stores for a path; the fields are taken to have the
    widths of the fields of [directory_entry] they are assigned to. *)
Record fileinfo_t := {
  fi_flags : Z;
  fi_size : Z;
  fi_m_time : Z;
  fi_c_time : Z
}.

(** One step of the native stream: the name [readdir] returns, what
    [get_fileinfo] finds for it, [None] when it fails, and the location of
    the stream once the entry has been read, as [telldir] would give it;
    the host chooses these locations. *)
Record dirent := {
  d_name : cstr;
  d_info : option fileinfo_t;
  d_off : Z
}.

(** The first [continue] of the loop: the entry is subject to the pattern
    and does not match it. *)
Definition pattern_skips (diropts : Z) (pattern : option cstr) (name : cstr)
    (finf : fileinfo_t) : bool :=
  if has_flag diropts TNFS_DIROPT_DIR_PATTERN
     || negb (has_flag (fi_flags finf) FILEINFOFLAG_DIRECTORY)
  then match pattern with
       | Some p => negb (_pattern_match name p)
       | None => false
       end
  else false.

(** One of the four [continue] statements is taken. *)
Definition entry_skipped (diropts : Z) (pattern : option cstr) (name : cstr)
    (finf : fileinfo_t) : bool :=
  pattern_skips diropts pattern name finf
  || (negb (has_flag diropts TNFS_DIROPT_NO_SKIPHIDDEN)
      && has_flag (fi_flags finf) FILEINFOFLAG_HIDDEN)
  || (negb (has_flag diropts TNFS_DIROPT_NO_SKIPSPECIAL)
      && has_flag (fi_flags finf) FILEINFOFLAG_SPECIAL)
  || (has_flag diropts TNFS_DIROPT_NO_FOLDERS
      && has_flag (fi_flags finf) FILEINFOFLAG_DIRECTORY).

(** The node made for an accepted entry; it comes zeroed from [calloc] and
    the flags are copied for a directory only. *)
Definition make_node (name : cstr) (finf : fileinfo_t) : directory_entry :=
  {| e_flags :=
       if has_flag (fi_flags finf) FILEINFOFLAG_DIRECTORY
       then fi_flags finf else 0;
     e_size := fi_size finf;
     e_mtime := fi_m_time finf;
     e_ctime := fi_c_time finf;
     e_entrypath := strlcpy name MAX_FILENAME_LEN |}.

(** The node goes to [list_dirs] rather than to [list_files]. *)
Definition to_list_dirs (diropts : Z) (finf : fileinfo_t) : bool :=
  has_flag (fi_flags finf) FILEINFOFLAG_DIRECTORY
  && negb (has_flag diropts TNFS_DIROPT_NO_FOLDERSFIRST).

Record load_state := {
  list_dirs : directory_entry_list;
  list_files : directory_entry_list;
  entrycount : Z;
  stream_loc : Z
}.

(** [while ((entry = readdir(dirh->handle)) != NULL) { ... }] over what
    the stream still holds; [entrycount] is a [uint16_t], and [stream_loc]
    is where the reads have left the native stream. *)
Fixpoint load_loop (diropts maxresults : Z) (pattern : option cstr)
    (stream : list dirent) (st : load_state) : load_state :=
  match stream with
  | [] => st
  | entry :: rest =>
      let st0 := {| list_dirs := list_dirs st; list_files := list_files st;
                    entrycount := entrycount st; stream_loc := d_off entry |} in
      match d_info entry with
      | None => load_loop diropts maxresults pattern rest st0
      | Some finf =>
          if entry_skipped diropts pattern (d_name entry) finf
          then load_loop diropts maxresults pattern rest st0
          else
            let node := make_node (d_name entry) finf in
            let st1 :=
              if to_list_dirs diropts finf
              then {| list_dirs := dirlist_push (list_dirs st) node;
                      list_files := list_files st;
                      entrycount := to_uint16 (entrycount st + 1);
                      stream_loc := d_off entry |}
              else {| list_dirs := list_dirs st;
                      list_files := dirlist_push (list_files st) node;
                      entrycount := to_uint16 (entrycount st + 1);
                      stream_loc := d_off entry |} in
            if (maxresults >? 0) && (entrycount st1 >=? maxresults)
            then st1
            else load_loop diropts maxresults pattern rest st1
      end
  end.

(** The body of [_load_directory] once [opendir] has succeeded and the
    stream holds [stream]; the stream starts at location 0 and is left
    open where the last [readdir] has put it. *)
Definition load_entries (dirh : dir_handle) (diropts sortopts maxresults : Z)
    (pattern : option cstr) (stream : list dirent) : dir_handle :=
  let st := load_loop diropts maxresults pattern stream
              {| list_dirs := []; list_files := []; entrycount := 0;
                 stream_loc := 0 |} in
  let sorted_dirs :=
    if negb (has_flag sortopts TNFS_DIRSORT_NONE)
    then match list_dirs st with
         | [] => []
         | _ :: _ => dirlist_sort (list_dirs st) sortopts
         end
    else list_dirs st in
  let sorted_files :=
    if negb (has_flag sortopts TNFS_DIRSORT_NONE)
    then match list_files st with
         | [] => []
         | _ :: _ => dirlist_sort (list_files st) sortopts
         end
    else list_files st in
  let entry_list := dirlist_concat sorted_dirs sorted_files in
  {| dh_handle := Some {| dir_loc := stream_loc st |};
     dh_path := dh_path dirh; dh_pattern := dh_pattern dirh;
     dh_diropt := dh_diropt dirh; dh_sortopt := dh_sortopt dirh;
     dh_open_at := dh_open_at dirh;
     dh_entry_list := entry_list;
     dh_current_entry := entry_list;
     dh_entry_count := entrycount st;
     dh_open := dh_open dirh; dh_loaded := dh_loaded dirh |}.

(** ** OPENDIR and OPENDIRX *)

Definition ascii_of_byte (b : Z) : ascii := ascii_of_N (Z.to_N b).

(** The C string that starts at the head of the buffer. *)
Fixpoint c_string (buf : list Z) : cstr :=
  match buf with
  | [] => []
  | b :: rest => if b =? 0 then [] else ascii_of_byte b :: c_string rest
  end.

Section Host.
(** The host and the collaborators that are not part of [directory.c]:
    the clock, [realpath], the two globals [root] and [realroot], what
    [opendir] and the following [readdir] and [get_fileinfo] calls give
    for a path ([inl errno] when [opendir] fails), and the recursive
    loader of [traverse.c]. *)
Variable now : Z.
Variable realpath : cstr -> cstr.
Variable root realroot : cstr.
Variable host_opendir : cstr -> Z + list dirent.
Variable _traverse_directory :
  dir_handle -> Z -> Z -> Z -> option cstr -> Z * dir_handle.

(** Returns errno on failure, otherwise zero.  On failure the nodes of
    the old list have been freed and the pointers to them are left as
    they were. *)
Definition _load_directory (dirh : dir_handle)
    (diropts sortopts maxresults : Z) (pattern : option cstr)
  : Z * dir_handle :=
  match host_opendir (dh_path dirh) with
  | inl errno =>
      (errno,
       {| dh_handle := None;
          dh_path := dh_path dirh; dh_pattern := dh_pattern dirh;
          dh_diropt := dh_diropt dirh; dh_sortopt := dh_sortopt dirh;
          dh_open_at := dh_open_at dirh;
          dh_entry_list := dh_entry_list dirh;
          dh_current_entry := dh_current_entry dirh;
          dh_entry_count := 0;
          dh_open := dh_open dirh; dh_loaded := dh_loaded dirh |})
  | inr stream =>
      (0, load_entries dirh diropts sortopts maxresults pattern stream)
  end.

Definition tnfs_opendirx (s : Session) (databuf : list Z) : outcome :=
  let datasz := Z.of_nat (length databuf) in
  if (datasz <? 7) || negb (bool_decide (last databuf = Some 0))
  then Done s [tnfs_send TNFS_EINVAL no_data]
  else
    let diropts := nth 0 databuf 0 in
    let sortopts := nth 1 databuf 0 in
    let maxresults := tnfs16uint (drop 2 databuf) in
    let first := c_string (drop 4 databuf) in
    let i := strlen first in
    let pDirpath :=
      if i + 5 =? datasz then first
      else c_string (drop (4 + Z.to_nat i + 1) databuf) in
    let pPattern :=
      if (i + 5 =? datasz) || (i =? 0) then None else Some first in
    let normalized_path := resolve_dirpath realpath root realroot s pDirpath in
    match _tnfs_find_free_dir_handle now s normalized_path diropts sortopts
            pPattern (has_flag diropts TNFS_DIROPT_TRAVERSE) with
    | find_fault => Fault
    | no_handle s1 => Done s1 [tnfs_send TNFS_EMFILE no_data]
    | found i s1 =>
        match dhandle_at s1 i with
        | None => Fault
        | Some dh =>
            let '(result, dh1) :=
              if has_flag diropts TNFS_DIROPT_TRAVERSE
              then (if dh_loaded dh then (0, dh)
                    else _traverse_directory dh diropts sortopts maxresults
                           pPattern)
              else _load_directory dh diropts sortopts maxresults pPattern in
            if to_uint8 result =? 0
            then
              Done (set_dhandle s1 i (set_loaded (set_open dh1 true) true))
                   [tnfs_send TNFS_SUCCESS
                      (data (to_uint8 i :: uint16tnfs (dh_entry_count dh1)))]
            else
              Done (set_dhandle s1 i dh1)
                   [tnfs_send (tnfs_error (to_uint8 result)) no_data]
        end
    end.

Definition tnfs_opendir (s : Session) (databuf : list Z) : outcome :=
  if negb (bool_decide (last databuf = Some 0))
  then Done s [tnfs_send TNFS_EINVAL no_data]
  else
    let normalized_path :=
      resolve_dirpath realpath root realroot s (c_string databuf) in
    match _tnfs_find_free_dir_handle now s normalized_path 0 0 None false with
    | find_fault => Fault
    | no_handle s1 => Done s1 [tnfs_send TNFS_EMFILE no_data]
    | found i s1 =>
        match dhandle_at s1 i with
        | None => Fault
        | Some dh =>
            match host_opendir (dh_path dh) with
            | inr _ =>
                Done (set_dhandle s1 i
                        (set_open (set_handle dh (Some {| dir_loc := 0 |})) true))
                     [tnfs_send TNFS_SUCCESS (data [to_uint8 i])]
            | inl errno =>
                Done s1 [tnfs_send (tnfs_error errno) no_data]
            end
        end
    end.
End Host.

(** ** Statements of the specification and sample states *)

(** A slot as [tnfs_init] leaves it: zeroed. *)
Definition blank_dhandle : dir_handle :=
  {| dh_handle := None; dh_path := []; dh_pattern := [];
     dh_diropt := 0; dh_sortopt := 0; dh_open_at := 0;
     dh_entry_list := []; dh_current_entry := [];
     dh_entry_count := 0; dh_open := false; dh_loaded := false |}.

Definition blank_session : Session :=
  {| s_root := []; dhandles := replicate (Z.to_nat MAX_DHND_PER_CONN) blank_dhandle |}.

(** A session whose array has its [MAX_DHND_PER_CONN] slots. *)
Definition session_wf (s : Session) : Prop :=
  length (dhandles s) = Z.to_nat MAX_DHND_PER_CONN.

Definition session_of (o : outcome) : option Session :=
  match o with
  | Done s _ => Some s
  | Fault => None
  end.

Definition replies_of (o : outcome) : list Reply :=
  match o with
  | Done _ sent => sent
  | Fault => []
  end.

(** The value a TELLDIR reply carries. *)
Definition telldir_value (r : Reply) : option Z :=
  match r_status r, r_payload r with
  | TNFS_SUCCESS, data bytes => Some (tnfs32uint bytes)
  | _, _ => None
  end.

(** SEEKDIR to [n] on handle [h] succeeds, leaves the cursor at the null
    node, and the TELLDIR that follows succeeds and returns the
    [entry_count] of the handle. *)
Definition seek_past_end_law (s : Session) (h n : Z) : Prop :=
  exists s1 dh1 r,
    tnfs_seekdir s (h :: uint32tnfs n) = Done s1 [tnfs_send TNFS_SUCCESS no_data]
    /\ dhandle_at s1 h = Some dh1
    /\ dh_current_entry dh1 = []
    /\ tnfs_telldir s1 [h] = Done s1 [r]
    /\ telldir_value r = Some (dh_entry_count dh1).

(** A host with one empty directory at every path. *)
Definition empty_host (path : cstr) : Z + list dirent := inr [].

(** A recursive loader that is never reached in the samples. *)
Definition no_traverse (dh : dir_handle) (diropts sortopts maxresults : Z)
    (pattern : option cstr) : Z * dir_handle := (0, dh).

(** OPENDIRX with no options and no pattern on the path [x]. *)
Definition opendirx_plain : list Z := [0; 0; 0; 0; 0; 120; 0].

(** The session after OPENDIRX of an empty directory. *)
Definition session_empty_dir : Session :=
  match tnfs_opendirx 1000 realpath_lexical (cs "/srv/tnfs") (cs "/srv/tnfs")
          empty_host no_traverse blank_session opendirx_plain with
  | Done s _ => s
  | Fault => blank_session
  end.

(** The pattern argument OPENDIRX passes for a stored pattern: null for the
    empty one. *)
Definition request_pattern (stored : cstr) : option cstr :=
  match stored with
  | [] => None
  | _ :: _ => Some stored
  end.

(** The bytes an entry takes in a READDIRX reply, and the size of a reply
    that carries the entries [es]. *)
Definition entry_wire_size (e : directory_entry) : Z :=
  READDIRX_ENTRY_SIZE + strlen (e_entrypath e).

Definition wire_sum (es : list directory_entry) : Z :=
  foldr (fun e acc => entry_wire_size e + acc) 0 es.

(** The name of every entry fits the [entrypath] array. *)
Definition names_fit (l : directory_entry_list) : Prop :=
  Forall (fun e => strlen (e_entrypath e) < MAX_FILENAME_LEN) l.

(** What the specification asks of the reply [rx] to a READDIRX for
    [req_count] entries on a handle with entry list [l] and cursor at index
    [p], and of the cursor [cursor'] it leaves: the reply carries the [k]
    entries from [p] on, in list order, where the batch stops at the first
    of: [req_count] entries packed (when it is not zero), the next entry
    would take the reply beyond [TNFS_MAX_PAYLOAD], the list is exhausted;
    the [dirpos] field holds [pos]; the EOF bit of [dir_status] is set
    exactly when the cursor is left at the end. *)
Definition readdirx_batch_law (l : directory_entry_list) (p : nat)
    (req_count pos : Z) (rx : readdirx_reply) (cursor' : directory_entry_list)
  : Prop :=
  exists k : nat,
    rx_entries rx = take k (drop p l)
    /\ cursor' = drop (p + k) l
    /\ rx_count rx = Z.of_nat k
    /\ rx_total_size rx = READDIRX_HEADER_SIZE + wire_sum (rx_entries rx)
    /\ rx_total_size rx <= TNFS_MAX_PAYLOAD
    /\ (req_count <> 0 -> Z.of_nat k <= req_count)
    /\ ((req_count <> 0 /\ Z.of_nat k = req_count)
        \/ (exists e rest, cursor' = e :: rest
                           /\ TNFS_MAX_PAYLOAD < rx_total_size rx + entry_wire_size e)
        \/ cursor' = [])
    /\ (exists bytes, rx_dirpos rx = Some bytes /\ tnfs16uint bytes = pos)
    /\ (has_flag (rx_dir_status rx) TNFS_DIRSTATUS_EOF = true <-> cursor' = []).

(** READDIRX on handle [h] sends one success reply that satisfies the
    batch law for the entry list [l], the cursor index [p] and the
    [dirpos] value [pos]. *)
Definition readdirx_law (s : Session) (h req_count : Z)
    (l : directory_entry_list) (p : nat) (pos : Z) : Prop :=
  exists s1 dh1 rx,
    tnfs_readdirx s [h; req_count]
    = Done s1 [tnfs_send TNFS_SUCCESS (readdirx_data rx)]
    /\ dhandle_at s1 h = Some dh1
    /\ readdirx_batch_law l p req_count pos rx (dh_current_entry dh1).

Definition readdirx_reply_of (o : outcome) : option readdirx_reply :=
  match replies_of o with
  | [r] =>
      match r_payload r with
      | readdirx_data rx => Some rx
      | _ => None
      end
  | _ => None
  end.

(** A directory of 65537 files named by their number, on a host that
    numbers the locations of a stream by the entries read. *)
Definition decimal_name (i : N) : cstr :=
  cs (NilEmpty.string_of_uint (N.to_uint i)).

(** The [n] numbers from [i] upwards, and the [n] numbers below [i]
    downwards. *)
Fixpoint count_up (n : nat) (i : N) : list N :=
  match n with
  | O => []
  | S n' => i :: count_up n' (i + 1)%N
  end.

Fixpoint count_down (n : nat) (i : N) : list N :=
  match n with
  | O => []
  | S n' => (i - 1)%N :: count_down n' (i - 1)%N
  end.

Definition big_count : nat := Z.to_nat 65537.

Definition big_stream : list dirent :=
  map (fun i => {| d_name := decimal_name i;
                   d_info := Some {| fi_flags := 0; fi_size := 1;
                                     fi_m_time := 1; fi_c_time := 1 |};
                   d_off := Z.of_N (i + 1) |})
      (count_up big_count 0).

Definition big_host (path : cstr) : Z + list dirent := inr big_stream.

(** The entry list OPENDIRX makes of it when asked not to sort: the nodes
    in the order they were pushed. *)
Definition big_list : directory_entry_list :=
  map (fun i => {| e_flags := 0; e_size := 1; e_mtime := 1; e_ctime := 1;
                   e_entrypath := decimal_name i |})
      (count_down big_count 65537).

(** OPENDIRX with [sortopt] NONE, no limit and no pattern on the path [x]. *)
Definition opendirx_unsorted : list Z := [0; 1; 0; 0; 0; 120; 0].

(** The handle after that OPENDIRX and a SEEKDIR to position 65536. *)
Definition big_dhandle : dir_handle :=
  {| dh_handle := Some {| dir_loc := 65537 |};
     dh_path := cs "/srv/tnfs/x"; dh_pattern := [];
     dh_diropt := 0; dh_sortopt := 1; dh_open_at := 1000;
     dh_entry_list := big_list;
     dh_current_entry := drop (Z.to_nat 65536) big_list;
     dh_entry_count := 1;
     dh_open := true; dh_loaded := true |}.

Definition big_session : Session := set_dhandle blank_session 0 big_dhandle.

Definition option_eqb {A : Type} (eqb : A -> A -> bool) (a b : option A) : bool :=
  match a, b with
  | Some x, Some y => eqb x y
  | None, None => true
  | _, _ => false
  end.

Definition dhandle_eqb (a b : dir_handle) : bool :=
  option_eqb (fun x y => dir_loc x =? dir_loc y) (dh_handle a) (dh_handle b)
  && cstr_eqb (dh_path a) (dh_path b)
  && cstr_eqb (dh_pattern a) (dh_pattern b)
  && (dh_diropt a =? dh_diropt b) && (dh_sortopt a =? dh_sortopt b)
  && (dh_open_at a =? dh_open_at b)
  && same_node (dh_entry_list a) (dh_entry_list b)
  && same_node (dh_current_entry a) (dh_current_entry b)
  && (dh_entry_count a =? dh_entry_count b)
  && Bool.eqb (dh_open a) (dh_open b) && Bool.eqb (dh_loaded a) (dh_loaded b).

(** Slot 0 after OPENDIRX of the big directory and SEEKDIR to 65536. *)
Definition big_dhandle_run : option dir_handle :=
  match tnfs_opendirx 1000 realpath_lexical (cs "/srv/tnfs") (cs "/srv/tnfs")
          big_host no_traverse blank_session opendirx_unsorted with
  | Done s1 _ =>
      match tnfs_seekdir s1 [0; 0; 0; 1; 0] with
      | Done s2 _ => dhandle_at s2 0
      | Fault => None
      end
  | Fault => None
  end.

(** A handle over three entries with the cursor at the second. *)
Definition sample_entries : directory_entry_list :=
  [ {| e_flags := 1; e_size := 0; e_mtime := 5; e_ctime := 5;
       e_entrypath := cs "sub" |};
    {| e_flags := 0; e_size := 10; e_mtime := 1; e_ctime := 1;
       e_entrypath := cs "a" |};
    {| e_flags := 0; e_size := 20; e_mtime := 2; e_ctime := 2;
       e_entrypath := cs "B" |} ].

Definition sample_dhandle : dir_handle :=
  {| dh_handle := Some {| dir_loc := 3 |};
     dh_path := cs "/srv/tnfs/x"; dh_pattern := [];
     dh_diropt := 0; dh_sortopt := 0; dh_open_at := 1000;
     dh_entry_list := sample_entries;
     dh_current_entry := drop 1 sample_entries;
     dh_entry_count := 3;
     dh_open := true; dh_loaded := true |}.

Definition sample_session : Session := set_dhandle blank_session 0 sample_dhandle.

(** The reuse condition in the words of the specification: the slot is
    loaded but not open and its (path, diropt, sortopt, pattern) equal
    those of the request, a null pattern standing for the empty one. *)
Definition reuse_test_spec (dhandle : dir_handle) (path : cstr)
    (diropt sortopt : Z) (pattern : option cstr) : bool :=
  dh_loaded dhandle && negb (dh_open dhandle)
  && (strncmp (dh_path dhandle) path (Z.to_nat MAX_TNFSPATH) =? 0)
  && (dh_diropt dhandle =? diropt)
  && (dh_sortopt dhandle =? sortopt)
  && (strncmp (dh_pattern dhandle)
        (match pattern with Some p => p | None => [] end)
        (Z.to_nat MAX_TNFSPATH) =? 0).

(** Handle allocation in the words of the specification: the sweep, then
    the three tiers, the first of them over slots that are loaded but not
    open. *)
Definition find_free_dir_handle_spec (now : Z) (s : Session) (path : cstr)
    (diropt sortopt : Z) (pattern : option cstr) (reuse : bool) : find_result :=
  let s1 := {| s_root := s_root s;
               dhandles := map (sweep_handle now) (dhandles s) |} in
  let tier1 :=
    if reuse
    then first_slot
           (fun dhandle =>
              negb (reuse_test_spec dhandle path diropt sortopt pattern))
           (dhandles s1) 0
    else None in
  match tier1 with
  | Some i =>
      found i (update_dhandle s1 i
                 (fun dhandle => set_current_entry dhandle (dh_entry_list dhandle)))
  | None =>
      match first_slot (fun dhandle => dh_open dhandle || dh_loaded dhandle)
                       (dhandles s1) 0 with
      | Some i =>
          found i (update_dhandle s1 i
                     (fun dhandle =>
                        _tnfs_init_dhandle now dhandle path diropt sortopt pattern))
      | None =>
          match first_slot dh_open (dhandles s1) 0 with
          | Some i =>
              found i (update_dhandle s1 i
                         (fun dhandle =>
                            _tnfs_init_dhandle now
                              (_tnfs_free_dir_handle dhandle)
                              path diropt sortopt pattern))
          | None => no_handle s1
          end
      end
  end.

Definition found_index (r : find_result) : option Z :=
  match r with
  | found i _ => Some i
  | _ => None
  end.

(** A handle a client holds open on a directory loaded with TRAVERSE, its
    cursor at the second entry. *)
Definition traverse_dhandle : dir_handle :=
  {| dh_handle := None;
     dh_path := cs "/srv/tnfs/x"; dh_pattern := [];
     dh_diropt := TNFS_DIROPT_TRAVERSE; dh_sortopt := 0; dh_open_at := 1000;
     dh_entry_list := sample_entries;
     dh_current_entry := drop 1 sample_entries;
     dh_entry_count := 3;
     dh_open := true; dh_loaded := true |}.

(** A session with that handle in slot 0 and the other slots free, and a
    session with all its slots open, slot 0 being that handle. *)
Definition traverse_session : Session :=
  set_dhandle blank_session 0 traverse_dhandle.

Definition full_session : Session :=
  {| s_root := [];
     dhandles := traverse_dhandle
                 :: replicate 7 (set_open blank_dhandle true) |}.

(** Glob matching in the words of the specification, for a separator
    [sep]: [*] matches any sequence of characters, the empty one included;
    [?] matches exactly one character that is not the separator; any other
    character of the pattern matches one character that is equal to it up
    to case.  The pattern comes first, the name second. *)
Inductive glob_match (sep : ascii) : cstr -> cstr -> Prop :=
| glob_nil : glob_match sep [] []
| glob_star (p s w : cstr) :
    glob_match sep p s -> glob_match sep ("*"%char :: p) (w ++ s)
| glob_question (p s : cstr) (c : ascii) :
    c <> sep -> glob_match sep p s -> glob_match sep ("?"%char :: p) (c :: s)
| glob_literal (x : ascii) (p s : cstr) (c : ascii) :
    x <> "*"%char -> x <> "?"%char -> tolower x = tolower c ->
    glob_match sep p s -> glob_match sep (x :: p) (c :: s).

(** One character [t] of the pattern, not a star, against one character [c]
    of the name. *)
Definition char_ok (sep t c : ascii) : Prop :=
  (t = "?"%char /\ c <> sep)
  \/ (t <> "?"%char /\ t <> "*"%char /\ tolower t = tolower c).

(** The cell [lookup[i][j]] tells whether the first [j] characters of the
    pattern match the first [i] characters of the name. *)
Definition cell_ok (sep : ascii) (src pattern : cstr) (lookup : table)
    (i j : nat) : Prop :=
  lookup i j = true <-> glob_match sep (take j pattern) (take i src).

(** The cells of the rows before [i] and the cells of row [i] up to column
    [k] are filled. *)
Definition filled (i k i' j' : nat) : Prop :=
  (i' < i)%nat \/ (i' = i /\ (j' <= k)%nat).

(** The table while row [i] is being filled, column [k] done: the filled
    cells within the pattern are right and the other cells are as
    [memset] left them. *)
Definition table_inv (sep : ascii) (src pattern : cstr) (i k : nat)
    (lookup : table) : Prop :=
  (forall i' j', filled i k i' j' -> (j' <= length pattern)%nat ->
                 cell_ok sep src pattern lookup i' j')
  /\ (forall i' j', ~ filled i k i' j' -> lookup i' j' = false).

(** The ascending order of the key that [sortopt] selects: the size, else
    the modification time, else the name, compared with its case (CASE) or
    without it. *)
Definition key_le (sortopts : Z) (a b : directory_entry) : Prop :=
  if has_flag sortopts TNFS_DIRSORT_SIZE then e_size a <= e_size b
  else if has_flag sortopts TNFS_DIRSORT_MODIFIED then e_mtime a <= e_mtime b
  else if has_flag sortopts TNFS_DIRSORT_CASE
  then strcmp (e_entrypath a) (e_entrypath b) <= 0
  else strcasecmp (e_entrypath a) (e_entrypath b) <= 0.

(** The order in which [a] may come before [b]: DESCENDING reverses. *)
Definition sort_order (sortopts : Z) (a b : directory_entry) : Prop :=
  if has_flag sortopts TNFS_DIRSORT_DESCENDING
  then key_le sortopts b a else key_le sortopts a b.

(** The numeric key of the entry, when one is selected, is below 2^31, so
    that the difference of two keys is an [int]. *)
Definition key_fits (sortopts : Z) (e : directory_entry) : Prop :=
  if has_flag sortopts TNFS_DIRSORT_SIZE then 0 <= e_size e < 2 ^ 31
  else if has_flag sortopts TNFS_DIRSORT_MODIFIED then 0 <= e_mtime e < 2 ^ 31
  else True.

(** The load loop keeps the entry: it can be stat'ed and none of the four
    [continue] statements is taken. *)
Definition accepted (diropts : Z) (pattern : option cstr) (entry : dirent) : bool :=
  match d_info entry with
  | Some finf => negb (entry_skipped diropts pattern (d_name entry) finf)
  | None => false
  end.

(** The load loop pushes the node of the entry on [list_dirs]. *)
Definition in_dirs_group (diropts : Z) (entry : dirent) : bool :=
  match d_info entry with
  | Some finf => to_list_dirs diropts finf
  | None => false
  end.

(** The node the load loop makes for the entry. *)
Definition node_of (entry : dirent) : directory_entry :=
  make_node (d_name entry)
    (match d_info entry with
     | Some finf => finf
     | None => {| fi_flags := 0; fi_size := 0; fi_m_time := 0; fi_c_time := 0 |}
     end).

(** The entries of [stream] the load loop keeps, in the order of the
    stream, as far as a limit of [maxresults] still allows once [count]
    entries have been taken; no limit when [maxresults] is zero. *)
Definition retained (diropts maxresults : Z) (pattern : option cstr)
    (stream : list dirent) (count : Z) : list dirent :=
  let passing := List.filter (accepted diropts pattern) stream in
  if maxresults =? 0 then passing
  else take (Z.to_nat (maxresults - count)) passing.

(** The entries the load loop keeps of a whole stream. *)
Definition listed (diropts maxresults : Z) (pattern : option cstr)
    (stream : list dirent) : list dirent :=
  retained diropts maxresults pattern stream 0.

(** The nodes the load loop pushes on [list_dirs] and on [list_files], in
    the order of the stream. *)
Definition dirs_group (diropts maxresults : Z) (pattern : option cstr)
    (stream : list dirent) : directory_entry_list :=
  map node_of
    (List.filter (in_dirs_group diropts) (listed diropts maxresults pattern stream)).

Definition files_group (diropts maxresults : Z) (pattern : option cstr)
    (stream : list dirent) : directory_entry_list :=
  map node_of
    (List.filter (fun entry => negb (in_dirs_group diropts entry))
       (listed diropts maxresults pattern stream)).

(** The sorted listing in terms of the groups the load loop forms: the
    group of directories, then the group of files, each holding exactly
    its nodes, sorted in the order [sortopt] selects. *)
Definition listing_law (diropts sortopts maxresults : Z) (pattern : option cstr)
    (stream : list dirent) (entry_list : directory_entry_list) : Prop :=
  exists ds fs,
    entry_list = ds ++ fs
    /\ Permutation ds (dirs_group diropts maxresults pattern stream)
    /\ Permutation fs (files_group diropts maxresults pattern stream)
    /\ StronglySorted (sort_order sortopts) ds
    /\ StronglySorted (sort_order sortopts) fs.

(** Sample entries; their streams are only read forwards and the
    locations are left 0. *)
Definition plain_file (name : string) (size mtime : Z) : dirent :=
  {| d_name := cs name;
     d_info := Some {| fi_flags := 0; fi_size := size;
                       fi_m_time := mtime; fi_c_time := mtime |};
     d_off := 0 |}.

Definition subdirectory (name : string) : dirent :=
  {| d_name := cs name;
     d_info := Some {| fi_flags := FILEINFOFLAG_DIRECTORY; fi_size := 0;
                       fi_m_time := 0; fi_c_time := 0 |};
     d_off := 0 |}.

(** A directory with the files [a] and [b]. *)
Definition two_files : list dirent :=
  [plain_file "a" 1 1; plain_file "b" 2 2].

Definition two_files_host (path : cstr) : Z + list dirent := inr two_files.

(** The entry list of slot 0 after OPENDIRX with [sortopt] NONE on it. *)
Definition unsorted_listing : directory_entry_list :=
  match tnfs_opendirx 1000 realpath_lexical (cs "/srv/tnfs") (cs "/srv/tnfs")
          two_files_host no_traverse blank_session opendirx_unsorted with
  | Done s1 _ =>
      match dhandle_at s1 0 with
      | Some dh => dh_entry_list dh
      | None => []
      end
  | Fault => []
  end.

(** The directory of the sorting scenario of the specification. *)
Definition scenario_stream : list dirent :=
  [plain_file "B" 1 1; plain_file "a" 2 2; plain_file "C" 3 3;
   subdirectory "sub"].

(** The payload of an OPENDIRX request. *)
Definition opendirx_request (diropts sortopts maxresults : Z)
    (pattern dirpath : cstr) : list Z :=
  [diropts; sortopts] ++ uint16tnfs maxresults
  ++ map code pattern ++ [0] ++ map code dirpath ++ [0].

(** The path stored in slot [i] once the handler has run. *)
Definition stored_path (o : outcome) (i : Z) : option cstr :=
  match o with
  | Done s _ =>
      match dhandle_at s i with
      | Some dh => Some (dh_path dh)
      | None => None
      end
  | Fault => None
  end.

(** ** Further code of [directory.c] *)

Definition MAX_ROOT : Z := 128.

(** What [tnfs_setroot] leaves: the return value -1, or the two globals
    [root] and [realroot]; [realpath] writes its result into [realroot]
    without a bound, which overruns the array of [MAX_ROOT] bytes when the
    canonical path does not fit. *)
Inductive setroot_result :=
| setroot_error
| setroot_ok (root realroot : cstr)
| setroot_overrun.

Definition tnfs_setroot (realpath : cstr -> cstr) (rootdir : cstr)
  : setroot_result :=
  if strlen rootdir >? MAX_ROOT then setroot_error
  else if strlen (realpath rootdir) >=? MAX_ROOT then setroot_overrun
  else setroot_ok (strlcpy rootdir MAX_ROOT) (realpath rootdir).

(** ** Statements about the further code *)

(** No two slashes follow each other. *)
Fixpoint no_double_slash (p : cstr) : bool :=
  match p with
  | a :: (b :: _) as rest =>
      negb (Ascii.eqb a "/" && Ascii.eqb b "/") && no_double_slash rest
  | _ => true
  end.

(** The first character, if there is one, is not a slash. *)
Definition no_leading_slash (p : cstr) : bool :=
  match p with
  | c :: _ => negb (Ascii.eqb c "/")
  | [] => true
  end.

(** The characters of a path that are not slashes, in order. *)
Definition non_slashes (p : cstr) : cstr :=
  List.filter (fun c => negb (Ascii.eqb c "/")) p.

(** What the load loop keeps of a node: the name fits the [entrypath]
    array, and the flags are zero unless the node is a directory. *)
Definition node_ok (e : directory_entry) : Prop :=
  strlen (e_entrypath e) < MAX_FILENAME_LEN
  /\ (e_flags e = 0 \/ has_flag (e_flags e) FILEINFOFLAG_DIRECTORY = true).

(** The invariant of the load loop: the counter is the number of nodes of
    the two lists, in 16 bits, and every node is as above. *)
Definition load_inv (st : load_state) : Prop :=
  entrycount st
  = to_uint16 (Z.of_nat (length (list_dirs st) + length (list_files st)))
  /\ Forall node_ok (list_dirs st) /\ Forall node_ok (list_files st).

(** The cursor of a handle points into its entry list, or past its end. *)
Definition cursor_in_list (dh : dir_handle) : Prop :=
  exists k : nat, dh_current_entry dh = drop k (dh_entry_list dh).

(** What holds of every slot of a session between two requests: the cursor
    is in the list, the names fit, a slot that is not loaded has no list,
    and [entry_count] is the length of the list in 16 bits. *)
Definition dhandle_ok (dh : dir_handle) : Prop :=
  cursor_in_list dh
  /\ names_fit (dh_entry_list dh)
  /\ (dh_loaded dh = false -> dh_entry_list dh = [])
  /\ dh_entry_count dh = to_uint16 (Z.of_nat (length (dh_entry_list dh))).

Definition session_ok (s : Session) : Prop := Forall dhandle_ok (dhandles s).

(** The handlers of the commands that name a handle, and all the handlers
    of the directory commands modelled here. *)
Definition cursor_handlers : list (Session -> list Z -> outcome) :=
  [tnfs_closedir; tnfs_seekdir; tnfs_telldir; tnfs_readdirx].

Definition directory_handlers (now : Z) (realpath : cstr -> cstr)
    (root realroot : cstr) (host_opendir : cstr -> Z + list dirent)
    (_traverse_directory :
       dir_handle -> Z -> Z -> Z -> option cstr -> Z * dir_handle)
  : list (Session -> list Z -> outcome) :=
  cursor_handlers
  ++ [tnfs_opendir now realpath root realroot host_opendir;
      tnfs_opendirx now realpath root realroot host_opendir _traverse_directory].

(** A slot that is closed, loaded and older than the timeout. *)
Definition stale (now : Z) (dh : dir_handle) : bool :=
  negb (dh_open dh) && dh_loaded dh
  && (now >? dh_open_at dh + DIR_HANDLE_TIMEOUT).

(** The fields of a slot that only OPENDIR and OPENDIRX write. *)
Definition same_listing (dh dh1 : dir_handle) : Prop :=
  dh_path dh1 = dh_path dh /\ dh_pattern dh1 = dh_pattern dh
  /\ dh_diropt dh1 = dh_diropt dh /\ dh_sortopt dh1 = dh_sortopt dh
  /\ dh_open_at dh1 = dh_open_at dh
  /\ dh_entry_list dh1 = dh_entry_list dh
  /\ dh_entry_count dh1 = dh_entry_count dh
  /\ dh_loaded dh1 = dh_loaded dh.

(** A client that reads a directory to its end: READDIRX for [req_count]
    entries on the handle, again and again until the status of the first
    reply is EOF or the reply carries the EOF bit, at most [fuel] times.
    The result is what the client has received, [None] when a request
    fails or the fuel runs out. *)
Fixpoint readdirx_all (fuel : nat) (s : Session) (h req_count : Z)
  : option (list directory_entry) :=
  match fuel with
  | O => None
  | S fuel' =>
      match tnfs_readdirx s [h; req_count] with
      | Done s1 (r :: _) =>
          match r_status r, r_payload r with
          | TNFS_EOF, _ => Some []
          | TNFS_SUCCESS, readdirx_data rx =>
              if has_flag (rx_dir_status rx) TNFS_DIRSTATUS_EOF
              then Some (rx_entries rx)
              else option_map (app (rx_entries rx))
                     (readdirx_all fuel' s1 h req_count)
          | _, _ => None
          end
      | _ => None
      end
  end.

(** Glob matching as the table of [_pattern_match] computes it for any
    name: [*] matches any sequence of characters, [?] any one character,
    and any other character of the pattern one character equal to it up
    to case.  The pattern comes first, the name second. *)
Inductive glob_any : cstr -> cstr -> Prop :=
| glob_any_nil : glob_any [] []
| glob_any_star (p s w : cstr) :
    glob_any p s -> glob_any ("*"%char :: p) (w ++ s)
| glob_any_question (p s : cstr) (c : ascii) :
    glob_any p s -> glob_any ("?"%char :: p) (c :: s)
| glob_any_literal (x : ascii) (p s : cstr) (c : ascii) :
    x <> "*"%char -> x <> "?"%char -> tolower x = tolower c ->
    glob_any p s -> glob_any (x :: p) (c :: s).

(** The pattern has no wildcard. *)
Definition literal_pattern (pattern : cstr) : Prop :=
  Forall (fun c => c <> "*"%char /\ c <> "?"%char) pattern.

(** ** The listing in the words of the specification *)

(** The entries of a stream that satisfy [P], in the order of the
    stream. *)
Inductive selection {A : Type} (P : A -> Prop) : list A -> list A -> Prop :=
| selection_nil : selection P [] []
| selection_keep (x : A) (l sel : list A) :
    P x -> selection P l sel -> selection P (x :: l) (x :: sel)
| selection_skip (x : A) (l sel : list A) :
    ~ P x -> selection P l sel -> selection P (x :: l) sel.

(** Step 3 of the load procedure: skip hidden (unless NO_SKIPHIDDEN),
    special (unless NO_SKIPSPECIAL), directories (if NO_FOLDERS). *)
Definition spec_skips (diropts : Z) (finf : fileinfo_t) : Prop :=
  (has_flag (fi_flags finf) FILEINFOFLAG_HIDDEN = true
   /\ has_flag diropts TNFS_DIROPT_NO_SKIPHIDDEN = false)
  \/ (has_flag (fi_flags finf) FILEINFOFLAG_SPECIAL = true
      /\ has_flag diropts TNFS_DIROPT_NO_SKIPSPECIAL = false)
  \/ (has_flag (fi_flags finf) FILEINFOFLAG_DIRECTORY = true
      /\ has_flag diropts TNFS_DIROPT_NO_FOLDERS = true).

(** Step 4: the pattern is applied to every entry that is not a directory,
    and to a directory only when DIR_PATTERN is set. *)
Definition spec_pattern_applies (diropts : Z) (finf : fileinfo_t) : Prop :=
  has_flag (fi_flags finf) FILEINFOFLAG_DIRECTORY = false
  \/ has_flag diropts TNFS_DIROPT_DIR_PATTERN = true.

(** Steps 2 to 4: the entry can be stat'ed, is not skipped, and, when the
    pattern is not empty and is applied to the entry, its name matches the
    pattern as a glob. *)
Definition spec_accepts (sep : ascii) (diropts : Z) (pattern : cstr)
    (entry : dirent) : Prop :=
  exists finf,
    d_info entry = Some finf
    /\ ~ spec_skips diropts finf
    /\ (pattern <> [] -> spec_pattern_applies diropts finf ->
        glob_match sep pattern (d_name entry)).

(** Step 6: stop when [maxresults] is reached, if it is not zero. *)
Definition spec_truncate {A : Type} (maxresults : Z) (sel : list A) : list A :=
  if maxresults =? 0 then sel else take (Z.to_nat maxresults) sel.

(** Step 5: an accepted entry goes to the group of directories if it is a
    directory and NO_FOLDERSFIRST is not set, else to the group of
    files. *)
Definition spec_in_dirs (diropts : Z) (entry : dirent) : bool :=
  match d_info entry with
  | Some finf =>
      has_flag (fi_flags finf) FILEINFOFLAG_DIRECTORY
      && negb (has_flag diropts TNFS_DIROPT_NO_FOLDERSFIRST)
  | None => false
  end.

(** The two groups of a directory whose stream is [stream]: the entries
    that are accepted, truncated, each in its group in stream order. *)
Definition spec_groups (sep : ascii) (diropts maxresults : Z) (pattern : cstr)
    (stream dirs files : list dirent) : Prop :=
  exists sel,
    selection (spec_accepts sep diropts pattern) stream sel
    /\ dirs = List.filter (spec_in_dirs diropts) (spec_truncate maxresults sel)
    /\ files = List.filter (fun entry => negb (spec_in_dirs diropts entry))
                 (spec_truncate maxresults sel).

(** What identifies an entry of the stream in the list: its name, whether
    it is a directory, and its size and times as stat gave them.  The
    other flag bits are left out: a node carries them for a directory
    only. *)
Definition spec_view (entry : dirent) : cstr * bool * Z * Z * Z :=
  match d_info entry with
  | Some finf =>
      (d_name entry, has_flag (fi_flags finf) FILEINFOFLAG_DIRECTORY,
       fi_size finf, fi_m_time finf, fi_c_time finf)
  | None => (d_name entry, false, 0, 0, 0)
  end.

Definition entry_view (e : directory_entry) : cstr * bool * Z * Z * Z :=
  (e_entrypath e, has_flag (e_flags e) FILEINFOFLAG_DIRECTORY,
   e_size e, e_mtime e, e_ctime e).

(** The listing the specification asks for: the group of directories,
    then the group of files, each holding exactly its entries, sorted in
    the order [sortopts] selects. *)
Definition spec_listing (sep : ascii) (diropts sortopts maxresults : Z)
    (pattern : cstr) (stream : list dirent) (entry_list : directory_entry_list)
  : Prop :=
  exists dirs files ds fs,
    spec_groups sep diropts maxresults pattern stream dirs files
    /\ entry_list = ds ++ fs
    /\ Permutation (map entry_view ds) (map spec_view dirs)
    /\ Permutation (map entry_view fs) (map spec_view files)
    /\ StronglySorted (sort_order sortopts) ds
    /\ StronglySorted (sort_order sortopts) fs.

(** The listing without sorting: each group in the reverse of the order
    of the stream. *)
Definition spec_listing_unsorted (sep : ascii) (diropts maxresults : Z)
    (pattern : cstr) (stream : list dirent) (entry_list : directory_entry_list)
  : Prop :=
  exists dirs files ds fs,
    spec_groups sep diropts maxresults pattern stream dirs files
    /\ entry_list = ds ++ fs
    /\ map entry_view ds = rev (map spec_view dirs)
    /\ map entry_view fs = rev (map spec_view files).

(** What is taken of the host: the names [readdir] returns hold no
    separator and fit the [entrypath] array. *)
Definition stream_names_ok (sep : ascii) (stream : list dirent) : Prop :=
  Forall (fun entry => ~ In sep (d_name entry)
                       /\ strlen (d_name entry) < MAX_FILENAME_LEN) stream.

(** The numeric key stat gave for the entry, when [sortopts] selects one,
    is below 2^31. *)
Definition stat_key_fits (sortopts : Z) (entry : dirent) : Prop :=
  match d_info entry with
  | Some finf =>
      if has_flag sortopts TNFS_DIRSORT_SIZE then 0 <= fi_size finf < 2 ^ 31
      else if has_flag sortopts TNFS_DIRSORT_MODIFIED
      then 0 <= fi_m_time finf < 2 ^ 31
      else True
  | None => True
  end.

(** * Properties *)

(** ** Fixed-width arithmetic and the wire codec *)

Lemma to_uint32_small (v : Z) : 0 <= v < 2 ^ 32 -> to_uint32 v = v.
Proof. intros H. unfold to_uint32. apply Z.mod_small. exact H. Qed.

Lemma to_uint16_small (v : Z) : 0 <= v < 2 ^ 16 -> to_uint16 v = v.
Proof. intros H. unfold to_uint16. apply Z.mod_small. exact H. Qed.

Lemma to_uint8_small (v : Z) : 0 <= v < 2 ^ 8 -> to_uint8 v = v.
Proof. intros H. unfold to_uint8. apply Z.mod_small. exact H. Qed.

Lemma to_uint32_to_int32 (v : Z) : to_uint32 (to_int32 v) = to_uint32 v.
Proof.
  unfold to_uint32, to_int32.
  rewrite Zminus_mod, Zmod_mod, <- Zminus_mod.
  f_equal. lia.
Qed.

Lemma to_int32_small (v : Z) : - 2 ^ 31 <= v < 2 ^ 31 -> to_int32 v = v.
Proof. intros H. unfold to_int32. rewrite Z.mod_small; lia. Qed.

Lemma byte_of_shift (v k : Z) :
  0 <= k -> Z.land (Z.shiftr v k) 255 = (v / 2 ^ k) mod 2 ^ 8.
Proof.
  intros Hk. change 255 with (Z.ones 8).
  rewrite Z.land_ones by lia. now rewrite Z.shiftr_div_pow2 by lia.
Qed.

Lemma lor_shifted_byte (lo hi k : Z) :
  0 <= k -> 0 <= lo < 2 ^ k -> 0 <= hi ->
  Z.lor lo (Z.shiftl hi k) = lo + hi * 2 ^ k.
Proof.
  intros Hk Hlo Hhi.
  rewrite <- Z.lxor_lor, <- Z.add_nocarry_lxor, Z.shiftl_mul_pow2; try lia.
  all: apply Z.bits_inj'; intros i Hi; rewrite Z.land_spec, Z.bits_0.
  all: destruct (Z.ltb_spec i k) as [Hlt | Hge].
  all: try (rewrite Z.shiftl_spec_low by lia; apply andb_false_r).
  all: replace (Z.testbit lo i) with false; [reflexivity|].
  all: symmetry; destruct (Z.eq_dec lo 0) as [-> | Hne];
       [ apply Z.bits_0
       | apply Z.bits_above_log2; [lia|];
         apply Z.lt_le_trans with k; [apply Z.log2_lt_pow2; lia | lia] ].
Qed.

Lemma tnfs32uint_uint32tnfs (v : Z) :
  0 <= v -> tnfs32uint (uint32tnfs v) = to_uint32 v.
Proof.
  intros Hv. unfold tnfs32uint, uint32tnfs, to_uint32.
  rewrite !byte_of_shift by lia.
  replace (Z.land v 255) with ((v / 2 ^ 0) mod 2 ^ 8)
    by (rewrite <- (byte_of_shift v 0) by lia; now rewrite Z.shiftr_0_r).
  pose proof (Z.mod_pos_bound (v / 2 ^ 0) (2 ^ 8) ltac:(lia)).
  pose proof (Z.mod_pos_bound (v / 2 ^ 8) (2 ^ 8) ltac:(lia)).
  pose proof (Z.mod_pos_bound (v / 2 ^ 16) (2 ^ 8) ltac:(lia)).
  pose proof (Z.mod_pos_bound (v / 2 ^ 24) (2 ^ 8) ltac:(lia)).
  rewrite (lor_shifted_byte _ _ 8) by lia.
  rewrite (lor_shifted_byte _ _ 16) by lia.
  rewrite (lor_shifted_byte _ _ 24) by lia.
  change (2 ^ 0) with 1 in *. rewrite Z.div_1_r in *.
  change (2 ^ 8) with 256 in *. change (2 ^ 16) with 65536 in *.
  change (2 ^ 24) with 16777216 in *. change (2 ^ 32) with 4294967296.
  Z.div_mod_to_equations. lia.
Qed.

Lemma tnfs16uint_uint16tnfs (v : Z) :
  0 <= v -> tnfs16uint (uint16tnfs v) = to_uint16 v.
Proof.
  intros Hv. unfold tnfs16uint, uint16tnfs, to_uint16.
  rewrite !byte_of_shift by lia.
  replace (Z.land v 255) with ((v / 2 ^ 0) mod 2 ^ 8)
    by (rewrite <- (byte_of_shift v 0) by lia; now rewrite Z.shiftr_0_r).
  pose proof (Z.mod_pos_bound (v / 2 ^ 0) (2 ^ 8) ltac:(lia)).
  pose proof (Z.mod_pos_bound (v / 2 ^ 8) (2 ^ 8) ltac:(lia)).
  rewrite !lor_shifted_byte by lia.
  change (2 ^ 0) with 1 in *. rewrite Z.div_1_r in *.
  change (2 ^ 8) with 256 in *. change (2 ^ 16) with 65536 in *.
  Z.div_mod_to_equations. lia.
Qed.

(** ** Linked-list primitives *)

Lemma get_node_loop_drop (l : directory_entry_list) :
  forall i index, 0 <= i <= index -> index < 2 ^ 32 ->
    get_node_loop l i index = drop (Z.to_nat (index - i)) l.
Proof.
  induction l as [|a l IH]; intros i index Hi Hidx; simpl.
  - now rewrite drop_nil.
  - destruct (Z.ltb_spec i index) as [Hlt | Hge].
    + rewrite to_uint32_small by lia.
      rewrite IH by lia.
      replace (Z.to_nat (index - i)) with (S (Z.to_nat (index - (i + 1)))) by lia.
      reflexivity.
    + replace (index - i) with 0 by lia. reflexivity.
Qed.

Lemma dirlist_get_node_at_index_drop (l : directory_entry_list) (index : Z) :
  0 <= index < 2 ^ 32 ->
  dirlist_get_node_at_index l index = drop (Z.to_nat index) l.
Proof.
  intros H. unfold dirlist_get_node_at_index.
  rewrite get_node_loop_drop by lia. now rewrite Z.sub_0_r.
Qed.

Lemma cstr_eqb_eq (a b : cstr) : cstr_eqb a b = true <-> a = b.
Proof.
  revert b. induction a as [|x a IH]; intros [|y b]; simpl;
    try (split; [discriminate | congruence]); [tauto|].
  destruct (Ascii.eqb_spec x y) as [-> | Hne].
  - rewrite IH. split; congruence.
  - split; [discriminate | congruence].
Qed.

Lemma entry_eqb_eq (a b : directory_entry) : entry_eqb a b = true <-> a = b.
Proof.
  unfold entry_eqb. rewrite !andb_true_iff, !Z.eqb_eq, cstr_eqb_eq.
  destruct a, b; simpl. split.
  - intros ((((-> & ->) & ->) & ->) & ->). reflexivity.
  - intros E. injection E as -> -> -> -> ->. auto.
Qed.

Lemma same_node_eq (p q : directory_entry_list) : same_node p q = true <-> p = q.
Proof.
  revert q. induction p as [|a p IH]; intros [|b q]; simpl;
    try (split; [discriminate | congruence]); [tauto|].
  destruct (entry_eqb a b) eqn:E.
  - apply entry_eqb_eq in E as ->. rewrite IH. split; congruence.
  - split; [discriminate|]. intros H. injection H as -> ->.
    assert (entry_eqb b b = true) by now apply entry_eqb_eq. congruence.
Qed.

Lemma same_node_refl (p : directory_entry_list) : same_node p p = true.
Proof. now apply same_node_eq. Qed.

Lemma same_node_neq (p q : directory_entry_list) : p <> q -> same_node p q = false.
Proof.
  intros H. destruct (same_node p q) eqn:E; [|reflexivity].
  apply same_node_eq in E. contradiction.
Qed.

(** A chain is never equal to one of its proper suffixes. *)
Lemma chain_neq_proper_suffix (a : directory_entry) (pre suf : directory_entry_list) :
  a :: pre ++ suf <> suf.
Proof.
  intros E. apply (f_equal length) in E.
  rewrite length_cons, length_app in E. lia.
Qed.

Lemma to_uint32_succ (v : Z) : to_uint32 (to_uint32 v + 1) = to_uint32 (v + 1).
Proof. unfold to_uint32. now rewrite Zplus_mod_idemp_l. Qed.

(** The index loop counts the nodes before [suf], in 32 bits. *)
Lemma get_index_loop_suffix_mod (pre suf : directory_entry_list) :
  forall i, suf <> [] -> 0 <= i < 2 ^ 32 ->
    get_index_loop (pre ++ suf) suf i = to_uint32 (i + Z.of_nat (length pre)).
Proof.
  induction pre as [|a pre IH]; intros i Hsuf Hi;
    cbn [get_index_loop app length] in *.
  - destruct suf as [|b suf]; [congruence|]. cbn [get_index_loop].
    rewrite same_node_refl, Z.add_0_r. now rewrite to_uint32_small.
  - rewrite same_node_neq by apply chain_neq_proper_suffix.
    rewrite IH; [|assumption|apply Z.mod_pos_bound; lia].
    unfold to_uint32. rewrite Zplus_mod_idemp_l. f_equal. lia.
Qed.

Lemma get_index_loop_null_mod (l : directory_entry_list) :
  forall i, 0 <= i < 2 ^ 32 ->
    get_index_loop l [] i = to_uint32 (i + Z.of_nat (length l)).
Proof.
  induction l as [|a l IH]; intros i Hi;
    cbn [get_index_loop length] in *.
  - rewrite Z.add_0_r. now rewrite to_uint32_small.
  - rewrite same_node_neq by discriminate.
    rewrite IH by (apply Z.mod_pos_bound; lia).
    unfold to_uint32. rewrite Zplus_mod_idemp_l. f_equal. lia.
Qed.

(** The index of the node at position [k], as the loop computes it. *)
Lemma dirlist_get_index_for_node_drop_mod (l : directory_entry_list) (k : nat) :
  (k < length l)%nat ->
  dirlist_get_index_for_node l (drop k l) = to_uint32 (Z.of_nat k).
Proof.
  intros Hk. unfold dirlist_get_index_for_node.
  rewrite <- (take_drop k l) at 1.
  rewrite get_index_loop_suffix_mod.
  - rewrite length_take. f_equal. lia.
  - intros E. apply (f_equal length) in E. rewrite length_drop in E.
    simpl in E. lia.
  - lia.
Qed.

(** The index of the node at position [k] is [k]. *)
Lemma dirlist_get_index_for_node_drop (l : directory_entry_list) (k : nat) :
  (k < length l)%nat -> Z.of_nat k < 2 ^ 32 ->
  dirlist_get_index_for_node l (drop k l) = Z.of_nat k.
Proof.
  intros Hk Hlt. rewrite dirlist_get_index_for_node_drop_mod by assumption.
  apply to_uint32_small. lia.
Qed.

(** The index of the null node is the length of the list. *)
Lemma dirlist_get_index_for_node_null (l : directory_entry_list) :
  Z.of_nat (length l) < 2 ^ 32 ->
  dirlist_get_index_for_node l [] = Z.of_nat (length l).
Proof.
  intros H. unfold dirlist_get_index_for_node.
  rewrite get_index_loop_null_mod by lia. apply to_uint32_small. lia.
Qed.

(** ** Access to the slots *)

Lemma dhandle_at_set_eq (s : Session) (h : Z) (dh dh' : dir_handle) :
  dhandle_at s h = Some dh -> dhandle_at (set_dhandle s h dh') h = Some dh'.
Proof.
  unfold dhandle_at, set_dhandle. simpl. intros H.
  apply list_lookup_insert_eq. eapply lookup_lt_Some. exact H.
Qed.

Lemma dhandle_at_set_ne (s : Session) (h h' : Z) (dh' : dir_handle) :
  0 <= h -> 0 <= h' -> h' <> h ->
  dhandle_at (set_dhandle s h dh') h' = dhandle_at s h'.
Proof.
  unfold dhandle_at, set_dhandle. simpl. intros H0 H1 Hne.
  apply list_lookup_insert_ne. lia.
Qed.

Lemma set_dhandle_twice (s : Session) (h : Z) (dh1 dh2 : dir_handle) :
  set_dhandle (set_dhandle s h dh1) h dh2 = set_dhandle s h dh2.
Proof.
  unfold set_dhandle. simpl. now rewrite list_insert_insert_eq.
Qed.

Lemma dhandle_at_limit (s : Session) :
  session_wf s -> dhandle_at s MAX_DHND_PER_CONN = None.
Proof.
  unfold session_wf, dhandle_at. intros H.
  apply lookup_ge_None. lia.
Qed.

Lemma handle_in_range (h : Z) :
  0 <= h < MAX_DHND_PER_CONN -> (h >? MAX_DHND_PER_CONN) = false.
Proof. unfold MAX_DHND_PER_CONN. lia. Qed.

(** ** The bound on the handle byte *)

(** A handle byte above [MAX_DHND_PER_CONN] is answered with EBADF and the
    session is left as it was. *)
Lemma handle_above_limit_rejected (s : Session) (h req b0 b1 b2 b3 : Z) :
  MAX_DHND_PER_CONN < h ->
  tnfs_readdirx s [h; req] = ebadf s
  /\ tnfs_closedir s [h] = ebadf s
  /\ tnfs_seekdir s [h; b0; b1; b2; b3] = ebadf s
  /\ tnfs_telldir s [h] = ebadf s.
Proof.
  intros Hh.
  assert (Hgt : (h >? MAX_DHND_PER_CONN) = true) by lia.
  unfold tnfs_readdirx, tnfs_closedir, tnfs_seekdir, tnfs_telldir.
  rewrite Hgt. repeat split; reflexivity.
Qed.

(** C2: a handle byte equal to MAX_DHND_PER_CONN passes the bound test of
    READDIRX, CLOSEDIR, SEEKDIR and TELLDIR, which compare with [>], and
    the handler then indexes [dhandles] one slot past its end instead of
    replying EBADF. *)
Theorem handle_at_limit_indexes_past_end (s : Session) (req b0 b1 b2 b3 : Z) :
  session_wf s ->
  tnfs_readdirx s [MAX_DHND_PER_CONN; req] = Fault
  /\ tnfs_closedir s [MAX_DHND_PER_CONN] = Fault
  /\ tnfs_seekdir s [MAX_DHND_PER_CONN; b0; b1; b2; b3] = Fault
  /\ tnfs_telldir s [MAX_DHND_PER_CONN] = Fault.
Proof.
  intros Hwf.
  unfold tnfs_readdirx, tnfs_closedir, tnfs_seekdir, tnfs_telldir.
  rewrite (dhandle_at_limit s Hwf).
  replace (MAX_DHND_PER_CONN >? MAX_DHND_PER_CONN) with false by reflexivity.
  repeat split; reflexivity.
Qed.

Lemma handle_at_limit_indexes_past_end_witness :
  session_wf blank_session
  /\ tnfs_readdirx blank_session [8; 0] = Fault
  /\ tnfs_closedir blank_session [8] = Fault
  /\ tnfs_seekdir blank_session [8; 0; 0; 0; 0] = Fault
  /\ tnfs_telldir blank_session [8] = Fault.
Proof.
  split; [reflexivity|].
  apply (handle_at_limit_indexes_past_end blank_session 0 0 0 0 0).
  reflexivity.
Defined.

(** ** READDIRX at the end of the list *)

(** C3: with the cursor already at the end, READDIRX sends the EOF reply
    and, there being no return after it, goes on to send a success reply
    whose four header bytes are a count of zero, the EOF bit and two bytes
    that were never written. *)
Theorem readdirx_at_end_sends_two_replies (s : Session) (h req : Z)
    (dh : dir_handle) :
  0 <= h < MAX_DHND_PER_CONN ->
  dhandle_at s h = Some dh ->
  dh_current_entry dh = [] ->
  tnfs_readdirx s [h; req]
  = Done (set_dhandle s h (set_current_entry dh []))
         [tnfs_send TNFS_EOF no_data;
          tnfs_send TNFS_SUCCESS
            (readdirx_data
               {| rx_count := 0; rx_dir_status := TNFS_DIRSTATUS_EOF;
                  rx_dirpos := None; rx_entries := [];
                  rx_total_size := READDIRX_HEADER_SIZE |})].
Proof.
  intros Hh Hat Hcur. unfold tnfs_readdirx.
  rewrite (handle_in_range h Hh), Hat, Hcur. reflexivity.
Qed.

Lemma readdirx_at_end_sends_two_replies_witness :
  length (replies_of (tnfs_readdirx session_empty_dir [0; 0])) = 2%nat.
Proof.
  assert (Hat : dhandle_at session_empty_dir 0
                = Some (set_loaded
                          (set_open
                             (load_entries
                                (_tnfs_init_dhandle 1000 blank_dhandle
                                   (cs "/srv/tnfs/x") 0 0 None) 0 0 0 None [])
                             true) true)) by reflexivity.
  rewrite (readdirx_at_end_sends_two_replies session_empty_dir 0 0 _
             ltac:(unfold MAX_DHND_PER_CONN; lia) Hat eq_refl).
  reflexivity.
Defined.

(** ** CLOSEDIR *)

Lemma strncmp_refl (n : nat) : forall a : cstr, strncmp a a n = 0.
Proof.
  induction n as [|n IH]; intros [|x a]; simpl; try reflexivity.
  rewrite Z.eqb_refl. destruct (code x =? 0); [reflexivity | apply IH].
Qed.

Lemma reuse_test_own_key (dh : dir_handle) :
  dh_loaded dh = true ->
  reuse_test dh (dh_path dh) (dh_diropt dh) (dh_sortopt dh)
    (request_pattern (dh_pattern dh)) = Some true.
Proof.
  intros Hl. unfold reuse_test.
  rewrite Hl, strncmp_refl, !Z.eqb_refl. cbn [andb].
  destruct (dh_pattern dh) as [|c p] eqn:Hp; cbn [request_pattern];
    [reflexivity|].
  now rewrite strncmp_refl.
Qed.

(** C9: CLOSEDIR on an open handle replies success and clears the open flag
    of that slot and nothing else: the entry list, the cursor, the count,
    the loaded flag, the path, the pattern and the option bytes of the slot
    are as before, as are the other slots; a loaded slot therefore passes
    the sweep until its timeout and satisfies the reuse test for its own
    (path, diropt, sortopt, pattern). *)
Theorem closedir_clears_open_only (s : Session) (h : Z) (dh : dir_handle) :
  0 <= h < MAX_DHND_PER_CONN ->
  dhandle_at s h = Some dh ->
  dh_open dh = true ->
  exists s1 dh1,
    tnfs_closedir s [h] = Done s1 [tnfs_send TNFS_SUCCESS no_data]
    /\ dhandle_at s1 h = Some dh1
    /\ dh_open dh1 = false
    /\ dh_entry_list dh1 = dh_entry_list dh
    /\ dh_current_entry dh1 = dh_current_entry dh
    /\ dh_entry_count dh1 = dh_entry_count dh
    /\ dh_loaded dh1 = dh_loaded dh
    /\ dh_path dh1 = dh_path dh
    /\ dh_pattern dh1 = dh_pattern dh
    /\ dh_diropt dh1 = dh_diropt dh
    /\ dh_sortopt dh1 = dh_sortopt dh
    /\ dh_open_at dh1 = dh_open_at dh
    /\ dh_handle dh1 = dh_handle dh
    /\ s_root s1 = s_root s
    /\ (forall h', 0 <= h' -> h' <> h -> dhandle_at s1 h' = dhandle_at s h')
    /\ (dh_loaded dh = true ->
        (forall now, now <= dh_open_at dh + DIR_HANDLE_TIMEOUT ->
                     sweep_handle now dh1 = dh1)
        /\ reuse_test dh1 (dh_path dh) (dh_diropt dh) (dh_sortopt dh)
             (request_pattern (dh_pattern dh)) = Some true).
Proof.
  intros Hh Hat Hopen.
  exists (set_dhandle s h (set_open dh false)), (set_open dh false).
  unfold tnfs_closedir.
  rewrite (handle_in_range h Hh), Hat, Hopen. simpl.
  split; [reflexivity|].
  split; [now apply dhandle_at_set_eq with dh|].
  do 12 (split; [reflexivity|]).
  split.
  - intros h' H0 Hne. apply dhandle_at_set_ne; lia.
  - intros Hl. split.
    + intros now Hnow. unfold sweep_handle. simpl.
      replace (now >? dh_open_at dh + DIR_HANDLE_TIMEOUT) with false by lia.
      now rewrite andb_false_r.
    + apply (reuse_test_own_key (set_open dh false)). exact Hl.
Qed.

(** ** SEEKDIR and TELLDIR *)

(** C7: on an open handle whose entry list holds [entry_count] entries
    (or more, should the 16-bit count have wrapped), SEEKDIR to a position
    [n < entry_count] succeeds and the TELLDIR that follows succeeds and
    returns [n]. *)
Theorem telldir_after_seekdir (s : Session) (h n : Z) (dh : dir_handle) :
  0 <= h < MAX_DHND_PER_CONN ->
  dhandle_at s h = Some dh ->
  dh_open dh = true ->
  dh_entry_count dh <= Z.of_nat (length (dh_entry_list dh)) ->
  0 <= n < dh_entry_count dh ->
  n < 2 ^ 32 ->
  exists s1 r,
    tnfs_seekdir s (h :: uint32tnfs n) = Done s1 [tnfs_send TNFS_SUCCESS no_data]
    /\ tnfs_telldir s1 [h] = Done s1 [r]
    /\ telldir_value r = Some n.
Proof.
  intros Hh Hat Hopen Hcount Hn Hn32.
  destruct (dh_entry_list dh) as [|a l'] eqn:Hl; [simpl in *; lia|].
  set (l := a :: l') in *.
  set (dh1 := set_current_entry dh (drop (Z.to_nat n) l)).
  exists (set_dhandle s h dh1).
  exists (tnfs_send TNFS_SUCCESS (data (uint32tnfs n))).
  assert (Hidx : dirlist_get_index_for_node l (drop (Z.to_nat n) l) = n).
  { rewrite dirlist_get_index_for_node_drop by lia. lia. }
  split; [|split].
  - unfold tnfs_seekdir, uint32tnfs.
    rewrite (handle_in_range h Hh), Hat, Hopen. cbn [negb tail].
    fold (uint32tnfs n). rewrite tnfs32uint_uint32tnfs by lia.
    rewrite to_uint32_small by lia.
    rewrite Hl. fold l.
    rewrite dirlist_get_node_at_index_drop by lia. reflexivity.
  - unfold tnfs_telldir.
    rewrite (handle_in_range h Hh), (dhandle_at_set_eq s h dh dh1 Hat).
    assert (Hfields : dh_open dh1 = true /\ dh_entry_list dh1 = l
                      /\ dh_current_entry dh1 = drop (Z.to_nat n) l).
    { unfold dh1. simpl. auto. }
    destruct Hfields as (-> & -> & ->). cbn [negb]. unfold l at 1.
    rewrite Hidx, to_uint32_to_int32, to_uint32_small by lia.
    reflexivity.
  - unfold telldir_value, tnfs_send. cbn [r_status r_payload].
    rewrite tnfs32uint_uint32tnfs by lia. now rewrite to_uint32_small by lia.
Qed.

Lemma telldir_after_seekdir_witness :
  exists s : Session,
    dhandle_at s 0 = Some (set_open (set_loaded
        {| dh_handle := None; dh_path := cs "/srv/tnfs/x"; dh_pattern := [];
           dh_diropt := 0; dh_sortopt := 0; dh_open_at := 1000;
           dh_entry_list :=
             [ {| e_flags := 0; e_size := 10; e_mtime := 1; e_ctime := 1;
                  e_entrypath := cs "a" |};
               {| e_flags := 0; e_size := 20; e_mtime := 2; e_ctime := 2;
                  e_entrypath := cs "b" |} ];
           dh_current_entry := [];
           dh_entry_count := 2; dh_open := false; dh_loaded := false |}
        true) true)
    /\ exists s1 r,
         tnfs_seekdir s (0 :: uint32tnfs 1)
         = Done s1 [tnfs_send TNFS_SUCCESS no_data]
         /\ tnfs_telldir s1 [0] = Done s1 [r]
         /\ telldir_value r = Some 1.
Proof.
  eexists (set_dhandle blank_session 0 _).
  split; [reflexivity|].
  eapply (telldir_after_seekdir _ 0 1).
  - unfold MAX_DHND_PER_CONN. lia.
  - reflexivity.
  - reflexivity.
  - simpl. lia.
  - simpl. lia.
  - lia.
Defined.

(** The handle OPENDIRX leaves for an empty directory is open and loaded,
    holds the native stream, and its entry list is the null pointer. *)
Lemma session_empty_dir_slot :
  exists dh,
    dhandle_at session_empty_dir 0 = Some dh
    /\ dh_open dh = true /\ dh_loaded dh = true
    /\ dh_entry_list dh = [] /\ dh_entry_count dh = 0
    /\ dh_handle dh = Some {| dir_loc := 0 |}.
Proof. eexists. repeat split; reflexivity. Qed.

(** Where the list is not empty the handlers do what is asked of a
    loaded handle: on an open handle whose entry list is not empty and
    holds [entry_count] entries, SEEKDIR to a position [n >= entry_count]
    succeeds and leaves the cursor at the null node, and the TELLDIR that
    follows succeeds and returns [entry_count]. *)
Lemma seek_past_end_returns_entry_count (s : Session) (h n : Z)
    (dh : dir_handle) :
  0 <= h < MAX_DHND_PER_CONN ->
  dhandle_at s h = Some dh ->
  dh_open dh = true ->
  dh_entry_list dh <> [] ->
  dh_entry_count dh = Z.of_nat (length (dh_entry_list dh)) ->
  dh_entry_count dh <= n < 2 ^ 32 ->
  seek_past_end_law s h n.
Proof.
  intros Hh Hat Hopen Hne Hcount Hn.
  destruct (dh_entry_list dh) as [|a l'] eqn:Hl; [congruence|].
  set (l := a :: l') in *.
  set (dh1 := set_current_entry dh []).
  exists (set_dhandle s h dh1), dh1.
  exists (tnfs_send TNFS_SUCCESS (data (uint32tnfs (dh_entry_count dh)))).
  assert (Hlen : 0 <= Z.of_nat (length l)) by lia.
  split; [|split; [|split; [|split]]].
  - unfold tnfs_seekdir, uint32tnfs.
    rewrite (handle_in_range h Hh), Hat, Hopen. cbn [negb tail].
    fold (uint32tnfs n). rewrite tnfs32uint_uint32tnfs by lia.
    rewrite to_uint32_small by lia.
    rewrite Hl. fold l.
    rewrite dirlist_get_node_at_index_drop by lia.
    rewrite drop_ge by lia. reflexivity.
  - now apply dhandle_at_set_eq with dh.
  - reflexivity.
  - unfold tnfs_telldir.
    rewrite (handle_in_range h Hh), (dhandle_at_set_eq s h dh dh1 Hat).
    assert (Hfields : dh_open dh1 = true /\ dh_entry_list dh1 = l
                      /\ dh_current_entry dh1 = []).
    { unfold dh1. simpl. auto. }
    destruct Hfields as (-> & -> & ->). cbn [negb]. unfold l at 1.
    rewrite dirlist_get_index_for_node_null by lia.
    rewrite to_uint32_to_int32, to_uint32_small by lia.
    rewrite Hcount. reflexivity.
  - unfold telldir_value, tnfs_send. cbn [r_status r_payload].
    rewrite tnfs32uint_uint32tnfs by lia.
    rewrite to_uint32_small by lia. reflexivity.
Qed.

(** C10: the loaded handle of a directory without listed entries is
    taken for a legacy one.  SEEKDIR and TELLDIR test [entry_list == NULL]
    to tell whether the directory was pre-loaded, and the list of a loaded
    handle is null when no entry was listed.  On such a handle, open and
    loaded, with the native stream [_load_directory] leaves open, TELLDIR
    returns the location of the native stream and not an index into the
    list; SEEKDIR to [n] moves the native stream, the TELLDIR that follows
    returns [n], and for [n > 0] that is not the [entry_count] of the
    handle, 0. *)
Theorem empty_loaded_handle_taken_for_legacy (s : Session) (h n : Z)
    (dh : dir_handle) (d : DIR) :
  0 <= h < MAX_DHND_PER_CONN ->
  dhandle_at s h = Some dh ->
  dh_open dh = true ->
  dh_loaded dh = true ->
  dh_entry_list dh = [] ->
  dh_entry_count dh = 0 ->
  dh_handle dh = Some d ->
  0 < n < 2 ^ 32 ->
  tnfs_telldir s [h]
  = Done s [tnfs_send TNFS_SUCCESS
              (data (uint32tnfs (to_uint32 (to_int32 (native_telldir d)))))]
  /\ (exists s1,
        s1 = set_dhandle s h (set_handle dh (Some (native_seekdir d n)))
        /\ tnfs_seekdir s (h :: uint32tnfs n)
           = Done s1 [tnfs_send TNFS_SUCCESS no_data]
        /\ tnfs_telldir s1 [h]
           = Done s1 [tnfs_send TNFS_SUCCESS (data (uint32tnfs n))])
  /\ ~ seek_past_end_law s h n.
Proof.
  intros Hh Hat Hopen Hloaded Hlist Hcount Hd Hn.
  assert (Hseek : tnfs_seekdir s (h :: uint32tnfs n)
                  = Done (set_dhandle s h
                            (set_handle dh (Some (native_seekdir d n))))
                      [tnfs_send TNFS_SUCCESS no_data]).
  { unfold tnfs_seekdir, uint32tnfs.
    rewrite (handle_in_range h Hh), Hat, Hopen, Hlist, Hd. cbn [negb tail].
    fold (uint32tnfs n). rewrite tnfs32uint_uint32tnfs by lia.
    now rewrite to_uint32_small by lia. }
  assert (Htell : tnfs_telldir
                    (set_dhandle s h (set_handle dh (Some (native_seekdir d n))))
                    [h]
                  = Done (set_dhandle s h
                            (set_handle dh (Some (native_seekdir d n))))
                      [tnfs_send TNFS_SUCCESS (data (uint32tnfs n))]).
  { unfold tnfs_telldir.
    rewrite (handle_in_range h Hh), (dhandle_at_set_eq s h dh _ Hat).
    cbn [set_handle dh_open dh_entry_list dh_handle].
    rewrite Hopen, Hlist. cbn [negb native_telldir native_seekdir dir_loc].
    now rewrite to_uint32_to_int32, to_uint32_small by lia. }
  split; [|split].
  - unfold tnfs_telldir.
    now rewrite (handle_in_range h Hh), Hat, Hopen, Hlist, Hd.
  - eexists. split; [reflexivity|]. split; assumption.
  - intros (s1 & dh1 & r & Hseek' & Hat1 & _ & Htell' & Hval).
    rewrite Hseek in Hseek'. injection Hseek' as <-.
    rewrite (dhandle_at_set_eq s h dh _ Hat) in Hat1. injection Hat1 as <-.
    rewrite Htell in Htell'. injection Htell' as <-.
    unfold telldir_value in Hval. cbn [tnfs_send r_status r_payload] in Hval.
    rewrite tnfs32uint_uint32tnfs, to_uint32_small in Hval by lia.
    cbn [set_handle dh_entry_count] in Hval. rewrite Hcount in Hval.
    injection Hval as Hval. lia.
Qed.

Lemma empty_loaded_handle_taken_for_legacy_witness :
  ~ seek_past_end_law session_empty_dir 0 5.
Proof.
  refine (proj2 (proj2
            (empty_loaded_handle_taken_for_legacy session_empty_dir 0 5
               _ {| dir_loc := 0 |} _ _ _ _ _ _ _ _))).
  - unfold MAX_DHND_PER_CONN. lia.
  - reflexivity.
  - reflexivity.
  - reflexivity.
  - reflexivity.
  - reflexivity.
  - reflexivity.
  - lia.
Defined.

(** The same defect without a SEEKDIR: after OPENDIRX of a directory
    whose only entry is hidden, on a host that gives the location
    2147483647 once the entry has been read, TELLDIR on the loaded handle
    returns that location and not the index 0. *)
Example telldir_after_load_of_skipped_entries :
  let hidden := {| d_name := cs ".profile";
                   d_info := Some {| fi_flags := FILEINFOFLAG_HIDDEN;
                                     fi_size := 1; fi_m_time := 1;
                                     fi_c_time := 1 |};
                   d_off := 2147483647 |} in
  match tnfs_opendirx 1000 realpath_lexical (cs "/srv/tnfs") (cs "/srv/tnfs")
          (fun _ => inr [hidden]) no_traverse blank_session opendirx_plain with
  | Done s1 sent =>
      sent = [tnfs_send TNFS_SUCCESS (data [0; 0; 0])]
      /\ replies_of (tnfs_telldir s1 [0])
         = [tnfs_send TNFS_SUCCESS (data (uint32tnfs 2147483647))]
  | Fault => False
  end.
Proof. split; reflexivity. Qed.

(** ** READDIRX: the pack loop *)

Lemma strlen_nonneg (s : cstr) : 0 <= strlen s.
Proof. unfold strlen. lia. Qed.

Lemma entry_wire_size_bounds (e : directory_entry) :
  READDIRX_ENTRY_SIZE <= entry_wire_size e.
Proof. unfold entry_wire_size. pose proof (strlen_nonneg (e_entrypath e)). lia. Qed.

Lemma wire_sum_snoc (es : list directory_entry) (e : directory_entry) :
  wire_sum (es ++ [e]) = wire_sum es + entry_wire_size e.
Proof.
  induction es as [|x es IH]; simpl.
  - lia.
  - unfold wire_sum in *. simpl. rewrite IH. lia.
Qed.

Lemma wire_sum_cons (e : directory_entry) (es : list directory_entry) :
  wire_sum (e :: es) = entry_wire_size e + wire_sum es.
Proof. reflexivity. Qed.

(** What the loop does from any state that a run from the initial state
    can reach: it packs the first [k] nodes from the cursor, and [k] is
    where the first of the three stop conditions holds. *)
Lemma pack_loop_spec (req : Z) (l : directory_entry_list) :
  forall (cur : directory_entry_list) (st : pack_state),
    0 <= count_sent st ->
    READDIRX_HEADER_SIZE + READDIRX_ENTRY_SIZE * count_sent st <= total_size st ->
    total_size st <= TNFS_MAX_PAYLOAD ->
    (req <> 0 -> count_sent st <= req) ->
    exists k : nat,
      packed (pack_loop req l cur st) = packed st ++ take k cur
      /\ cursor (pack_loop req l cur st) = drop k cur
      /\ count_sent (pack_loop req l cur st) = count_sent st + Z.of_nat k
      /\ total_size (pack_loop req l cur st)
         = total_size st + wire_sum (take k cur)
      /\ total_size (pack_loop req l cur st) <= TNFS_MAX_PAYLOAD
      /\ (req <> 0 -> count_sent (pack_loop req l cur st) <= req)
      /\ ((req <> 0 /\ count_sent (pack_loop req l cur st) = req)
          \/ (exists e rest,
                 drop k cur = e :: rest
                 /\ TNFS_MAX_PAYLOAD
                    < total_size (pack_loop req l cur st) + entry_wire_size e)
          \/ drop k cur = [])
      /\ dirpos (pack_loop req l cur st)
         = match k with
           | O => dirpos st
           | S _ =>
               if count_sent st =? 0
               then Some (uint16tnfs
                            (to_uint16 (dirlist_get_index_for_node l cur)))
               else dirpos st
           end.
Proof.
  induction cur as [|e next IH]; intros st Hc Hlo Hhi Hreq.
  - exists O. cbn [pack_loop packed cursor count_sent total_size dirpos take drop].
    rewrite app_nil_r. unfold wire_sum. simpl. repeat split; auto; lia.
  - cbn [pack_loop].
    destruct (negb (req =? 0) && (count_sent st >=? req)) eqn:Hstop1.
    { exists O. cbn [packed cursor count_sent total_size dirpos take drop].
      rewrite app_nil_r. unfold wire_sum. simpl.
      apply andb_true_iff in Hstop1 as [Hr Hge].
      apply negb_true_iff, Z.eqb_neq in Hr.
      specialize (Hreq Hr).
      repeat split; auto; try lia;
        try (left; split; [assumption|]; lia). }
    destruct (total_size st + READDIRX_ENTRY_SIZE + strlen (e_entrypath e)
              >? TNFS_MAX_PAYLOAD) eqn:Hstop2.
    { exists O. cbn [packed cursor count_sent total_size dirpos take drop].
      rewrite app_nil_r. unfold wire_sum. simpl.
      repeat split; auto; try lia;
        try (right; left; exists e, next; split; [reflexivity|];
             unfold entry_wire_size; lia). }
    assert (Hcount : to_uint8 (count_sent st + 1) = count_sent st + 1).
    { apply to_uint8_small. unfold READDIRX_HEADER_SIZE, READDIRX_ENTRY_SIZE,
        TNFS_MAX_PAYLOAD, MAXMSGSZ, TNFS_HEADERSZ in *. lia. }
    pose proof (strlen_nonneg (e_entrypath e)) as Hlen.
    set (st2 := {| count_sent := to_uint8 (count_sent st + 1);
                   total_size := total_size st + READDIRX_ENTRY_SIZE
                                 + strlen (e_entrypath e);
                   dirpos := if count_sent st =? 0
                             then Some (uint16tnfs
                                          (to_uint16
                                             (dirlist_get_index_for_node l
                                                (e :: next))))
                             else dirpos st;
                   packed := packed st ++ [e];
                   cursor := next |}).
    assert (Hnot1 : req = 0 \/ count_sent st < req).
    { apply andb_false_iff in Hstop1 as [Hr | Hlt].
      - left. apply negb_false_iff, Z.eqb_eq in Hr. assumption.
      - right. lia. }
    destruct (IH st2) as (k & Hp & Hcur & Hcnt & Htot & Hmax & Hrq & Hwhy & Hpos).
    + unfold st2. cbn [count_sent]. lia.
    + unfold st2. cbn [count_sent total_size]. rewrite Hcount.
      unfold READDIRX_ENTRY_SIZE in *. lia.
    + unfold st2. cbn [total_size]. lia.
    + unfold st2. cbn [count_sent]. rewrite Hcount. intros Hr. lia.
    + exists (S k).
      remember (pack_loop req l next st2) as st' eqn:Hst'.
      unfold st2 in Hp, Hcnt, Htot, Hpos.
      cbn [packed count_sent total_size dirpos] in Hp, Hcnt, Htot, Hpos.
      rewrite Hcount in Hcnt, Hpos.
      cbn [take drop]. rewrite wire_sum_cons. unfold entry_wire_size at 1.
      split; [rewrite Hp, <- app_assoc; reflexivity|].
      split; [exact Hcur|].
      split; [lia|].
      split; [lia|].
      split; [exact Hmax|].
      split; [exact Hrq|].
      split; [exact Hwhy|].
      rewrite Hpos.
      replace (count_sent st + 1 =? 0) with false by lia.
      destruct k; reflexivity.
Qed.

Lemma to_uint16_to_uint32 (v : Z) : to_uint16 (to_uint32 v) = to_uint16 v.
Proof.
  unfold to_uint16, to_uint32.
  change (2 ^ 32) with 4294967296. change (2 ^ 16) with 65536.
  Z.div_mod_to_equations. lia.
Qed.

(** C4, amended: READDIRX on a handle whose cursor is at index [p] of its
    entry list, not at the end, sends one success reply that carries the
    entries from [p] on in list order and stops at the first of: the
    requested count reached (when it is not zero), the next entry would
    take the reply beyond TNFS_MAX_PAYLOAD, the list exhausted; the EOF bit
    of [dir_status] is set exactly when the cursor is left at the end; and
    the two-byte [dirpos] field holds [p] modulo 2^16. *)
Theorem readdirx_batch (s : Session) (h req : Z) (dh : dir_handle) (p : nat) :
  0 <= h < MAX_DHND_PER_CONN ->
  0 <= req < 256 ->
  dhandle_at s h = Some dh ->
  (p < length (dh_entry_list dh))%nat ->
  dh_current_entry dh = drop p (dh_entry_list dh) ->
  names_fit (dh_entry_list dh) ->
  readdirx_law s h req (dh_entry_list dh) p (to_uint16 (Z.of_nat p)).
Proof.
  intros Hh Hreq Hat Hp Hcur Hfit.
  set (l := dh_entry_list dh) in *.
  set (st0 := {| count_sent := 0; total_size := READDIRX_HEADER_SIZE;
                 dirpos := None; packed := [];
                 cursor := dh_current_entry dh |}).
  destruct (pack_loop_spec req l (drop p l) st0)
    as (k & Hpk & Hcs & Hcnt & Htot & Hmax & Hrq & Hwhy & Hpos).
  { simpl. lia. }
  { simpl. unfold READDIRX_HEADER_SIZE. lia. }
  { simpl. unfold READDIRX_HEADER_SIZE, TNFS_MAX_PAYLOAD, MAXMSGSZ,
      TNFS_HEADERSZ. lia. }
  { simpl. lia. }
  cbn [packed count_sent total_size dirpos st0] in Hpk, Hcnt, Htot, Hpos.
  remember (pack_loop req l (drop p l) st0) as st' eqn:Hst'.
  (* the first entry at the cursor always fits, so the batch is not empty *)
  assert (Hfirst : exists e rest, drop p l = e :: rest
                                  /\ strlen (e_entrypath e) < MAX_FILENAME_LEN).
  { destruct (drop p l) as [|e rest] eqn:Hd.
    - apply (f_equal length) in Hd. rewrite length_drop in Hd. simpl in Hd. lia.
    - exists e, rest. split; [reflexivity|].
      apply (Forall_drop _ p) in Hfit. rewrite Hd in Hfit.
      now inversion Hfit. }
  destruct Hfirst as (e0 & rest0 & Hd0 & Hlen0).
  assert (Hk : k <> O).
  { intros ->. rewrite take_0 in Htot. unfold wire_sum in Htot. simpl in Htot.
    destruct Hwhy as [[Hr He] | [(e & rest & Hd & Hover) | Hd]].
    - lia.
    - rewrite drop_0, Hd0 in Hd. injection Hd as <- <-.
      unfold entry_wire_size, READDIRX_ENTRY_SIZE, READDIRX_HEADER_SIZE,
        TNFS_MAX_PAYLOAD, MAXMSGSZ, TNFS_HEADERSZ, MAX_FILENAME_LEN in *. lia.
    - rewrite drop_0 in Hd. congruence. }
  destruct k as [|k']; [congruence|].
  replace (0 =? 0) with true in Hpos by reflexivity.
  exists (set_dhandle s h (set_current_entry dh (cursor st'))).
  exists (set_current_entry dh (cursor st')).
  exists {| rx_count := count_sent st';
            rx_dir_status := match cursor st' with
                             | [] => Z.lor 0 TNFS_DIRSTATUS_EOF
                             | _ :: _ => 0
                             end;
            rx_dirpos := dirpos st';
            rx_entries := packed st';
            rx_total_size := total_size st' |}.
  split; [|split].
  - unfold tnfs_readdirx.
    rewrite (handle_in_range h Hh), Hat. fold l. fold st0.
    rewrite Hcur. fold l. rewrite <- Hst'. rewrite Hd0. reflexivity.
  - now apply dhandle_at_set_eq with dh.
  - exists (S k'). cbn [rx_entries rx_count rx_total_size rx_dirpos
                         rx_dir_status dh_current_entry set_current_entry].
    rewrite Hpk, Hcs, Hcnt, Htot, Hpos. cbn [app].
    rewrite drop_drop.
    split; [reflexivity|]. split; [reflexivity|].
    split; [lia|]. split; [reflexivity|].
    split; [lia|].
    split; [intros Hr; specialize (Hrq Hr); lia|].
    split.
    { destruct Hwhy as [[Hr He] | [(e & rest & Hd & Hover) | Hd]].
      - left. split; [assumption | lia].
      - right. left. exists e, rest. rewrite <- drop_drop.
        split; [assumption | lia].
      - right. right. rewrite <- drop_drop. assumption. }
    split.
    { eexists. split; [reflexivity|].
      rewrite tnfs16uint_uint16tnfs by (apply Z.mod_pos_bound; lia).
      unfold l. rewrite dirlist_get_index_for_node_drop_mod by assumption.
      rewrite to_uint16_to_uint32.
      unfold to_uint16. now rewrite Zmod_mod. }
    { rewrite <- drop_drop. fold l. destruct (drop (S k') (drop p l)).
      - split; reflexivity.
      - split; [intros Hf; vm_compute in Hf; discriminate | discriminate]. }
Qed.

Lemma readdirx_batch_witness :
  dhandle_at sample_session 0 = Some sample_dhandle
  /\ readdirx_law sample_session 0 1 sample_entries 1 1.
Proof.
  split; [reflexivity|].
  apply (readdirx_batch sample_session 0 1 sample_dhandle 1).
  - unfold MAX_DHND_PER_CONN. lia.
  - lia.
  - reflexivity.
  - simpl. lia.
  - reflexivity.
  - repeat constructor.
Defined.

(** The big handle is what OPENDIRX of a directory of 65537 files followed
    by SEEKDIR to 65536 leaves in slot 0. *)
Lemma dhandle_eqb_eq (a b : dir_handle) : dhandle_eqb a b = true -> a = b.
Proof.
  unfold dhandle_eqb. rewrite !andb_true_iff, !Z.eqb_eq, !cstr_eqb_eq,
    !same_node_eq.
  destruct a as [ha pa pta da sa oa la ca na opa lda],
           b as [hb pb ptb db sb ob lb cb nb opb ldb]; simpl.
  intros ((((((((((Hh & ->) & ->) & ->) & ->) & ->) & ->) & ->) & ->) & Ho) & Hl).
  apply Bool.eqb_prop in Ho, Hl. subst.
  destruct ha as [[x]|], hb as [[y]|]; simpl in Hh; try discriminate.
  - apply Z.eqb_eq in Hh. now subst.
  - reflexivity.
Qed.

Lemma big_dhandle_reached : big_dhandle_run = Some big_dhandle.
Proof.
  assert (H : option_eqb dhandle_eqb big_dhandle_run (Some big_dhandle) = true)
    by (vm_compute; reflexivity).
  destruct big_dhandle_run as [dh|]; [|discriminate].
  simpl in H. now apply dhandle_eqb_eq in H as ->.
Qed.

(** With the cursor at index 65536 the [dirpos] field of the reply holds 0:
    the claim that it equals the index fails there. *)
Lemma readdirx_dirpos_wraps :
  dhandle_at big_session 0 = Some big_dhandle
  /\ (Z.to_nat 65536 < length (dh_entry_list big_dhandle))%nat
  /\ dh_current_entry big_dhandle
     = drop (Z.to_nat 65536) (dh_entry_list big_dhandle)
  /\ names_fit (dh_entry_list big_dhandle)
  /\ ~ readdirx_law big_session 0 1 (dh_entry_list big_dhandle)
         (Z.to_nat 65536) 65536.
Proof.
  split; [reflexivity|].
  split.
  { apply Nat.ltb_lt. vm_compute. reflexivity. }
  split; [reflexivity|].
  split.
  { unfold names_fit. apply Forall_forall. intros e He.
    assert (Hall : forallb (fun e => strlen (e_entrypath e) <? MAX_FILENAME_LEN)
                     (dh_entry_list big_dhandle) = true)
      by (vm_compute; reflexivity).
    rewrite forallb_forall in Hall.
    apply Z.ltb_lt, Hall. now apply list_elem_of_In. }
  intros (s1 & dh1 & rx & Hrun & _ & k & _ & _ & _ & _ & _ & _ & _
          & (bytes & Hpos & Hdec) & _).
  apply (f_equal readdirx_reply_of) in Hrun.
  vm_compute in Hrun. injection Hrun as <-.
  simpl in Hpos. injection Hpos as <-.
  vm_compute in Hdec. discriminate Hdec.
Qed.

Lemma closedir_clears_open_only_witness :
  dhandle_at sample_session 0 = Some sample_dhandle
  /\ exists s1 dh1,
       tnfs_closedir sample_session [0] = Done s1 [tnfs_send TNFS_SUCCESS no_data]
       /\ dhandle_at s1 0 = Some dh1
       /\ dh_open dh1 = false
       /\ dh_entry_list dh1 = sample_entries
       /\ dh_loaded dh1 = true.
Proof.
  split; [reflexivity|].
  destruct (closedir_clears_open_only sample_session 0 sample_dhandle
              ltac:(unfold MAX_DHND_PER_CONN; lia) eq_refl eq_refl)
    as (s1 & dh1 & Hrun & Hat & Ho & Hl & _ & _ & Hld & _).
  exists s1, dh1. auto.
Defined.

(** ** Directory-handle allocation *)

(** Without a reuse request the allocation is the one the specification
    describes. *)
Lemma find_free_without_reuse (now : Z) (s : Session) (path : cstr)
    (diropt sortopt : Z) (pattern : option cstr) :
  _tnfs_find_free_dir_handle now s path diropt sortopt pattern false
  = find_free_dir_handle_spec now s path diropt sortopt pattern false.
Proof.
  unfold _tnfs_find_free_dir_handle, find_free_dir_handle_spec.
  destruct (first_slot (fun dhandle => dh_open dhandle || dh_loaded dhandle)
              (map (sweep_handle now) (dhandles s)) 0) as [i|] eqn:H2;
    cbn [dhandles]; rewrite H2; [reflexivity|].
  destruct (first_slot dh_open (map (sweep_handle now) (dhandles s)) 0)
    as [i|] eqn:H3; [|reflexivity].
  f_equal. unfold update_dhandle. f_equal. cbn [dhandles].
  (* attempt 2 found no slot, so every slot that is not open is loaded *)
  assert (Hall : forall (l : list dir_handle) k j,
             first_slot (fun d => dh_open d || dh_loaded d) l k = None ->
             first_slot dh_open l k = Some j ->
             alter (fun d => _tnfs_init_dhandle now
                               (if dh_loaded d then _tnfs_free_dir_handle d else d)
                               path diropt sortopt pattern)
                   (Z.to_nat (j - k)) l
             = alter (fun d => _tnfs_init_dhandle now (_tnfs_free_dir_handle d)
                                 path diropt sortopt pattern)
                     (Z.to_nat (j - k)) l
             /\ k <= j).
  { induction l as [|d l IH]; intros k j Hn Hs; simpl in *; [discriminate|].
    destruct (dh_open d) eqn:Ho; simpl in Hn.
    - destruct (IH (k + 1) j Hn Hs) as [Heq Hle].
      split; [|lia].
      replace (Z.to_nat (j - k)) with (S (Z.to_nat (j - (k + 1)))) by lia.
      simpl. f_equal. exact Heq.
    - destruct (dh_loaded d) eqn:Hld; [|discriminate].
      injection Hs as <-. rewrite Z.sub_diag. simpl.
      rewrite Hld. split; [reflexivity | lia]. }
  destruct (Hall _ 0 i H2 H3) as [Heq _].
  now rewrite Z.sub_0_r in Heq.
Qed.

Lemma sweep_handle_open (now : Z) (dhandle : dir_handle) :
  dh_open (sweep_handle now dhandle) = dh_open dhandle.
Proof.
  unfold sweep_handle. destruct (dh_open dhandle) eqn:Ho; [exact Ho|].
  destruct (dh_loaded dhandle && _); [exact Ho | exact Ho].
Qed.

Lemma first_slot_none (skip : dir_handle -> bool) (slots : list dir_handle) :
  forall i, first_slot skip slots i = None
            <-> Forall (fun dhandle => skip dhandle = true) slots.
Proof.
  induction slots as [|d slots IH]; intros i; simpl.
  - split; [constructor | reflexivity].
  - destruct (skip d) eqn:Hd.
    + rewrite IH. split; [now constructor | now inversion 1].
    + split; [discriminate | inversion 1; congruence].
Qed.

(** Without a reuse request the allocation reports no handle exactly when
    every slot is open. *)
Lemma find_free_none_iff_all_open (now : Z) (s : Session) (path : cstr)
    (diropt sortopt : Z) (pattern : option cstr) :
  (exists s1, _tnfs_find_free_dir_handle now s path diropt sortopt pattern false
              = no_handle s1)
  <-> Forall (fun dhandle => dh_open dhandle = true) (dhandles s).
Proof.
  unfold _tnfs_find_free_dir_handle. cbn [dhandles].
  assert (Hopen : first_slot dh_open (map (sweep_handle now) (dhandles s)) 0 = None
                  <-> Forall (fun dhandle => dh_open dhandle = true) (dhandles s)).
  { rewrite first_slot_none, Forall_map.
    split; intros H; (eapply Forall_impl; [exact H|]); intros d Hd;
      simpl in *; rewrite sweep_handle_open in *; assumption. }
  split.
  - intros [s1 H].
    destruct (first_slot (fun d => dh_open d || dh_loaded d) _ 0);
      [discriminate|].
    destruct (first_slot dh_open _ 0) eqn:H3; [discriminate|].
    now apply Hopen.
  - intros Hall. pose proof (proj2 Hopen Hall) as H3.
    assert (H2 : first_slot (fun d => dh_open d || dh_loaded d)
                   (map (sweep_handle now) (dhandles s)) 0 = None).
    { apply first_slot_none. apply first_slot_none in H3.
      eapply Forall_impl; [exact H3|]. intros d ->. reflexivity. }
    rewrite H2, H3. eauto.
Qed.

(** C8: with reuse requested, the reuse loop does not pass over open
    slots.  A slot that a client holds open and that matches the request is
    handed out again with its cursor reset, where the specification goes
    on to the first free slot; and with every slot open the allocation
    still returns that slot, where the specification reports no handle. *)
Theorem find_free_reuses_open_slot :
  _tnfs_find_free_dir_handle 1001 traverse_session (cs "/srv/tnfs/x")
    TNFS_DIROPT_TRAVERSE 0 None true
  = found 0 (set_dhandle blank_session 0
               (set_current_entry traverse_dhandle sample_entries))
  /\ found_index
       (find_free_dir_handle_spec 1001 traverse_session (cs "/srv/tnfs/x")
          TNFS_DIROPT_TRAVERSE 0 None true) = Some 1
  /\ Forall (fun d => dh_open d = true) (dhandles full_session)
  /\ found_index
       (_tnfs_find_free_dir_handle 1001 full_session (cs "/srv/tnfs/x")
          TNFS_DIROPT_TRAVERSE 0 None true) = Some 0
  /\ find_free_dir_handle_spec 1001 full_session (cs "/srv/tnfs/x")
       TNFS_DIROPT_TRAVERSE 0 None true = no_handle full_session.
Proof.
  split; [vm_compute; reflexivity|].
  split; [vm_compute; reflexivity|].
  split; [repeat constructor|].
  split; vm_compute; reflexivity.
Qed.

(** ** Path resolution *)

(** C1: the containment test looks for the root anywhere in the canonical
    path.  With root /srv/tnfs the client path ../../tmp/srv/tnfs/x passes
    it, because its canonical form /tmp/srv/tnfs/x contains the root at
    offset 4; OPENDIRX replies success and the path it keeps in the slot
    for opendir resolves outside the root. *)
Theorem resolved_path_escapes_root :
  let root := cs "/srv/tnfs" in
  let used := resolve_dirpath realpath_lexical root root blank_session
                (cs "../../tmp/srv/tnfs/x") in
  let run := tnfs_opendirx 1000 realpath_lexical root root empty_host
               no_traverse blank_session
               (opendirx_request 0 0 0 [] (cs "../../tmp/srv/tnfs/x")) in
  used = cs "/srv/tnfs/../../tmp/srv/tnfs/x"
  /\ realpath_lexical used = cs "/tmp/srv/tnfs/x"
  /\ strstr (realpath_lexical used) root = Some 4%nat
  /\ is_prefix root (realpath_lexical used) = false
  /\ replies_of run = [tnfs_send TNFS_SUCCESS (data [0; 0; 0])]
  /\ stored_path run 0 = Some used.
Proof. vm_compute. repeat split; reflexivity. Qed.

(** ** Glob matching *)

Section Glob.
Variable sep : ascii.

Lemma glob_app (p1 s1 p2 s2 : cstr) :
  glob_match sep p1 s1 -> glob_match sep p2 s2 ->
  glob_match sep (p1 ++ p2) (s1 ++ s2).
Proof.
  intros H1 H2. induction H1 as [|p s w H IH|p s c Hc H IH|x p s c Hx Hq Hl H IH];
    simpl.
  - assumption.
  - rewrite <- app_assoc. now apply glob_star.
  - now apply glob_question.
  - now apply glob_literal.
Qed.

Lemma glob_app_inv (p1 p2 : cstr) :
  forall s, glob_match sep (p1 ++ p2) s ->
    exists s1 s2, s = s1 ++ s2 /\ glob_match sep p1 s1 /\ glob_match sep p2 s2.
Proof.
  induction p1 as [|x p1 IH]; intros s H; simpl in H.
  - exists [], s. repeat split; [constructor | assumption].
  - inversion H as [|p s' w H'|p s' c Hc H'|x' p s' c Hx Hq Hl H']; subst.
    + destruct (IH _ H') as (s1 & s2 & -> & Ha & Hb).
      exists (w ++ s1), s2. rewrite app_assoc.
      repeat split; [now apply glob_star | assumption].
    + destruct (IH _ H') as (s1 & s2 & -> & Ha & Hb).
      exists (c :: s1), s2. repeat split; [now apply glob_question | assumption].
    + destruct (IH _ H') as (s1 & s2 & -> & Ha & Hb).
      exists (c :: s1), s2. repeat split; [now apply glob_literal | assumption].
Qed.

Lemma glob_one_star (s : cstr) : glob_match sep ["*"%char] s.
Proof.
  rewrite <- (app_nil_r s). apply glob_star. constructor.
Qed.

Lemma glob_one_inv (t : ascii) (s : cstr) :
  glob_match sep [t] s ->
  t = "*"%char \/ exists c, s = [c] /\ char_ok sep t c.
Proof.
  intros H. inversion H as [|p s' w H'|p s' c Hc H'|x' p s' c Hx Hq Hl H']; subst.
  - now left.
  - inversion H'; subst. right. exists c. split; [reflexivity|].
    left. auto.
  - inversion H'; subst. right. exists c. split; [reflexivity|].
    right. auto.
Qed.

Lemma glob_one_char (t c : ascii) : char_ok sep t c -> glob_match sep [t] [c].
Proof.
  intros [[-> Hc] | (Hq & Hs & Hl)].
  - apply glob_question; [assumption | constructor].
  - apply glob_literal; [assumption.. | constructor].
Qed.

(** The recurrences of the table, on a pattern and a name extended at
    the end. *)
Lemma glob_nil_l (s : cstr) : glob_match sep [] s <-> s = [].
Proof.
  split.
  - intros H. now inversion H.
  - intros ->. constructor.
Qed.

Lemma glob_snoc_star_nil (p : cstr) :
  glob_match sep (p ++ ["*"%char]) [] <-> glob_match sep p [].
Proof.
  split.
  - intros H. apply glob_app_inv in H as (s1 & s2 & E & H1 & H2).
    symmetry in E. apply app_eq_nil in E as [-> ->]. assumption.
  - intros H. rewrite <- (app_nil_r []).
    apply glob_app; [assumption | apply glob_one_star].
Qed.

Lemma glob_snoc_star (p s : cstr) (c : ascii) :
  glob_match sep (p ++ ["*"%char]) (s ++ [c])
  <-> glob_match sep p (s ++ [c]) \/ glob_match sep (p ++ ["*"%char]) s.
Proof.
  split.
  - intros H. apply glob_app_inv in H as (s1 & s2 & E & H1 & H2).
    destruct s2 as [|c' s2' _] using rev_ind.
    + left. rewrite app_nil_r in E. now subst.
    + right. rewrite app_assoc in E. apply app_inj_tail in E as [-> ->].
      apply glob_app; [assumption | apply glob_one_star].
  - intros [H | H].
    + rewrite <- (app_nil_r (s ++ [c])).
      apply glob_app; [assumption | apply glob_one_star].
    + apply glob_app_inv in H as (s1 & s2 & -> & H1 & H2).
      rewrite <- app_assoc.
      apply glob_app; [assumption | apply glob_one_star].
Qed.

Lemma glob_snoc_char_nil (p : cstr) (t : ascii) :
  t <> "*"%char -> ~ glob_match sep (p ++ [t]) [].
Proof.
  intros Ht H. apply glob_app_inv in H as (s1 & s2 & E & H1 & H2).
  symmetry in E. apply app_eq_nil in E as [-> ->].
  apply glob_one_inv in H2 as [-> | (c & E & _)]; [congruence | discriminate].
Qed.

Lemma glob_snoc_char (p s : cstr) (t c : ascii) :
  t <> "*"%char ->
  glob_match sep (p ++ [t]) (s ++ [c]) <-> glob_match sep p s /\ char_ok sep t c.
Proof.
  intros Ht. split.
  - intros H. apply glob_app_inv in H as (s1 & s2 & E & H1 & H2).
    apply glob_one_inv in H2 as [-> | (c' & -> & Hok)]; [congruence|].
    apply app_inj_tail in E as [-> ->]. auto.
  - intros [H Hok]. apply glob_app; [assumption | now apply glob_one_char].
Qed.
End Glob.

(** *** The table fill *)

Lemma for_from_1_S {St : Type} (hi : nat) (body : nat -> St -> St) (init : St) :
  for_from_1 (S hi) body init = body (S hi) (for_from_1 hi body init).
Proof.
  unfold for_from_1. rewrite seq_S, foldl_app. reflexivity.
Qed.

(** Loop invariants for [for (k = 1; k <= hi; k++)]. *)
Lemma for_from_1_inv {St : Type} (P : nat -> St -> Prop) (hi : nat)
    (body : nat -> St -> St) (init : St) :
  P O init ->
  (forall k st, (k < hi)%nat -> P k st -> P (S k) (body (S k) st)) ->
  P hi (for_from_1 hi body init).
Proof.
  intros H0 Hstep.
  assert (H : forall k, (k <= hi)%nat -> P k (for_from_1 k body init)).
  { induction k as [|k IH]; intros Hk.
    - exact H0.
    - rewrite for_from_1_S. apply Hstep; [lia | apply IH; lia]. }
  apply H. lia.
Qed.

Lemma table_set_same (lookup : table) (i j : nat) (v : bool) :
  table_set lookup i j v i j = v.
Proof. unfold table_set. now rewrite !Nat.eqb_refl. Qed.

Lemma table_set_other (lookup : table) (i j i' j' : nat) (v : bool) :
  ~ (i' = i /\ j' = j) -> table_set lookup i j v i' j' = lookup i' j'.
Proof.
  intros H. unfold table_set.
  destruct (Nat.eqb_spec i' i), (Nat.eqb_spec j' j); simpl; try reflexivity.
  tauto.
Qed.

Lemma take_S_char_at (s : cstr) (k : nat) :
  (k < length s)%nat -> take (S k) s = take k s ++ [char_at s k].
Proof.
  intros Hk. apply take_S_r. unfold char_at.
  destruct (nth_lookup_or_length s k zero) as [H | H]; [exact H | lia].
Qed.

Lemma char_at_In (s : cstr) (k : nat) : (k < length s)%nat -> In (char_at s k) s.
Proof. intros Hk. unfold char_at. now apply nth_In. Qed.

Section GlobTable.
Variable sep : ascii.
Variables src pattern : cstr.
Hypothesis Hsep : ~ In sep src.

(** Writing the right value into the next cell of the row keeps the
    invariant. *)
Lemma table_inv_write (i k : nat) (lookup : table) (v : bool) :
  (S k <= length pattern)%nat ->
  table_inv sep src pattern i k lookup ->
  (v = true <-> glob_match sep (take (S k) pattern) (take i src)) ->
  table_inv sep src pattern i (S k) (table_set lookup i (S k) v).
Proof.
  intros Hk [Hok Hrest] Hv. split.
  - intros i' j' Hf Hj. unfold cell_ok.
    destruct (Nat.eq_dec i' i) as [-> | Hi];
      [destruct (Nat.eq_dec j' (S k)) as [-> | Hjk]|].
    + rewrite table_set_same. exact Hv.
    + rewrite table_set_other by tauto.
      apply Hok; [|assumption]. unfold filled in *. lia.
    + rewrite table_set_other by tauto.
      apply Hok; [|assumption]. unfold filled in *. lia.
  - intros i' j' Hf.
    rewrite table_set_other by (unfold filled in Hf; lia).
    apply Hrest. unfold filled in *. lia.
Qed.

(** Leaving the next cell of the row as it is keeps the invariant when
    nothing matches there. *)
Lemma table_inv_skip (i k : nat) (lookup : table) :
  table_inv sep src pattern i k lookup ->
  ~ glob_match sep (take (S k) pattern) (take i src) ->
  table_inv sep src pattern i (S k) lookup.
Proof.
  intros [Hok Hrest] Hno. split.
  - intros i' j' Hf Hj. unfold cell_ok.
    destruct (Nat.eq_dec i' i) as [-> | Hi];
      [destruct (Nat.eq_dec j' (S k)) as [-> | Hjk]|].
    + rewrite Hrest by (unfold filled; lia).
      split; [discriminate | tauto].
    + apply Hok; [|assumption]. unfold filled in *. lia.
    + apply Hok; [|assumption]. unfold filled in *. lia.
  - intros i' j' Hf. apply Hrest. unfold filled in *. lia.
Qed.

Lemma table_inv_start :
  table_inv sep src pattern 0 0 (table_set (fun _ _ => false) 0 0 true).
Proof.
  split.
  - intros i' j' Hf Hj. unfold filled in Hf.
    assert (i' = O /\ j' = O) as [-> ->] by lia.
    unfold cell_ok. rewrite table_set_same. simpl.
    split; [constructor | reflexivity].
  - intros i' j' Hf. rewrite table_set_other; [reflexivity|].
    unfold filled in Hf. lia.
Qed.

(** The loop over the first row. *)
Lemma first_row_step (k : nat) (lookup : table) :
  (k < length pattern)%nat ->
  table_inv sep src pattern 0 k lookup ->
  table_inv sep src pattern 0 (S k)
    (if Ascii.eqb (char_at pattern (S k - 1)) "*"
     then table_set lookup 0 (S k) (lookup 0%nat (S k - 1)%nat)
     else lookup).
Proof.
  intros Hk Hinv.
  replace (S k - 1)%nat with k by lia.
  pose proof (take_S_char_at pattern k Hk) as Htake.
  destruct (Ascii.eqb_spec (char_at pattern k) "*") as [Hstar | Hstar].
  - apply table_inv_write; [lia | assumption|].
    rewrite Htake, Hstar. cbn [take]. rewrite glob_snoc_star_nil.
    destruct Hinv as [Hok _].
    apply (Hok O k); [unfold filled; lia | lia].
  - apply table_inv_skip; [assumption|].
    rewrite Htake. cbn [take]. now apply glob_snoc_char_nil.
Qed.

(** The body of the inner loop. *)
Lemma match_cell_step (i k : nat) (lookup : table) :
  (i < length src)%nat -> (k < length pattern)%nat ->
  table_inv sep src pattern (S i) k lookup ->
  table_inv sep src pattern (S i) (S k)
    (match_cell src pattern (S i) (S k) lookup).
Proof.
  intros Hi Hk Hinv. unfold match_cell.
  replace (S k - 1)%nat with k by lia.
  replace (S i - 1)%nat with i by lia.
  pose proof (take_S_char_at pattern k Hk) as Hp.
  pose proof (take_S_char_at src i Hi) as Hs.
  assert (Hc : char_at src i <> sep).
  { intros E. apply Hsep. rewrite <- E. now apply char_at_In. }
  destruct Hinv as [Hok Hrest].
  assert (Hleft : cell_ok sep src pattern lookup (S i) k)
    by (apply Hok; [unfold filled; lia | lia]).
  assert (Hup : cell_ok sep src pattern lookup i (S k))
    by (apply Hok; [unfold filled; lia | lia]).
  assert (Hdiag : cell_ok sep src pattern lookup i k)
    by (apply Hok; [unfold filled; lia | lia]).
  unfold cell_ok in Hleft, Hup, Hdiag.
  destruct (Ascii.eqb_spec (char_at pattern k) "*") as [Hstar | Hstar].
  - apply table_inv_write; [lia | split; assumption|].
    rewrite Hstar in Hp.
    rewrite orb_true_iff, Hleft, Hup, Hp, Hs, glob_snoc_star. tauto.
  - destruct (Ascii.eqb (char_at pattern k) "?"
              || Ascii.eqb (char_at src i) (char_at pattern k)
              || Ascii.eqb (tolower (char_at src i))
                           (tolower (char_at pattern k))) eqn:Hm.
    + apply table_inv_write; [lia | split; assumption|].
      rewrite Hdiag, Hp, Hs, glob_snoc_char by assumption.
      assert (Hcok : char_ok sep (char_at pattern k) (char_at src i)).
      { unfold char_ok.
        destruct (Ascii.eqb_spec (char_at pattern k) "?") as [Hq | Hq];
          [left; auto|].
        right. repeat split; try assumption.
        simpl in Hm. apply orb_true_iff in Hm as [Hm | Hm].
        - apply Ascii.eqb_eq in Hm. now rewrite Hm.
        - apply Ascii.eqb_eq in Hm. now rewrite Hm. }
      tauto.
    + apply table_inv_write; [lia | split; assumption|].
      rewrite Hp, Hs, glob_snoc_char by assumption.
      split; [discriminate|]. intros [_ Hcok]. exfalso.
      apply orb_false_iff in Hm as [Hm Hl].
      apply orb_false_iff in Hm as [Hq He].
      apply Ascii.eqb_neq in Hq, Hl.
      destruct Hcok as [[Hq' _] | (_ & _ & Hl')]; [contradiction|].
      apply Hl. now rewrite Hl'.
Qed.

(** A finished row is the start of the next one. *)
Lemma table_inv_next_row (i : nat) (lookup : table) :
  table_inv sep src pattern i (length pattern) lookup ->
  (i < length src)%nat ->
  table_inv sep src pattern (S i) 0 lookup.
Proof.
  intros [Hok Hrest] Hi. split.
  - intros i' j' Hf Hj. unfold filled in Hf.
    destruct (Nat.eq_dec i' (S i)) as [-> | Hne].
    + assert (j' = O) as -> by lia. unfold cell_ok.
      rewrite Hrest by (unfold filled; lia).
      split; [discriminate|]. cbn [take]. rewrite glob_nil_l.
      intros E. apply (f_equal length) in E. rewrite length_take in E.
      cbn [length] in E. lia.
    + apply Hok; [unfold filled; lia | assumption].
  - intros i' j' Hf. apply Hrest. unfold filled in *. lia.
Qed.

(** The table fill decides the match. *)
Lemma pattern_match_glob :
  _pattern_match src pattern = true <-> glob_match sep pattern src.
Proof.
  unfold _pattern_match.
  destruct (Nat.eqb_spec (length pattern) 0) as [Hm | Hm].
  - destruct pattern; [|discriminate]. rewrite glob_nil_l, Nat.eqb_eq.
    destruct src; simpl; split; congruence.
  - set (lookup2 := for_from_1 (length pattern) _ _).
    assert (H2 : table_inv sep src pattern 0 (length pattern) lookup2).
    { apply (for_from_1_inv (table_inv sep src pattern 0)).
      - apply table_inv_start.
      - intros k st Hk Hst. now apply first_row_step. }
    set (lookup3 := for_from_1 (length src) _ _).
    assert (H3 : table_inv sep src pattern (length src) (length pattern) lookup3).
    { apply (for_from_1_inv
               (fun i => table_inv sep src pattern i (length pattern))).
      - exact H2.
      - intros i st Hi Hst.
        apply (for_from_1_inv (table_inv sep src pattern (S i))).
        + now apply table_inv_next_row.
        + intros k st' Hk Hst'. now apply match_cell_step. }
    destruct H3 as [Hok _].
    specialize (Hok (length src) (length pattern)).
    unfold cell_ok in Hok. rewrite !take_ge in Hok by lia.
    apply Hok; [unfold filled; lia | lia].
Qed.
End GlobTable.

(** The glob scenario of the specification: of foo.sna, foo.txt and
    bar.sna the pattern [*.sna] keeps the two snapshots. *)
Example pattern_match_scenario :
  map (fun name => _pattern_match (cs name) (cs "*.sna"))
      ["foo.sna"; "foo.txt"; "bar.sna"]%string
  = [true; false; true].
Proof. reflexivity. Qed.

(** The table fill itself lets [?] stand for any character; the separator
    is excluded only in that a name of a directory entry never holds it. *)
Example question_mark_in_table_fill :
  _pattern_match (cs "a/b") (cs "a?b") = true.
Proof. reflexivity. Qed.

(** ** String comparison *)

Lemma code_range (c : ascii) : 0 <= code c < 256.
Proof.
  unfold code. pose proof (N_ascii_bounded c). lia.
Qed.

Lemma strcmp_range (a : cstr) : forall b, -255 <= strcmp a b <= 255.
Proof.
  induction a as [|x a IH]; intros [|y b]; simpl;
    try pose proof (code_range x); try pose proof (code_range y); try lia.
  destruct (code x =? code y); [|lia].
  destruct (code x =? 0); [lia | apply IH].
Qed.

Lemma strcmp_antisym (a : cstr) : forall b, strcmp b a = - strcmp a b.
Proof.
  induction a as [|x a IH]; intros [|y b]; simpl; try lia.
  rewrite (Z.eqb_sym (code y) (code x)).
  destruct (Z.eqb_spec (code x) (code y)) as [E | E]; [|lia].
  rewrite E. destruct (code y =? 0); [lia | apply IH].
Qed.

Lemma strcmp_trans (a : cstr) :
  forall b c, strcmp a b <= 0 -> strcmp b c <= 0 -> strcmp a c <= 0.
Proof.
  induction a as [|x a IH]; intros [|y b] [|z c]; simpl;
    try pose proof (code_range x); try pose proof (code_range y);
    try pose proof (code_range z); try lia.
  - destruct (Z.eqb_spec (code x) (code z)), (Z.eqb_spec (code x) 0); lia.
  - destruct (Z.eqb_spec (code x) (code y)), (Z.eqb_spec (code x) 0); lia.
  - destruct (Z.eqb_spec (code x) (code y)) as [Exy | Exy],
             (Z.eqb_spec (code y) (code z)) as [Eyz | Eyz],
             (Z.eqb_spec (code x) (code z)) as [Exz | Exz],
             (Z.eqb_spec (code x) 0) as [Ex0 | Ex0],
             (Z.eqb_spec (code y) 0) as [Ey0 | Ey0];
      try lia.
    intros Hab Hbc. now apply IH with b.
Qed.

(** ** Merge sort *)

Lemma to_int32_to_uint32_small (v : Z) :
  - 2 ^ 31 <= v < 2 ^ 31 -> to_int32 (to_uint32 v) = v.
Proof.
  intros H. unfold to_int32, to_uint32.
  change (2 ^ 32) with 4294967296 in *. change (2 ^ 31) with 2147483648 in *.
  Z.div_mod_to_equations. lia.
Qed.

(** The sign of [r] follows the selected order, as long as the numeric
    keys fit. *)
Lemma merge_order_lt (sortopts : Z) (a b : directory_entry) :
  key_fits sortopts a -> key_fits sortopts b ->
  merge_order sortopts a b < 0 -> sort_order sortopts a b.
Proof.
  unfold key_fits, merge_order, sort_order, key_le, strcasecmp.
  pose proof (strcmp_range (e_entrypath a) (e_entrypath b)).
  pose proof (strcmp_range (map tolower (e_entrypath a))
                (map tolower (e_entrypath b))).
  pose proof (strcmp_antisym (e_entrypath a) (e_entrypath b)).
  pose proof (strcmp_antisym (map tolower (e_entrypath a))
                (map tolower (e_entrypath b))).
  destruct (has_flag sortopts TNFS_DIRSORT_SIZE);
    [|destruct (has_flag sortopts TNFS_DIRSORT_MODIFIED);
      [|destruct (has_flag sortopts TNFS_DIRSORT_CASE)]];
    destruct (has_flag sortopts TNFS_DIRSORT_DESCENDING);
    intros Ha Hb; rewrite ?to_int32_to_uint32_small by lia;
    rewrite ?to_int32_small by lia; lia.
Qed.

Lemma merge_order_ge (sortopts : Z) (a b : directory_entry) :
  key_fits sortopts a -> key_fits sortopts b ->
  ~ merge_order sortopts a b < 0 -> sort_order sortopts b a.
Proof.
  unfold key_fits, merge_order, sort_order, key_le, strcasecmp.
  pose proof (strcmp_range (e_entrypath a) (e_entrypath b)).
  pose proof (strcmp_range (map tolower (e_entrypath a))
                (map tolower (e_entrypath b))).
  pose proof (strcmp_antisym (e_entrypath a) (e_entrypath b)).
  pose proof (strcmp_antisym (map tolower (e_entrypath a))
                (map tolower (e_entrypath b))).
  destruct (has_flag sortopts TNFS_DIRSORT_SIZE);
    [|destruct (has_flag sortopts TNFS_DIRSORT_MODIFIED);
      [|destruct (has_flag sortopts TNFS_DIRSORT_CASE)]];
    destruct (has_flag sortopts TNFS_DIRSORT_DESCENDING);
    intros Ha Hb; rewrite ?to_int32_to_uint32_small by lia;
    rewrite ?to_int32_small by lia; lia.
Qed.

Lemma sort_order_trans (sortopts : Z) (a b c : directory_entry) :
  sort_order sortopts a b -> sort_order sortopts b c -> sort_order sortopts a c.
Proof.
  unfold sort_order, key_le, strcasecmp.
  destruct (has_flag sortopts TNFS_DIRSORT_SIZE);
    [|destruct (has_flag sortopts TNFS_DIRSORT_MODIFIED);
      [|destruct (has_flag sortopts TNFS_DIRSORT_CASE)]];
    destruct (has_flag sortopts TNFS_DIRSORT_DESCENDING);
    intros H1 H2; try lia; eauto using strcmp_trans.
Qed.

Section Merge.
Variable sortopts : Z.

Lemma merge_nil_l (r : directory_entry_list) :
  _mergesort_merge sortopts [] r = r.
Proof. destruct r; reflexivity. Qed.

Lemma merge_nil_r (l : directory_entry_list) :
  _mergesort_merge sortopts l [] = l.
Proof. destruct l; reflexivity. Qed.

Lemma merge_cons (a b : directory_entry) (l r : directory_entry_list) :
  _mergesort_merge sortopts (a :: l) (b :: r)
  = if merge_order sortopts a b <? 0
    then a :: _mergesort_merge sortopts l (b :: r)
    else b :: _mergesort_merge sortopts (a :: l) r.
Proof. reflexivity. Qed.

Lemma merge_perm (l : directory_entry_list) :
  forall r, Permutation (_mergesort_merge sortopts l r) (l ++ r).
Proof.
  induction l as [|a l IHl]; intros r.
  - rewrite merge_nil_l. reflexivity.
  - induction r as [|b r IHr].
    + rewrite merge_nil_r, app_nil_r. reflexivity.
    + rewrite merge_cons. destruct (merge_order sortopts a b <? 0).
      * simpl. constructor. apply IHl.
      * rewrite IHr. apply Permutation_middle.
Qed.

Lemma merge_HdRel (x : directory_entry) (l r : directory_entry_list) :
  HdRel (sort_order sortopts) x l -> HdRel (sort_order sortopts) x r ->
  HdRel (sort_order sortopts) x (_mergesort_merge sortopts l r).
Proof.
  intros Hl Hr. destruct l as [|a l]; [now rewrite merge_nil_l|].
  destruct r as [|b r]; [now rewrite merge_nil_r|].
  rewrite merge_cons. destruct (merge_order sortopts a b <? 0);
    constructor; [now inversion Hl | now inversion Hr].
Qed.

Lemma merge_sorted (l : directory_entry_list) :
  forall r,
    Forall (key_fits sortopts) l -> Forall (key_fits sortopts) r ->
    Sorted (sort_order sortopts) l -> Sorted (sort_order sortopts) r ->
    Sorted (sort_order sortopts) (_mergesort_merge sortopts l r).
Proof.
  induction l as [|a l IHl]; intros r Hfl Hfr Hsl Hsr.
  - now rewrite merge_nil_l.
  - induction r as [|b r IHr].
    + now rewrite merge_nil_r.
    + rewrite merge_cons.
      inversion Hfl as [|? ? Hfa Hfl']; subst.
      inversion Hfr as [|? ? Hfb Hfr']; subst.
      inversion Hsl as [|? ? Hsl' Hhl]; subst.
      inversion Hsr as [|? ? Hsr' Hhr]; subst.
      destruct (Z.ltb_spec (merge_order sortopts a b) 0) as [Hlt | Hge].
      * constructor; [now apply IHl|].
        apply merge_HdRel; [assumption|].
        constructor. now apply merge_order_lt.
      * constructor; [now apply IHr|].
        apply merge_HdRel; [|assumption].
        constructor. apply merge_order_ge; [assumption.. | lia].
Qed.

(** The middle node is a node of the list and has a node behind every
    two nodes that [fast] skipped. *)
Lemma get_middle_loop_suffix (n : nat) :
  forall fast slow : directory_entry_list,
    (length fast <= n)%nat ->
    exists k, get_middle_loop slow fast = drop k slow
              /\ (2 * k + 1 <= length fast \/ k = O)%nat.
Proof.
  induction n as [|n IH]; intros fast slow Hn.
  - destruct fast; [|simpl in Hn; lia]. exists O. auto.
  - destruct fast as [|a [|b [|c fast]]];
      try (exists O; split; [reflexivity | auto]).
    destruct (IH (c :: fast) (tail slow)) as (k & Hk & Hlen);
      [simpl in *; lia|].
    exists (S k). split.
    + change (get_middle_loop slow (a :: b :: c :: fast))
        with (get_middle_loop (tail slow) (c :: fast)).
      rewrite Hk. destruct slow; simpl; rewrite ?drop_nil; reflexivity.
    + left. simpl in *. lia.
Qed.

(** Cutting the list after the middle node loses nothing. *)
Lemma mergesort_split (head : directory_entry_list) :
  mergesort_left head ++ mergesort_right head = head.
Proof.
  unfold mergesort_left, mergesort_right, _mergesort_get_middle.
  destruct (get_middle_loop_suffix (length head) head head (le_n _))
    as (k & -> & Hk).
  destruct head as [|a head]; [now rewrite drop_nil|].
  assert (Hlt : (k < length (a :: head))%nat) by (simpl in *; lia).
  assert (Htail : tail (drop k (a :: head)) = drop (S k) (a :: head)).
  { clear Hk. revert Hlt. generalize (a :: head) as l.
    induction k as [|k IH]; intros [|x l] Hl; simpl in *; try lia.
    - now rewrite drop_0.
    - apply IH. lia. }
  rewrite Htail, length_drop.
  replace (length (a :: head) - (length (a :: head) - S k))%nat with (S k) by lia.
  apply take_drop.
Qed.

Lemma mergesort_perm (head : directory_entry_list) :
  Permutation (_mergesort sortopts head) head.
Proof.
  funelim (_mergesort sortopts head).
  - reflexivity.
  - reflexivity.
  - rewrite merge_perm, H, H0, mergesort_split. reflexivity.
Qed.

Lemma mergesort_sorted (head : directory_entry_list) :
  Forall (key_fits sortopts) head ->
  Sorted (sort_order sortopts) (_mergesort sortopts head).
Proof.
  funelim (_mergesort sortopts head); intros Hfit.
  - constructor.
  - repeat constructor.
  - rewrite <- (mergesort_split (x :: y :: rest)) in Hfit.
    apply Forall_app in Hfit as [Hl Hr].
    apply merge_sorted; auto.
    + eapply Permutation_Forall; [symmetry; apply mergesort_perm | assumption].
    + eapply Permutation_Forall; [symmetry; apply mergesort_perm | assumption].
Qed.

(** [dirlist_sort] leaves a permutation of the list that is sorted in the
    selected order. *)
Lemma dirlist_sort_spec (dlist : directory_entry_list) :
  Forall (key_fits sortopts) dlist ->
  Permutation (dirlist_sort dlist sortopts) dlist
  /\ StronglySorted (sort_order sortopts) (dirlist_sort dlist sortopts).
Proof.
  intros Hfit. unfold dirlist_sort. split; [apply mergesort_perm|].
  apply Sorted_StronglySorted; [|now apply mergesort_sorted].
  intros a b c. apply sort_order_trans.
Qed.
End Merge.

(** ** Loading a directory *)

Lemma dirlist_concat_app (list1 list2 : directory_entry_list) :
  dirlist_concat list1 list2 = list1 ++ list2.
Proof. now destruct list1. Qed.

Lemma sort_nonempty (sortopts : Z) (l : directory_entry_list) :
  match l with
  | [] => []
  | _ :: _ => dirlist_sort l sortopts
  end = dirlist_sort l sortopts.
Proof. destruct l; reflexivity. Qed.

Lemma to_uint16_succ (v w : Z) :
  to_uint16 (to_uint16 v + w) = to_uint16 (v + w).
Proof. unfold to_uint16. now rewrite Zplus_mod_idemp_l. Qed.

Section LoadLoop.
Variables diropts maxresults : Z.
Variable pattern : option cstr.

Lemma retained_nil (count : Z) :
  retained diropts maxresults pattern [] count = [].
Proof.
  unfold retained. cbn [List.filter]. rewrite take_nil.
  now destruct (maxresults =? 0).
Qed.

Lemma retained_skip (entry : dirent) (rest : list dirent) (count : Z) :
  accepted diropts pattern entry = false ->
  retained diropts maxresults pattern (entry :: rest) count
  = retained diropts maxresults pattern rest count.
Proof. intros H. unfold retained. cbn [List.filter]. now rewrite H. Qed.

Lemma retained_keep (entry : dirent) (rest : list dirent) (count : Z) :
  accepted diropts pattern entry = true ->
  maxresults = 0 \/ count < maxresults ->
  retained diropts maxresults pattern (entry :: rest) count
  = entry :: retained diropts maxresults pattern rest (count + 1).
Proof.
  intros H Hc. unfold retained. cbn [List.filter]. rewrite H.
  destruct (Z.eqb_spec maxresults 0) as [Hz | Hnz]; [reflexivity|].
  replace (Z.to_nat (maxresults - count))
    with (S (Z.to_nat (maxresults - (count + 1)))) by lia.
  reflexivity.
Qed.

Lemma retained_full (stream : list dirent) :
  maxresults <> 0 -> retained diropts maxresults pattern stream maxresults = [].
Proof.
  intros H. unfold retained. rewrite Z.sub_diag.
  destruct (Z.eqb_spec maxresults 0); [contradiction | apply take_0].
Qed.

(** Only the count in 16 bits matters for what is retained without a
    limit. *)
Lemma retained_unlimited (stream : list dirent) (c1 c2 : Z) :
  maxresults = 0 ->
  retained diropts maxresults pattern stream c1
  = retained diropts maxresults pattern stream c2.
Proof. intros ->. reflexivity. Qed.

(** The load loop from any state a run can reach: it pushes the nodes of
    the passing entries that the limit still allows, each on its list,
    and counts them in 16 bits. *)
Lemma load_loop_spec :
  0 <= maxresults < 2 ^ 16 ->
  forall (stream : list dirent) (st : load_state),
    0 <= entrycount st < 2 ^ 16 ->
    (0 < maxresults -> entrycount st < maxresults) ->
    list_dirs (load_loop diropts maxresults pattern stream st)
    = rev (map node_of
             (List.filter (in_dirs_group diropts)
                (retained diropts maxresults pattern stream (entrycount st))))
      ++ list_dirs st
    /\ list_files (load_loop diropts maxresults pattern stream st)
       = rev (map node_of
                (List.filter (fun entry => negb (in_dirs_group diropts entry))
                   (retained diropts maxresults pattern stream (entrycount st))))
         ++ list_files st
    /\ entrycount (load_loop diropts maxresults pattern stream st)
       = to_uint16
           (entrycount st
            + Z.of_nat (length (retained diropts maxresults pattern stream
                                  (entrycount st)))).
Proof.
  intros Hmax. induction stream as [|entry rest IH]; intros st Hc Hlim.
  - rewrite retained_nil. cbn [load_loop List.filter map rev app length].
    rewrite Z.add_0_r, to_uint16_small by lia. auto.
  - cbn [load_loop].
    destruct (d_info entry) as [finf|] eqn:Hinfo.
    2: { rewrite retained_skip by (unfold accepted; now rewrite Hinfo).
         apply (IH {| list_dirs := list_dirs st; list_files := list_files st;
                      entrycount := entrycount st; stream_loc := d_off entry |});
           assumption. }
    destruct (entry_skipped diropts pattern (d_name entry) finf) eqn:Hskip.
    { rewrite retained_skip
        by (unfold accepted; now rewrite Hinfo, Hskip).
      apply (IH {| list_dirs := list_dirs st; list_files := list_files st;
                   entrycount := entrycount st; stream_loc := d_off entry |});
        assumption. }
    assert (Hacc : accepted diropts pattern entry = true)
      by (unfold accepted; now rewrite Hinfo, Hskip).
    assert (Hnode : node_of entry = make_node (d_name entry) finf)
      by (unfold node_of; now rewrite Hinfo).
    assert (Hgroup : in_dirs_group diropts entry = to_list_dirs diropts finf)
      by (unfold in_dirs_group; now rewrite Hinfo).
    set (st1 := if to_list_dirs diropts finf then _ else _).
    assert (Hst1 : list_dirs st1
                   = (if to_list_dirs diropts finf
                      then [node_of entry] else []) ++ list_dirs st
                   /\ list_files st1
                      = (if to_list_dirs diropts finf
                         then [] else [node_of entry]) ++ list_files st
                   /\ entrycount st1 = to_uint16 (entrycount st + 1)).
    { unfold st1. rewrite Hnode.
      destruct (to_list_dirs diropts finf); auto. }
    destruct Hst1 as (Hd1 & Hf1 & Hc1).
    rewrite retained_keep by (assumption || lia).
    cbn [List.filter]. rewrite Hgroup.
    destruct (Z.eqb_spec maxresults 0) as [Hzero | Hpos].
    + (* no limit *)
      replace ((maxresults >? 0) && (entrycount st1 >=? maxresults))
        with false by (rewrite Hzero; reflexivity).
      destruct (IH st1) as (Hd & Hf & Hcnt).
      { rewrite Hc1. apply Z.mod_pos_bound. lia. }
      { lia. }
      rewrite (retained_unlimited rest (entrycount st1) (entrycount st + 1) Hzero)
        in Hd, Hf, Hcnt.
      rewrite Hd, Hf, Hcnt, Hd1, Hf1, Hc1.
      destruct (to_list_dirs diropts finf); cbn [negb map rev length app];
        rewrite <- ?app_assoc; cbn [app];
        rewrite to_uint16_succ; repeat split; try reflexivity; f_equal; lia.
    + (* a limit *)
      assert (Hlt : entrycount st < maxresults) by lia.
      assert (Hc1' : entrycount st1 = entrycount st + 1).
      { rewrite Hc1. apply to_uint16_small. lia. }
      destruct (Z.eq_dec (entrycount st + 1) maxresults) as [Hfull | Hmore].
      * replace ((maxresults >? 0) && (entrycount st1 >=? maxresults))
          with true by (rewrite Hc1'; lia).
        rewrite Hfull, retained_full by assumption.
        rewrite Hd1, Hf1, Hc1.
        destruct (to_list_dirs diropts finf); cbn [negb map rev length app];
          repeat split; reflexivity.
      * replace ((maxresults >? 0) && (entrycount st1 >=? maxresults))
          with false by (rewrite Hc1'; lia).
        destruct (IH st1) as (Hd & Hf & Hcnt).
        { rewrite Hc1'. lia. }
        { rewrite Hc1'. lia. }
        rewrite Hc1' in Hd, Hf, Hcnt.
        rewrite Hd, Hf, Hcnt, Hd1, Hf1.
        destruct (to_list_dirs diropts finf); cbn [negb map rev length app];
          rewrite <- ?app_assoc; cbn [app];
          repeat split; try reflexivity; f_equal; lia.
Qed.
End LoadLoop.

Lemma Forall_map_filter {A B : Type} (P : B -> Prop) (g : A -> B)
    (f : A -> bool) (l : list A) :
  Forall P (map g l) -> Forall P (map g (List.filter f l)).
Proof.
  induction l as [|x l IH]; intros H; simpl in *; [constructor|].
  inversion H; subst. destruct (f x); simpl; auto.
Qed.

(** The two lists the load loop leaves are the two groups, in the order in
    which the nodes were pushed. *)
Lemma load_loop_groups (diropts maxresults : Z) (pattern : option cstr)
    (stream : list dirent) :
  0 <= maxresults < 2 ^ 16 ->
  let st := load_loop diropts maxresults pattern stream
              {| list_dirs := []; list_files := []; entrycount := 0;
                 stream_loc := 0 |} in
  list_dirs st = rev (dirs_group diropts maxresults pattern stream)
  /\ list_files st = rev (files_group diropts maxresults pattern stream)
  /\ entrycount st
     = to_uint16 (Z.of_nat (length (listed diropts maxresults pattern stream))).
Proof.
  intros Hmax st.
  destruct (load_loop_spec diropts maxresults pattern Hmax stream
              {| list_dirs := []; list_files := []; entrycount := 0;
                 stream_loc := 0 |})
    as (Hd & Hf & Hc); cbn [entrycount]; try lia.
  cbn [entrycount list_dirs list_files] in Hd, Hf, Hc.
  rewrite app_nil_r in Hd, Hf.
  unfold st, dirs_group, files_group, listed. auto.
Qed.

(** The entry list [load_entries] makes, in terms of the groups the load
    loop forms: the group of directories, then the group of files; unless
    the NONE bit of sortopt is set each group is sorted by the key sortopt
    selects, numeric keys being below 2^31, and with NONE each group is in
    the reverse of the order of the stream. *)
Lemma load_entries_code_listing (dirh : dir_handle)
    (diropts sortopts maxresults : Z) (pattern : option cstr)
    (stream : list dirent) :
  0 <= maxresults < 2 ^ 16 ->
  Forall (key_fits sortopts)
    (map node_of (listed diropts maxresults pattern stream)) ->
  let dh := load_entries dirh diropts sortopts maxresults pattern stream in
  dh_current_entry dh = dh_entry_list dh
  /\ (has_flag sortopts TNFS_DIRSORT_NONE = false ->
      listing_law diropts sortopts maxresults pattern stream (dh_entry_list dh))
  /\ (has_flag sortopts TNFS_DIRSORT_NONE = true ->
      dh_entry_list dh
      = rev (dirs_group diropts maxresults pattern stream)
        ++ rev (files_group diropts maxresults pattern stream)).
Proof.
  intros Hmax Hfit dh.
  destruct (load_loop_groups diropts maxresults pattern stream Hmax)
    as (Hd & Hf & _).
  assert (Hlist : dh_entry_list dh
                  = (if negb (has_flag sortopts TNFS_DIRSORT_NONE)
                     then dirlist_sort
                            (rev (dirs_group diropts maxresults pattern stream))
                            sortopts
                     else rev (dirs_group diropts maxresults pattern stream))
                    ++ (if negb (has_flag sortopts TNFS_DIRSORT_NONE)
                        then dirlist_sort
                               (rev (files_group diropts maxresults pattern stream))
                               sortopts
                        else rev (files_group diropts maxresults pattern stream))).
  { unfold dh, load_entries. cbn [dh_entry_list].
    rewrite dirlist_concat_app, !sort_nonempty, Hd, Hf. reflexivity. }
  split; [reflexivity|]. split.
  - intros Hnone. rewrite Hlist, Hnone. cbn [negb].
    assert (Hfd : Forall (key_fits sortopts)
                    (rev (dirs_group diropts maxresults pattern stream))).
    { apply Forall_rev. unfold dirs_group. now apply Forall_map_filter. }
    assert (Hff : Forall (key_fits sortopts)
                    (rev (files_group diropts maxresults pattern stream))).
    { apply Forall_rev. unfold files_group. now apply Forall_map_filter. }
    destruct (dirlist_sort_spec sortopts _ Hfd) as [Pd Sd].
    destruct (dirlist_sort_spec sortopts _ Hff) as [Pf Sf].
    eexists _, _. split; [reflexivity|].
    split; [rewrite Pd; symmetry; apply Permutation_rev|].
    split; [rewrite Pf; symmetry; apply Permutation_rev|].
    split; assumption.
  - intros Hnone. rewrite Hlist, Hnone. reflexivity.
Qed.

(** The sorting scenario of the specification with CASE and DESCENDING:
    the directory, then the names with their case, downwards. *)
Example load_entries_case_descending :
  map e_entrypath
    (dh_entry_list
       (load_entries blank_dhandle 0
          (Z.lor TNFS_DIRSORT_CASE TNFS_DIRSORT_DESCENDING) 0 None
          scenario_stream))
  = [cs "sub"; cs "a"; cs "C"; cs "B"].
Proof. reflexivity. Qed.

(** Sorting by size goes wrong once two sizes are 2^31 or more apart: the
    difference of the two [uint32_t] fields no longer fits the [int] it is
    assigned to. *)
Lemma size_order_wraps :
  map e_size
    (dh_entry_list
       (load_entries blank_dhandle 0 TNFS_DIRSORT_SIZE 0 None
          [plain_file "big" 3000000000 1; plain_file "empty" 0 1]))
  = [3000000000; 0].
Proof. reflexivity. Qed.

(** ** Normalizing a path *)

Lemma no_double_slash_cons (a b : ascii) (rest : cstr) :
  no_double_slash (a :: b :: rest)
  = negb (Ascii.eqb a "/" && Ascii.eqb b "/") && no_double_slash (b :: rest).
Proof. reflexivity. Qed.

Lemma normalize_loop_shape (p : cstr) :
  forall slash,
    no_double_slash (normalize_loop p slash) = true
    /\ (slash = true -> no_leading_slash (normalize_loop p slash) = true).
Proof.
  induction p as [|c rest IH]; intros slash; [split; reflexivity|].
  cbn [normalize_loop].
  destruct (Ascii.eqb_spec c "/") as [-> | Hc]; cbn [negb].
  - cbn [orb]. rewrite andb_true_r.
    destruct slash; cbn [negb].
    + apply IH.
    + destruct (IH true) as [Hd Hl]. specialize (Hl eq_refl).
      split; [|discriminate].
      destruct (normalize_loop rest true) as [|b out] eqn:E; [reflexivity|].
      rewrite no_double_slash_cons. cbn [no_leading_slash] in Hl.
      change (Ascii.eqb "/" "/") with true. cbn [andb]. now rewrite Hl, Hd.
  - destruct (IH false) as [Hd _]. split.
    + destruct (normalize_loop rest false) as [|b out] eqn:E; [reflexivity|].
      rewrite no_double_slash_cons.
      replace (Ascii.eqb c "/") with false
        by (symmetry; now apply Ascii.eqb_neq).
      cbn [andb negb]. exact Hd.
    + intros _. cbn [no_leading_slash].
      apply negb_true_iff. now apply Ascii.eqb_neq.
Qed.

Lemma normalize_loop_fixed (p : cstr) :
  forall slash,
    no_double_slash p = true ->
    (slash = true -> no_leading_slash p = true) ->
    normalize_loop p slash = p.
Proof.
  induction p as [|c rest IH]; intros slash Hd Hl; [reflexivity|].
  cbn [normalize_loop].
  assert (Hrest : no_double_slash rest = true).
  { destruct rest as [|b rest']; [reflexivity|].
    rewrite no_double_slash_cons in Hd. now apply andb_true_iff in Hd as [_ Hd]. }
  destruct (Ascii.eqb_spec c "/") as [-> | Hc]; cbn [negb].
  - cbn [orb]. rewrite andb_true_r.
    destruct slash; [specialize (Hl eq_refl); discriminate Hl|].
    cbn [negb]. f_equal. apply IH; [assumption|]. intros _.
    destruct rest as [|b rest']; [reflexivity|].
    rewrite no_double_slash_cons in Hd. apply andb_true_iff in Hd as [Hd _].
    change (Ascii.eqb "/" "/") with true in Hd. cbn [andb] in Hd. exact Hd.
  - f_equal. apply IH; [assumption | discriminate].
Qed.

(** X1: the path [normalize_path] returns never holds two slashes in a
    row. *)
Theorem normalize_path_no_double_slash (p : cstr) :
  no_double_slash (normalize_path p) = true.
Proof. apply normalize_loop_shape. Qed.

(** X2: [normalize_path] leaves a path as it is exactly when the path
    holds no two slashes in a row; normalizing twice is normalizing
    once. *)
Theorem normalize_path_fixed_points (p : cstr) :
  (normalize_path p = p <-> no_double_slash p = true)
  /\ normalize_path (normalize_path p) = normalize_path p.
Proof.
  assert (Hfix : forall q, no_double_slash q = true -> normalize_path q = q).
  { intros q Hq. apply normalize_loop_fixed; [assumption | discriminate]. }
  split; [split|].
  - intros E. rewrite <- E. apply normalize_loop_shape.
  - apply Hfix.
  - apply Hfix. apply normalize_loop_shape.
Qed.

Lemma normalize_loop_removes_slashes_only (p : cstr) :
  forall slash,
    (length (normalize_loop p slash) <= length p)%nat
    /\ non_slashes (normalize_loop p slash) = non_slashes p.
Proof.
  induction p as [|c rest IH]; intros slash; [split; reflexivity|].
  cbn [normalize_loop].
  destruct (Ascii.eqb_spec c "/") as [-> | Hc]; cbn [negb].
  - cbn [orb]. rewrite andb_true_r.
    destruct slash; cbn [negb].
    + destruct (IH true) as [Hl Hn]. split; [simpl; lia|].
      rewrite Hn. reflexivity.
    + destruct (IH true) as [Hl Hn]. split; [simpl; lia|].
      unfold non_slashes in *. cbn [List.filter].
      change (Ascii.eqb "/" "/") with true. cbn [negb]. exact Hn.
  - destruct (IH false) as [Hl Hn]. split; [simpl; lia|].
    unfold non_slashes in *. cbn [List.filter].
    replace (Ascii.eqb c "/") with false
      by (symmetry; now apply Ascii.eqb_neq).
    cbn [negb]. now rewrite Hn.
Qed.

(** X3: [normalize_path] only removes slashes: the result is not longer
    than the path, and the characters that are not slashes, backslashes
    among them, are the same in the same order. *)
Theorem normalize_path_removes_slashes_only (p : cstr) :
  (length (normalize_path p) <= length p)%nat
  /\ non_slashes (normalize_path p) = non_slashes p.
Proof. apply normalize_loop_removes_slashes_only. Qed.

(** ** The path handed to the allocation *)

Lemma normalize_loop_app (a b : cstr) :
  forall slash, exists slash',
    normalize_loop (a ++ b) slash
    = normalize_loop a slash ++ normalize_loop b slash'.
Proof.
  induction a as [|c a IH]; intros slash; [now exists slash|].
  cbn [app normalize_loop].
  destruct (negb (Ascii.eqb c "/")).
  - destruct (IH false) as [s' E]. exists s'. now rewrite E.
  - destruct (negb slash && _).
    + destruct (IH true) as [s' E]. exists s'. now rewrite E.
    + apply IH.
Qed.

Lemma is_prefix_app (a b : cstr) : is_prefix a (a ++ b) = true.
Proof.
  induction a as [|c a IH]; [reflexivity|].
  cbn [app is_prefix]. now rewrite Ascii.eqb_refl, IH.
Qed.

(** X4: when the global root holds no two slashes in a row and fits the
    path buffer, the path that [tnfs_opendir] and [tnfs_opendirx] hand to
    the allocation begins with the characters of the root and fits the
    path buffer, whatever the client sent and whatever [realpath]
    returns. *)
Theorem resolve_dirpath_begins_with_root (realpath : cstr -> cstr)
    (root realroot : cstr) (s : Session) (pDirpath : cstr) :
  no_double_slash root = true ->
  strlen root < MAX_TNFSPATH ->
  is_prefix root (resolve_dirpath realpath root realroot s pDirpath) = true
  /\ strlen (resolve_dirpath realpath root realroot s pDirpath) < MAX_TNFSPATH.
Proof.
  unfold strlen, MAX_TNFSPATH. intros Hroot Hlen. unfold resolve_dirpath.
  destruct (negb (validate_path realpath realroot _)).
  - split; [|lia]. rewrite <- (app_nil_r root) at 2. apply is_prefix_app.
  - unfold snprintf, normalize_path, MAX_TNFSPATH.
    set (rest := cs "/" ++ s_root s ++ cs "/" ++ pDirpath).
    split.
    + rewrite take_app, (take_ge root) by lia.
      destruct (normalize_loop_app root
                  (take (Z.to_nat (256 - 1) - length root) rest) false)
        as [s' ->].
      rewrite normalize_loop_fixed by (assumption || discriminate).
      apply is_prefix_app.
    + pose proof (normalize_loop_removes_slashes_only
                    (take (Z.to_nat (256 - 1)) (root ++ rest)) false)
        as [Hle _].
      rewrite length_take in Hle. lia.
Qed.

Lemma resolve_dirpath_begins_with_root_witness :
  no_double_slash (cs "/srv/tnfs") = true
  /\ strlen (cs "/srv/tnfs") < MAX_TNFSPATH
  /\ is_prefix (cs "/srv/tnfs")
       (resolve_dirpath realpath_lexical (cs "/srv/tnfs") (cs "/srv/tnfs")
          blank_session (cs "games//../x")) = true.
Proof.
  split; [reflexivity|]. split; [reflexivity|].
  apply (resolve_dirpath_begins_with_root realpath_lexical (cs "/srv/tnfs")
           (cs "/srv/tnfs") blank_session (cs "games//../x"));
    reflexivity.
Defined.

(** ** Setting the root *)

(** X5: [tnfs_setroot] returns -1 exactly for a root directory of more
    than MAX_ROOT characters.  The root it stores is a prefix of the
    directory given, of fewer than MAX_ROOT characters, and it is the
    directory given exactly when that has fewer than MAX_ROOT characters:
    a directory of exactly MAX_ROOT characters is accepted and stored
    without its last character. *)
Theorem tnfs_setroot_bound (realpath : cstr -> cstr) (rootdir : cstr) :
  (tnfs_setroot realpath rootdir = setroot_error <-> MAX_ROOT < strlen rootdir)
  /\ forall root realroot,
       tnfs_setroot realpath rootdir = setroot_ok root realroot ->
       strlen root < MAX_ROOT
       /\ is_prefix root rootdir = true
       /\ realroot = realpath rootdir
       /\ (root = rootdir <-> strlen rootdir < MAX_ROOT).
Proof.
  unfold tnfs_setroot, strlen, MAX_ROOT, strlcpy. split.
  - destruct (Z.gtb_spec (Z.of_nat (length rootdir)) 128) as [H | H].
    + split; [lia | reflexivity].
    + destruct (_ >=? 128); split; try discriminate; lia.
  - intros root realroot.
    destruct (Z.gtb_spec (Z.of_nat (length rootdir)) 128) as [H | H];
      [discriminate|].
    destruct (_ >=? 128); [discriminate|].
    intros E. injection E as <- <-.
    rewrite length_take. split; [lia|]. split.
    + rewrite <- (take_drop (Z.to_nat (128 - 1)) rootdir) at 2.
      apply is_prefix_app.
    + split; [reflexivity|]. split.
      * intros E. apply (f_equal length) in E. rewrite length_take in E. lia.
      * intros Hlt. apply take_ge. lia.
Qed.

(** ** List primitives *)

(** X6: on a list of fewer than 2^32 nodes, the index of the node that
    [dirlist_get_node_at_index] returns for [k] is [k], or the length of
    the list when [k] is not an index of it; and the node at the index of
    a node of the list is that node. *)
Theorem dirlist_index_node_round_trip (l : directory_entry_list) :
  Z.of_nat (length l) < 2 ^ 32 ->
  (forall k, 0 <= k < 2 ^ 32 ->
     dirlist_get_index_for_node l (dirlist_get_node_at_index l k)
     = Z.min k (Z.of_nat (length l)))
  /\ (forall j, (j <= length l)%nat ->
        dirlist_get_node_at_index l (dirlist_get_index_for_node l (drop j l))
        = drop j l).
Proof.
  intros Hlen.
  assert (Hidx : forall j, (j <= length l)%nat ->
                   dirlist_get_index_for_node l (drop j l) = Z.of_nat j).
  { intros j Hj. destruct (Nat.eq_dec j (length l)) as [-> | Hne].
    - rewrite drop_all. now apply dirlist_get_index_for_node_null.
    - apply dirlist_get_index_for_node_drop; lia. }
  split.
  - intros k Hk. rewrite dirlist_get_node_at_index_drop by lia.
    destruct (Z.le_gt_cases (Z.of_nat (length l)) k) as [Hge | Hlt].
    + rewrite drop_ge by lia.
      rewrite dirlist_get_index_for_node_null by assumption. lia.
    + rewrite Hidx by lia. lia.
  - intros j Hj. rewrite Hidx by assumption.
    rewrite dirlist_get_node_at_index_drop by lia.
    now rewrite Nat2Z.id.
Qed.

Lemma dirlist_index_node_round_trip_witness :
  dirlist_get_index_for_node sample_entries
    (dirlist_get_node_at_index sample_entries 2) = 2
  /\ dirlist_get_index_for_node sample_entries
       (dirlist_get_node_at_index sample_entries 7) = 3.
Proof.
  destruct (dirlist_index_node_round_trip sample_entries) as [H _].
  - simpl. lia.
  - split; [apply (H 2) | apply (H 7)]; lia.
Defined.

(** ** Sorting *)

(** X7: whatever the sort options and the entries, keys that overflow the
    comparison included, [dirlist_sort] returns a permutation of the list:
    no entry is lost, none is duplicated, and the length is kept. *)
Theorem dirlist_sort_keeps_entries (dlist : directory_entry_list) (sortopts : Z) :
  Permutation (dirlist_sort dlist sortopts) dlist
  /\ length (dirlist_sort dlist sortopts) = length dlist.
Proof.
  unfold dirlist_sort.
  pose proof (mergesort_perm sortopts dlist) as H.
  split; [exact H | now apply Permutation_length].
Qed.

(** The number of steps of the middle loop, exactly. *)
Lemma get_middle_loop_steps (n : nat) :
  forall fast slow : directory_entry_list,
    (length fast <= n)%nat -> (1 <= length fast)%nat ->
    exists k, get_middle_loop slow fast = drop k slow
              /\ (2 * k + 1 <= length fast <= 2 * k + 2)%nat.
Proof.
  induction n as [|n IH]; intros fast slow Hn H1; [lia|].
  destruct fast as [|a [|b [|c fast]]]; simpl in H1, Hn; try lia.
  - exists O. split; [reflexivity | simpl; lia].
  - exists O. split; [reflexivity | simpl; lia].
  - destruct (IH (c :: fast) (tail slow)) as (k & Hk & Hlen);
      [simpl; lia | simpl; lia |].
    exists (S k). split.
    + change (get_middle_loop slow (a :: b :: c :: fast))
        with (get_middle_loop (tail slow) (c :: fast)).
      rewrite Hk. destruct slow; simpl; rewrite ?drop_nil; reflexivity.
    + simpl in *. lia.
Qed.

(** X8: [_mergesort] cuts a list into two halves that together are the
    list, the first being as long as the second or one node longer. *)
Theorem mergesort_halves (head : directory_entry_list) :
  mergesort_left head ++ mergesort_right head = head
  /\ (length (mergesort_right head) <= length (mergesort_left head)
      <= length (mergesort_right head) + 1)%nat.
Proof.
  split; [apply mergesort_split|].
  destruct head as [|a head]; [simpl; lia|].
  unfold mergesort_left, mergesort_right, _mergesort_get_middle.
  destruct (get_middle_loop_steps (length (a :: head)) (a :: head) (a :: head))
    as (k & -> & Hk); [lia | simpl; lia |].
  assert (Htail : forall (l : directory_entry_list) j,
             length (tail (drop j l)) = (length l - S j)%nat).
  { intros l j. revert l. induction j as [|j IH]; intros [|x l]; simpl;
      try reflexivity; [lia | apply IH]. }
  rewrite length_take, Htail. lia.
Qed.

Section Ties.
Variable sortopts : Z.

Lemma merge_ties (l r : directory_entry_list) :
  (forall a b, In a l -> In b r -> ~ merge_order sortopts a b < 0) ->
  _mergesort_merge sortopts l r = r ++ l.
Proof.
  intros H. destruct l as [|a l].
  - now rewrite merge_nil_l, app_nil_r.
  - induction r as [|b r IH].
    + now rewrite merge_nil_r.
    + rewrite merge_cons.
      replace (merge_order sortopts a b <? 0) with false.
      * cbn [app]. f_equal. apply IH.
        intros x y Hx Hy. apply H; [assumption | now right].
      * symmetry. apply Z.ltb_ge.
        specialize (H a b (or_introl eq_refl) (or_introl eq_refl)). lia.
Qed.

Lemma mergesort_ties (head : directory_entry_list) :
  (forall a b, In a head -> In b head -> ~ merge_order sortopts a b < 0) ->
  _mergesort sortopts head = rev head.
Proof.
  funelim (_mergesort sortopts head); intros Hties; try reflexivity.
  pose proof (mergesort_split (x :: y :: rest)) as Hsplit.
  assert (Hin : forall a, In a (mergesort_left (x :: y :: rest))
                          \/ In a (mergesort_right (x :: y :: rest))
                          -> In a (x :: y :: rest)).
  { intros a Ha. rewrite <- Hsplit. apply in_or_app. exact Ha. }
  rewrite H, H0 by (intros a b Ha Hb; apply Hties; apply Hin; auto).
  rewrite merge_ties.
  - rewrite <- rev_app_distr, Hsplit. reflexivity.
  - intros a b Ha Hb. apply in_rev in Ha, Hb.
    apply Hties; apply Hin; auto.
Qed.
End Ties.

(** X9: the sort is not stable.  When no entry of the list compares below
    another, as when all have the same key, [dirlist_sort] returns the
    list reversed: among equal keys the later node comes first. *)
Theorem dirlist_sort_reverses_ties (dlist : directory_entry_list) (sortopts : Z) :
  (forall a b, In a dlist -> In b dlist -> merge_order sortopts a b = 0) ->
  dirlist_sort dlist sortopts = rev dlist.
Proof.
  intros H. unfold dirlist_sort. apply mergesort_ties.
  intros a b Ha Hb. rewrite (H a b Ha Hb). lia.
Qed.

Lemma dirlist_sort_reverses_ties_witness :
  dirlist_sort
    [ {| e_flags := 0; e_size := 7; e_mtime := 1; e_ctime := 1;
         e_entrypath := cs "one" |};
      {| e_flags := 0; e_size := 7; e_mtime := 2; e_ctime := 2;
         e_entrypath := cs "two" |} ] TNFS_DIRSORT_SIZE
  = rev [ {| e_flags := 0; e_size := 7; e_mtime := 1; e_ctime := 1;
             e_entrypath := cs "one" |};
          {| e_flags := 0; e_size := 7; e_mtime := 2; e_ctime := 2;
             e_entrypath := cs "two" |} ].
Proof.
  apply dirlist_sort_reverses_ties.
  intros a b [<- | [<- | []]] [<- | [<- | []]]; reflexivity.
Defined.

(** ** Loading *)

Lemma make_node_ok (name : cstr) (finf : fileinfo_t) : node_ok (make_node name finf).
Proof.
  unfold node_ok, make_node. cbn [e_entrypath e_flags]. split.
  - unfold strlcpy, strlen, MAX_FILENAME_LEN. rewrite length_take. lia.
  - destruct (has_flag (fi_flags finf) FILEINFOFLAG_DIRECTORY) eqn:Hd; auto.
Qed.

Lemma to_uint16_succ_length (n : nat) :
  to_uint16 (to_uint16 (Z.of_nat n) + 1) = to_uint16 (Z.of_nat (S n)).
Proof.
  unfold to_uint16. rewrite Nat2Z.inj_succ, Z.add_mod_idemp_l by lia.
  reflexivity.
Qed.

Lemma load_loop_inv (diropts maxresults : Z) (pattern : option cstr)
    (stream : list dirent) :
  forall st, load_inv st -> load_inv (load_loop diropts maxresults pattern stream st).
Proof.
  induction stream as [|entry rest IH]; intros st Hst; [exact Hst|].
  cbn [load_loop].
  assert (Hst0 : load_inv {| list_dirs := list_dirs st; list_files := list_files st;
                            entrycount := entrycount st; stream_loc := d_off entry |})
    by exact Hst.
  destruct (d_info entry) as [finf|]; [|now apply IH].
  destruct (entry_skipped diropts pattern (d_name entry) finf); [now apply IH|].
  destruct Hst as (Hc & Hd & Hf).
  pose proof (make_node_ok (d_name entry) finf) as Hnode.
  match goal with
  | |- load_inv (if _ then ?st1 else _) =>
      assert (Hst1 : load_inv st1); [|destruct (_ && _); [exact Hst1 | now apply IH]]
  end.
  destruct (to_list_dirs diropts finf); unfold load_inv, dirlist_push;
    cbn [list_dirs list_files entrycount length]; rewrite Hc.
  - split; [apply to_uint16_succ_length|]. split; [now constructor | assumption].
  - split; [|split; [assumption | now constructor]].
    rewrite to_uint16_succ_length. f_equal. lia.
Qed.

Lemma load_entries_shape (dirh : dir_handle) (diropts sortopts maxresults : Z)
    (pattern : option cstr) (stream : list dirent) :
  let st := load_loop diropts maxresults pattern stream
              {| list_dirs := []; list_files := []; entrycount := 0;
                 stream_loc := 0 |} in
  exists ds fs,
    load_inv st
    /\ Permutation ds (list_dirs st) /\ Permutation fs (list_files st)
    /\ dh_entry_list (load_entries dirh diropts sortopts maxresults pattern stream)
       = ds ++ fs
    /\ dh_entry_count (load_entries dirh diropts sortopts maxresults pattern stream)
       = entrycount st.
Proof.
  intros st. unfold load_entries. cbn [dh_entry_list dh_entry_count]. fold st.
  assert (Hst : load_inv st).
  { apply load_loop_inv. unfold load_inv. cbn. repeat split; constructor. }
  eexists; eexists; split; [exact Hst|].
  split; [|split; [|split; [apply dirlist_concat_app | reflexivity]]].
  - destruct (negb (has_flag sortopts TNFS_DIRSORT_NONE)); [|reflexivity].
    destruct (list_dirs st) eqn:E; [reflexivity|]. apply mergesort_perm.
  - destruct (negb (has_flag sortopts TNFS_DIRSORT_NONE)); [|reflexivity].
    destruct (list_files st) eqn:E; [reflexivity|]. apply mergesort_perm.
Qed.

Lemma load_entries_count_length (dirh : dir_handle)
    (diropts sortopts maxresults : Z) (pattern : option cstr)
    (stream : list dirent) :
  dh_entry_count (load_entries dirh diropts sortopts maxresults pattern stream)
  = to_uint16
      (Z.of_nat
         (length (dh_entry_list
                    (load_entries dirh diropts sortopts maxresults pattern stream)))).
Proof.
  destruct (load_entries_shape dirh diropts sortopts maxresults pattern stream)
    as (ds & fs & (Hc & _ & _) & Hd & Hf & -> & ->).
  rewrite Hc, length_app.
  now rewrite (Permutation_length Hd), (Permutation_length Hf).
Qed.

(** X10: whatever the stream, the options and the limit, the handle
    [_load_directory] fills reports in [entry_count] the number of nodes of
    its entry list in 16 bits, and its cursor is at the head of the list. *)
Theorem load_entries_count (dirh : dir_handle) (diropts sortopts maxresults : Z)
    (pattern : option cstr) (stream : list dirent) :
  let dh := load_entries dirh diropts sortopts maxresults pattern stream in
  dh_entry_count dh = to_uint16 (Z.of_nat (length (dh_entry_list dh)))
  /\ dh_current_entry dh = dh_entry_list dh.
Proof.
  intros dh. split; [apply load_entries_count_length | reflexivity].
Qed.

(** X11: every node of a loaded entry list has a name shorter than
    [MAX_FILENAME_LEN], and flags that are zero unless the DIRECTORY bit is
    set: the hidden and special bits of a file never reach the list. *)
Theorem load_entries_nodes (dirh : dir_handle) (diropts sortopts maxresults : Z)
    (pattern : option cstr) (stream : list dirent) :
  let dh := load_entries dirh diropts sortopts maxresults pattern stream in
  names_fit (dh_entry_list dh)
  /\ Forall (fun e => e_flags e = 0
                      \/ has_flag (e_flags e) FILEINFOFLAG_DIRECTORY = true)
       (dh_entry_list dh).
Proof.
  intros dh. subst dh.
  destruct (load_entries_shape dirh diropts sortopts maxresults pattern stream)
    as (ds & fs & (_ & Hds & Hfs) & Hd & Hf & -> & _).
  assert (Hall : Forall node_ok (ds ++ fs)).
  { apply Forall_app. split.
    - eapply Permutation_Forall; [symmetry; exact Hd | exact Hds].
    - eapply Permutation_Forall; [symmetry; exact Hf | exact Hfs]. }
  unfold names_fit. split; (eapply Forall_impl; [exact Hall|]);
    intros e [H1 H2]; assumption.
Qed.

(** X12: with a limit [maxresults] (a [uint16_t] that is not zero) the
    entry list holds as many nodes as the stream has passing entries, but
    no more than [maxresults], and [entry_count] is that number. *)
Theorem load_entries_limit (dirh : dir_handle) (diropts sortopts maxresults : Z)
    (pattern : option cstr) (stream : list dirent) :
  0 < maxresults < 2 ^ 16 ->
  let dh := load_entries dirh diropts sortopts maxresults pattern stream in
  Z.of_nat (length (dh_entry_list dh))
  = Z.min maxresults
      (Z.of_nat (length (List.filter (accepted diropts pattern) stream)))
  /\ dh_entry_count dh = Z.of_nat (length (dh_entry_list dh)).
Proof.
  intros Hmax dh.
  assert (Hlen : Z.of_nat (length (dh_entry_list dh))
                 = Z.of_nat (length (listed diropts maxresults pattern stream))).
  { subst dh.
    destruct (load_entries_shape dirh diropts sortopts maxresults pattern stream)
      as (ds & fs & _ & Hd & Hf & -> & _).
    destruct (load_loop_groups diropts maxresults pattern stream) as (H1 & H2 & _);
      [lia|].
    rewrite length_app, (Permutation_length Hd), (Permutation_length Hf), H1, H2.
    rewrite !length_rev. unfold dirs_group, files_group. rewrite !length_map.
    now rewrite List.filter_length. }
  assert (Hlisted : Z.of_nat (length (listed diropts maxresults pattern stream))
                    = Z.min maxresults
                        (Z.of_nat (length (List.filter (accepted diropts pattern)
                                             stream)))).
  { unfold listed, retained.
    destruct (Z.eqb_spec maxresults 0) as [E | _]; [lia|].
    rewrite length_take, Z.sub_0_r. lia. }
  split; [congruence|].
  subst dh. rewrite load_entries_count_length. apply to_uint16_small. lia.
Qed.

Lemma load_entries_limit_witness :
  0 < 1 < 2 ^ 16
  /\ Z.of_nat (length (dh_entry_list
                         (load_entries blank_dhandle 0 0 1 None scenario_stream)))
     = 1.
Proof.
  split; [lia|].
  exact (proj1 (load_entries_limit blank_dhandle 0 0 1 None scenario_stream
                  ltac:(lia))).
Defined.

(** ** Handle allocation *)

Lemma first_slot_some (skip : dir_handle -> bool) (slots : list dir_handle) :
  forall i0 i, first_slot skip slots i0 = Some i ->
    i0 <= i /\ exists d, slots !! Z.to_nat (i - i0) = Some d /\ skip d = false.
Proof.
  induction slots as [|d slots IH]; intros i0 i H; simpl in H; [discriminate|].
  destruct (skip d) eqn:Hd.
  - apply IH in H as (Hle & d' & Hl & Hs). split; [lia|].
    exists d'. split; [|assumption].
    replace (Z.to_nat (i - i0)) with (S (Z.to_nat (i - (i0 + 1)))) by lia.
    exact Hl.
  - injection H as <-. split; [lia|]. exists d.
    rewrite Z.sub_diag. auto.
Qed.

Lemma reuse_loop_some (slots : list dir_handle) (path : cstr)
    (diropt sortopt : Z) (pattern : option cstr) :
  forall i0 i, reuse_loop slots i0 path diropt sortopt pattern = reuse_at i ->
    i0 <= i /\ exists d, slots !! Z.to_nat (i - i0) = Some d
                         /\ reuse_test d path diropt sortopt pattern = Some true.
Proof.
  induction slots as [|d slots IH]; intros i0 i H; simpl in H; [discriminate|].
  destruct (reuse_test d path diropt sortopt pattern) as [[|]|] eqn:Hd;
    try discriminate.
  - injection H as <-. split; [lia|]. exists d. rewrite Z.sub_diag. auto.
  - apply IH in H as (Hle & d' & Hl & Hs). split; [lia|].
    exists d'. split; [|assumption].
    replace (Z.to_nat (i - i0)) with (S (Z.to_nat (i - (i0 + 1)))) by lia.
    exact Hl.
Qed.

Lemma sweep_handle_cases (now : Z) (dh : dir_handle) :
  (stale now dh = true /\ sweep_handle now dh = _tnfs_free_dir_handle dh)
  \/ (stale now dh = false /\ sweep_handle now dh = dh).
Proof.
  unfold stale, sweep_handle.
  destruct (dh_open dh); [right; auto|]. cbn [negb andb].
  destruct (dh_loaded dh && (now >? dh_open_at dh + DIR_HANDLE_TIMEOUT));
    [left | right]; auto.
Qed.

Lemma sweep_handle_not_stale (now : Z) (dh : dir_handle) :
  stale now (sweep_handle now dh) = false.
Proof.
  destruct (sweep_handle_cases now dh) as [[Hs ->] | [Hs ->]]; [|exact Hs].
  unfold stale, _tnfs_free_dir_handle. cbn [dh_open dh_loaded].
  now rewrite andb_false_r.
Qed.

(** What [_tnfs_find_free_dir_handle] does to the table, slot by slot. *)
Lemma find_free_found (now : Z) (s : Session) (path : cstr)
    (diropt sortopt : Z) (pattern : option cstr) (reuse : bool) (i : Z)
    (s1 : Session) :
  _tnfs_find_free_dir_handle now s path diropt sortopt pattern reuse = found i s1 ->
  0 <= i /\ s_root s1 = s_root s
  /\ exists d f,
       dhandles s !! Z.to_nat i = Some d
       /\ dhandles s1 = <[Z.to_nat i := f (sweep_handle now d)]>
                          (map (sweep_handle now) (dhandles s))
       /\ ((reuse = true
            /\ reuse_test (sweep_handle now d) path diropt sortopt pattern = Some true
            /\ f = (fun dhandle => set_current_entry dhandle (dh_entry_list dhandle)))
           \/ (dh_open d = false
               /\ f = (fun dhandle =>
                         _tnfs_init_dhandle now
                           (if dh_loaded dhandle then _tnfs_free_dir_handle dhandle
                            else dhandle) path diropt sortopt pattern))).
Proof.
  unfold _tnfs_find_free_dir_handle. cbn [dhandles].
  set (slots := map (sweep_handle now) (dhandles s)).
  assert (Hat : forall k d', slots !! k = Some d' ->
                  exists d, dhandles s !! k = Some d /\ d' = sweep_handle now d).
  { intros k d' H. unfold slots in H. rewrite list_lookup_fmap in H.
    destruct (dhandles s !! k) as [d|]; [|discriminate].
    injection H as <-. eauto. }
  assert (Halter : forall k d (f : dir_handle -> dir_handle),
             dhandles s !! k = Some d ->
             alter f k slots = <[k := f (sweep_handle now d)]> slots).
  { intros k d f H. unfold slots. apply list_eq. intros j.
    destruct (Nat.eq_dec j k) as [-> | Hne].
    - rewrite list_lookup_alter, list_lookup_insert_eq.
      + rewrite list_lookup_fmap, H.
        destruct (decide (k = k)); [reflexivity | congruence].
      + rewrite length_map. now apply lookup_lt_Some in H.
    - now rewrite list_lookup_alter_ne, list_lookup_insert_ne by congruence. }
  destruct (if reuse then reuse_loop slots 0 path diropt sortopt pattern
            else reuse_none) as [j| |] eqn:H1; [| |discriminate].
  - intros H. injection H as <- <-.
    destruct reuse; [|discriminate].
    apply reuse_loop_some in H1 as (Hle & d' & Hl & Ht).
    rewrite Z.sub_0_r in Hl. destruct (Hat _ _ Hl) as (d & Hd & ->).
    split; [assumption|]. split; [reflexivity|].
    exists d, (fun dhandle => set_current_entry dhandle (dh_entry_list dhandle)).
    split; [assumption|]. split;
      [cbn [update_dhandle dhandles];
       exact (Halter _ _ (fun dhandle =>
                            set_current_entry dhandle (dh_entry_list dhandle)) Hd)|].
    left. auto.
  - destruct (first_slot (fun dhandle => dh_open dhandle || dh_loaded dhandle)
                slots 0) as [j|] eqn:H2.
    + intros H. injection H as <- <-.
      apply first_slot_some in H2 as (Hle & d' & Hl & Hs).
      rewrite Z.sub_0_r in Hl. destruct (Hat _ _ Hl) as (d & Hd & ->).
      apply orb_false_iff in Hs as [Ho Hld].
      split; [assumption|]. split; [reflexivity|].
      exists d, (fun dhandle =>
                   _tnfs_init_dhandle now
                     (if dh_loaded dhandle then _tnfs_free_dir_handle dhandle
                      else dhandle) path diropt sortopt pattern).
      split; [assumption|]. split.
      * cbn [update_dhandle dhandles].
        rewrite (Halter _ d _ Hd). now rewrite Hld.
      * right. rewrite sweep_handle_open in Ho. auto.
    + destruct (first_slot dh_open slots 0) as [j|] eqn:H3; [|discriminate].
      intros H. injection H as <- <-.
      apply first_slot_some in H3 as (Hle & d' & Hl & Hs).
      rewrite Z.sub_0_r in Hl. destruct (Hat _ _ Hl) as (d & Hd & ->).
      split; [assumption|]. split; [reflexivity|].
      exists d, (fun dhandle =>
                   _tnfs_init_dhandle now
                     (if dh_loaded dhandle then _tnfs_free_dir_handle dhandle
                      else dhandle) path diropt sortopt pattern).
      split; [assumption|]. split.
      * cbn [update_dhandle dhandles].
        exact (Halter _ _ (fun dhandle =>
                 _tnfs_init_dhandle now
                   (if dh_loaded dhandle then _tnfs_free_dir_handle dhandle
                    else dhandle) path diropt sortopt pattern) Hd).
      * right. rewrite sweep_handle_open in Hs. auto.
Qed.

Lemma find_free_no_handle (now : Z) (s : Session) (path : cstr)
    (diropt sortopt : Z) (pattern : option cstr) (reuse : bool) (s1 : Session) :
  _tnfs_find_free_dir_handle now s path diropt sortopt pattern reuse = no_handle s1 ->
  s1 = s /\ Forall (fun dhandle => dh_open dhandle = true) (dhandles s).
Proof.
  unfold _tnfs_find_free_dir_handle. cbn [dhandles].
  destruct (if reuse then _ else _); try discriminate.
  destruct (first_slot (fun dhandle => dh_open dhandle || dh_loaded dhandle) _ 0);
    [discriminate|].
  destruct (first_slot dh_open _ 0) eqn:H3; [discriminate|].
  intros H. injection H as <-.
  apply first_slot_none in H3. rewrite Forall_map in H3.
  assert (Hopen : Forall (fun dhandle => dh_open dhandle = true) (dhandles s)).
  { eapply Forall_impl; [exact H3|]. intros d Hd. simpl in Hd.
    now rewrite sweep_handle_open in Hd. }
  split; [|exact Hopen].
  destruct s as [r slots]. cbn [s_root dhandles] in *. f_equal.
  clear H3. induction Hopen as [|d slots Hd _ IH]; [reflexivity|].
  cbn [map]. rewrite IH. f_equal.
  unfold sweep_handle. now rewrite Hd.
Qed.

(** X13: when [_tnfs_find_free_dir_handle] returns a slot, no slot of the
    table is left closed, loaded and older than [DIR_HANDLE_TIMEOUT]: the
    old handles have been freed, also when the allocation reuses a
    handle. *)
Theorem find_free_leaves_no_stale_handle (now : Z) (s : Session) (path : cstr)
    (diropt sortopt : Z) (pattern : option cstr) (reuse : bool) (i : Z)
    (s1 : Session) :
  _tnfs_find_free_dir_handle now s path diropt sortopt pattern reuse = found i s1 ->
  Forall (fun dhandle => stale now dhandle = false) (dhandles s1).
Proof.
  intros H. apply find_free_found in H as (_ & _ & d & f & Hd & -> & Hf).
  apply Forall_insert.
  - rewrite Forall_map. apply Forall_forall. intros x _.
    apply sweep_handle_not_stale.
  - pose proof (sweep_handle_not_stale now d) as Hs.
    destruct Hf as [(_ & _ & ->) | (_ & ->)].
    + exact Hs.
    + unfold stale, _tnfs_init_dhandle. cbn [dh_open dh_loaded dh_open_at].
      replace (now >? now + DIR_HANDLE_TIMEOUT) with false
        by (unfold DIR_HANDLE_TIMEOUT; lia).
      apply andb_false_r.
Qed.

Lemma find_free_leaves_no_stale_handle_witness :
  Forall (fun dhandle => stale 2000 dhandle = false)
    (<[Z.to_nat 1 := _tnfs_init_dhandle 2000 blank_dhandle (cs "/srv/tnfs/y") 0 0 None]>
       (dhandles sample_session)).
Proof.
  apply (find_free_leaves_no_stale_handle 2000 sample_session (cs "/srv/tnfs/y")
           0 0 None false 1
           {| s_root := [];
              dhandles := <[Z.to_nat 1 := _tnfs_init_dhandle 2000 blank_dhandle
                                            (cs "/srv/tnfs/y") 0 0 None]>
                            (dhandles sample_session) |}).
  reflexivity.
Defined.

(** X14: without a reuse request the slot [_tnfs_find_free_dir_handle]
    returns is a slot of the table that was not open; it comes back
    closed, not loaded, stamped with the current time and holding the
    path cut to the size of the field; and every handle that was open is
    left exactly as it was. *)
Theorem find_free_takes_closed_slot (now : Z) (s : Session) (path : cstr)
    (diropt sortopt : Z) (pattern : option cstr) (i : Z) (s1 : Session) :
  _tnfs_find_free_dir_handle now s path diropt sortopt pattern false = found i s1 ->
  0 <= i < Z.of_nat (length (dhandles s))
  /\ length (dhandles s1) = length (dhandles s)
  /\ (exists d, dhandle_at s i = Some d /\ dh_open d = false)
  /\ (exists dh, dhandle_at s1 i = Some dh
                 /\ dh_open dh = false /\ dh_loaded dh = false
                 /\ dh_open_at dh = now
                 /\ dh_path dh = strlcpy path MAX_TNFSPATH
                 /\ dh_diropt dh = diropt /\ dh_sortopt dh = sortopt)
  /\ (forall k dk, dhandle_at s k = Some dk -> dh_open dk = true ->
                   dhandle_at s1 k = Some dk).
Proof.
  intros H. apply find_free_found in H as (Hi & _ & d & f & Hd & Hs1 & Hf).
  destruct Hf as [(Hr & _) | (Ho & ->)]; [discriminate|].
  pose proof (lookup_lt_Some _ _ _ Hd) as Hlt.
  split; [lia|]. split; [now rewrite Hs1, length_insert, length_map|].
  split; [exists d; auto|]. split.
  - unfold dhandle_at. rewrite Hs1, list_lookup_insert_eq
      by (now rewrite length_map).
    eexists. split; [reflexivity|].
    unfold _tnfs_init_dhandle.
    cbn [dh_open dh_loaded dh_open_at dh_path dh_diropt dh_sortopt].
    assert (Hopen : dh_open (if dh_loaded (sweep_handle now d)
                             then _tnfs_free_dir_handle (sweep_handle now d)
                             else sweep_handle now d) = false).
    { destruct (dh_loaded (sweep_handle now d)); cbn [_tnfs_free_dir_handle dh_open];
        now rewrite sweep_handle_open. }
    assert (Hloaded : dh_loaded (if dh_loaded (sweep_handle now d)
                                 then _tnfs_free_dir_handle (sweep_handle now d)
                                 else sweep_handle now d) = false).
    { destruct (dh_loaded (sweep_handle now d)) eqn:E; [reflexivity | exact E]. }
    auto 10.
  - intros k dk Hk Hopen. unfold dhandle_at in *. rewrite Hs1.
    destruct (Nat.eq_dec (Z.to_nat k) (Z.to_nat i)) as [E | Hne].
    + rewrite E in Hk. congruence.
    + rewrite list_lookup_insert_ne by congruence.
      change (map (sweep_handle now) (dhandles s))
        with (sweep_handle now <$> dhandles s).
      rewrite list_lookup_fmap, Hk. cbn. f_equal.
      unfold sweep_handle. now rewrite Hopen.
Qed.

Lemma find_free_takes_closed_slot_witness :
  dhandle_at
    {| s_root := [];
       dhandles := <[Z.to_nat 1 := _tnfs_init_dhandle 2000 blank_dhandle
                                     (cs "/srv/tnfs/y") 0 0 None]>
                     (dhandles sample_session) |} 0
  = Some sample_dhandle.
Proof.
  refine (proj2 (proj2 (proj2 (proj2
            (find_free_takes_closed_slot 2000 sample_session (cs "/srv/tnfs/y")
               0 0 None 1 _ _)))) 0 sample_dhandle _ _); reflexivity.
Defined.

(** ** The session invariant *)

Lemma dhandle_ok_fields (dh dh' : dir_handle) :
  dh_entry_list dh' = dh_entry_list dh ->
  dh_current_entry dh' = dh_current_entry dh ->
  dh_entry_count dh' = dh_entry_count dh ->
  (dh_loaded dh' = false -> dh_loaded dh = false) ->
  dhandle_ok dh -> dhandle_ok dh'.
Proof.
  intros Hl Hc Hn Hld (Hcur & Hfit & Hempty & Hcount).
  unfold dhandle_ok, cursor_in_list. rewrite Hl, Hc, Hn.
  repeat split; auto.
Qed.

Lemma dhandle_ok_cursor (dh : dir_handle) (k : nat) :
  dhandle_ok dh -> dhandle_ok (set_current_entry dh (drop k (dh_entry_list dh))).
Proof.
  intros (_ & Hfit & Hempty & Hcount). split; [|auto]. now exists k.
Qed.

Lemma dhandle_ok_free (dh : dir_handle) : dhandle_ok (_tnfs_free_dir_handle dh).
Proof.
  split; [now exists O|]. split; [constructor|]. split; reflexivity.
Qed.

Lemma dhandle_ok_sweep (now : Z) (dh : dir_handle) :
  dhandle_ok dh -> dhandle_ok (sweep_handle now dh).
Proof.
  intros H. destruct (sweep_handle_cases now dh) as [[_ ->] | [_ ->]];
    [apply dhandle_ok_free | exact H].
Qed.

Lemma dhandle_ok_loaded (dirh : dir_handle) (diropts sortopts maxresults : Z)
    (pattern : option cstr) (stream : list dirent) :
  dhandle_ok
    (set_loaded
       (set_open (load_entries dirh diropts sortopts maxresults pattern stream) true)
       true).
Proof.
  split; [now exists O|]. split; [|split; [discriminate|]].
  - cbn [set_loaded set_open dh_entry_list].
    destruct (load_entries_shape dirh diropts sortopts maxresults pattern stream)
      as (ds & fs & (_ & Hds & Hfs) & Hd & Hf & Hl & _).
    change (names_fit (dh_entry_list
              (load_entries dirh diropts sortopts maxresults pattern stream))).
    rewrite Hl. apply Forall_app. split.
    + eapply Forall_impl;
        [eapply Permutation_Forall; [symmetry; exact Hd | exact Hds]|].
      now intros e [H _].
    + eapply Forall_impl;
        [eapply Permutation_Forall; [symmetry; exact Hf | exact Hfs]|].
      now intros e [H _].
  - apply (load_entries_count_length dirh diropts sortopts maxresults pattern stream).
Qed.

Lemma session_ok_at (s : Session) (h : Z) (dh : dir_handle) :
  session_ok s -> dhandle_at s h = Some dh -> dhandle_ok dh.
Proof.
  unfold session_ok, dhandle_at. intros Hs Hh.
  exact (proj1 (Forall_lookup _ _) Hs _ _ Hh).
Qed.

Lemma session_ok_set (s : Session) (h : Z) (dh : dir_handle) :
  session_ok s -> dhandle_ok dh -> session_ok (set_dhandle s h dh).
Proof. unfold session_ok, set_dhandle. cbn [dhandles]. apply Forall_insert. Qed.

Lemma pack_loop_cursor (req : Z) (l : directory_entry_list) :
  forall (cur : directory_entry_list) (st : pack_state),
    exists k : nat, cursor (pack_loop req l cur st) = drop k cur.
Proof.
  induction cur as [|e next IH]; intros st; [now exists O|].
  cbn [pack_loop].
  destruct (negb (req =? 0) && (count_sent st >=? req)); [now exists O|].
  destruct (_ >? TNFS_MAX_PAYLOAD); [now exists O|].
  match goal with |- context [pack_loop req l next ?st1] =>
    destruct (IH st1) as [k Hk] end.
  exists (S k). exact Hk.
Qed.

Lemma get_node_loop_suffix (l : directory_entry_list) :
  forall i index, exists k : nat, get_node_loop l i index = drop k l.
Proof.
  induction l as [|a l IH]; intros i index; [now exists O|].
  cbn [get_node_loop]. destruct (i <? index); [|now exists O].
  destruct (IH (to_uint32 (i + 1)) index) as [k Hk]. now exists (S k).
Qed.

(** The slot an allocation returns, in a session that satisfies the
    invariant. *)
Lemma session_ok_find_free (now : Z) (s : Session) (path : cstr)
    (diropt sortopt : Z) (pattern : option cstr) (reuse : bool) (i : Z)
    (s1 : Session) :
  session_ok s ->
  _tnfs_find_free_dir_handle now s path diropt sortopt pattern reuse = found i s1 ->
  session_ok s1
  /\ exists dh, dhandle_at s1 i = Some dh /\ dhandle_ok dh
                /\ (reuse = false ->
                    dh_entry_list dh = [] /\ dh_current_entry dh = []
                    /\ dh_loaded dh = false).
Proof.
  intros Hok H. apply find_free_found in H as (Hi & _ & d & f & Hd & Hs1 & Hf).
  pose proof (lookup_lt_Some _ _ _ Hd) as Hlt.
  assert (Hd_ok : dhandle_ok (sweep_handle now d)).
  { apply dhandle_ok_sweep. exact (proj1 (Forall_lookup _ _) Hok _ _ Hd). }
  assert (Hswept : Forall dhandle_ok (map (sweep_handle now) (dhandles s))).
  { rewrite Forall_map. eapply Forall_impl; [exact Hok|].
    intros x Hx. now apply dhandle_ok_sweep. }
  assert (Hnew : dhandle_ok (f (sweep_handle now d))
                 /\ (reuse = false ->
                     dh_entry_list (f (sweep_handle now d)) = []
                     /\ dh_current_entry (f (sweep_handle now d)) = []
                     /\ dh_loaded (f (sweep_handle now d)) = false)).
  { destruct Hf as [(-> & _ & ->) | (_ & ->)].
    - split; [|discriminate].
      apply (dhandle_ok_cursor _ O Hd_ok).
    - destruct (dh_loaded (sweep_handle now d)) eqn:Hld.
      + split; [|intros _; repeat split].
        eapply dhandle_ok_fields; [..|apply (dhandle_ok_free (sweep_handle now d))];
          auto.
      + split.
        * eapply dhandle_ok_fields; [..|exact Hd_ok]; auto.
        * intros _. cbn [_tnfs_init_dhandle dh_entry_list dh_current_entry dh_loaded].
          destruct Hd_ok as ([k Hk] & _ & Hempty & _).
          specialize (Hempty Hld). rewrite Hk, Hempty, drop_nil. auto. }
  split.
  - unfold session_ok. rewrite Hs1. apply Forall_insert; [exact Hswept | apply Hnew].
  - exists (f (sweep_handle now d)). split; [|exact Hnew].
    unfold dhandle_at. rewrite Hs1. apply list_lookup_insert_eq.
    now rewrite length_map.
Qed.

Section Handlers.
Variable now : Z.
Variable realpath : cstr -> cstr.
Variable root realroot : cstr.
Variable host_opendir : cstr -> Z + list dirent.
Variable _traverse_directory :
  dir_handle -> Z -> Z -> Z -> option cstr -> Z * dir_handle.

Lemma closedir_keeps_ok (s s1 : Session) (buf : list Z) (sent : list Reply) :
  session_ok s -> tnfs_closedir s buf = Done s1 sent -> session_ok s1.
Proof.
  intros Hok. unfold tnfs_closedir, ebadf.
  destruct buf as [|h [|? ?]]; try (intros H; injection H as <- _; exact Hok).
  destruct (h >? MAX_DHND_PER_CONN); [intros H; injection H as <- _; exact Hok|].
  destruct (dhandle_at s h) as [dh|] eqn:Hh; [|discriminate].
  destruct (negb (dh_open dh)); intros H; injection H as <- _; [exact Hok|].
  apply session_ok_set; [exact Hok|].
  eapply dhandle_ok_fields; [..|exact (session_ok_at _ _ _ Hok Hh)]; auto.
Qed.

Lemma seekdir_keeps_ok (s s1 : Session) (buf : list Z) (sent : list Reply) :
  session_ok s -> tnfs_seekdir s buf = Done s1 sent -> session_ok s1.
Proof.
  intros Hok. unfold tnfs_seekdir, ebadf.
  destruct buf as [|h [|b0 [|b1 [|b2 [|b3 [|? ?]]]]]];
    try (intros H; injection H as <- _; exact Hok).
  destruct (h >? MAX_DHND_PER_CONN); [intros H; injection H as <- _; exact Hok|].
  destruct (dhandle_at s h) as [dh|] eqn:Hh; [|discriminate].
  pose proof (session_ok_at _ _ _ Hok Hh) as Hdh.
  destruct (negb (dh_open dh)); [intros H; injection H as <- _; exact Hok|].
  destruct (dh_entry_list dh) as [|e l] eqn:Hl.
  - destruct (dh_handle dh); intros H; injection H as <- _; [|exact Hok].
    apply session_ok_set; [exact Hok|].
    eapply dhandle_ok_fields; [..|exact Hdh]; auto.
  - intros H. injection H as <- _.
    apply session_ok_set; [exact Hok|].
    unfold dirlist_get_node_at_index.
    match goal with
    | |- context [get_node_loop ?l0 ?i0 ?x0] =>
        destruct (get_node_loop_suffix l0 i0 x0) as [k Hk]; rewrite Hk
    end.
    rewrite <- Hl. now apply dhandle_ok_cursor.
Qed.
Lemma telldir_keeps_session (s s1 : Session) (buf : list Z) (sent : list Reply) :
  tnfs_telldir s buf = Done s1 sent -> s1 = s.
Proof.
  unfold tnfs_telldir, ebadf.
  destruct buf as [|h [|? ?]]; try (intros H; now injection H as <- _).
  destruct (h >? MAX_DHND_PER_CONN); [intros H; now injection H as <- _|].
  destruct (dhandle_at s h) as [dh|]; [|discriminate].
  destruct (negb (dh_open dh)); [intros H; now injection H as <- _|].
  destruct (dh_entry_list dh), (dh_handle dh); intros H; now injection H as <- _.
Qed.

Lemma readdirx_keeps_ok (s s1 : Session) (buf : list Z) (sent : list Reply) :
  session_ok s -> tnfs_readdirx s buf = Done s1 sent -> session_ok s1.
Proof.
  intros Hok. unfold tnfs_readdirx, ebadf.
  destruct buf as [|sid [|req [|? ?]]];
    try (intros H; injection H as <- _; exact Hok).
  destruct (sid >? MAX_DHND_PER_CONN); [intros H; injection H as <- _; exact Hok|].
  destruct (dhandle_at s sid) as [dh|] eqn:Hh; [|discriminate].
  pose proof (session_ok_at _ _ _ Hok Hh) as Hdh.
  intros H. injection H as <- _.
  apply session_ok_set; [exact Hok|].
  match goal with
  | |- context [pack_loop ?r ?l0 ?c0 ?st0] =>
      destruct (pack_loop_cursor r l0 c0 st0) as [k Hk]; rewrite Hk
  end.
  destruct Hdh as ([j Hj] & Hrest). rewrite Hj, drop_drop.
  apply dhandle_ok_cursor. split; [now exists j | exact Hrest].
Qed.

Lemma opendir_keeps_ok (s s1 : Session) (buf : list Z) (sent : list Reply) :
  session_ok s ->
  tnfs_opendir now realpath root realroot host_opendir s buf = Done s1 sent ->
  session_ok s1.
Proof.
  intros Hok. unfold tnfs_opendir.
  destruct (negb (bool_decide (last buf = Some 0)));
    [intros H; injection H as <- _; exact Hok|].
  destruct (_tnfs_find_free_dir_handle now s _ 0 0 None false)
    as [i s2|s2|] eqn:Hfind; [| |discriminate].
  - destruct (session_ok_find_free _ _ _ _ _ _ _ _ _ Hok Hfind)
      as (Hok2 & dh & Hdh & Hdh_ok & _).
    rewrite Hdh.
    destruct (host_opendir (dh_path dh)); intros H; injection H as <- _;
      [exact Hok2|].
    apply session_ok_set; [exact Hok2|].
    eapply dhandle_ok_fields; [..|exact Hdh_ok]; auto.
  - apply find_free_no_handle in Hfind as [-> _].
    intros H. injection H as <- _. exact Hok.
Qed.

Lemma opendirx_keeps_ok (s s1 : Session) (buf : list Z) (sent : list Reply) :
  (forall dh diropts sortopts maxresults pattern,
      dhandle_ok dh ->
      dhandle_ok (snd (_traverse_directory dh diropts sortopts maxresults pattern))) ->
  session_ok s ->
  tnfs_opendirx now realpath root realroot host_opendir _traverse_directory s buf
  = Done s1 sent ->
  session_ok s1.
Proof.
  intros Htrav Hok. unfold tnfs_opendirx.
  destruct ((Z.of_nat (length buf) <? 7) || negb (bool_decide (last buf = Some 0)));
    [intros H; injection H as <- _; exact Hok|].
  set (pPattern := if _ : bool then None else Some _).
  set (path := resolve_dirpath _ _ _ _ _).
  set (diropts := nth 0 buf 0). set (sortopts := nth 1 buf 0).
  set (maxresults := tnfs16uint (drop 2 buf)).
  destruct (_tnfs_find_free_dir_handle now s path diropts sortopts pPattern
              (has_flag diropts TNFS_DIROPT_TRAVERSE))
    as [i s2|s2|] eqn:Hfind; [| |discriminate].
  - destruct (session_ok_find_free _ _ _ _ _ _ _ _ _ Hok Hfind)
      as (Hok2 & dh & Hdh & Hdh_ok & Hfresh).
    rewrite Hdh.
    assert (Hres : forall result dh1,
               dhandle_ok dh1 \/ (result = 0 /\ dhandle_ok (set_loaded (set_open dh1 true) true)) ->
               (if to_uint8 result =? 0
                then Done (set_dhandle s2 i (set_loaded (set_open dh1 true) true))
                       [tnfs_send TNFS_SUCCESS
                          (data (to_uint8 i :: uint16tnfs (dh_entry_count dh1)))]
                else Done (set_dhandle s2 i dh1)
                       [tnfs_send (tnfs_error (to_uint8 result)) no_data])
               = Done s1 sent -> session_ok s1).
    { intros result dh1 Hdh1.
      destruct (to_uint8 result =? 0) eqn:Hz; intros H; injection H as <- _;
        apply session_ok_set; try exact Hok2.
      - destruct Hdh1 as [Hdh1 | [_ Hdh1]]; [|exact Hdh1].
        eapply dhandle_ok_fields; [..|exact Hdh1]; auto. discriminate.
      - destruct Hdh1 as [Hdh1 | [-> _]]; [exact Hdh1 | discriminate]. }
    destruct (has_flag diropts TNFS_DIROPT_TRAVERSE) eqn:Ht.
    + destruct (dh_loaded dh).
      * apply Hres. now left.
      * specialize (Htrav dh diropts sortopts maxresults pPattern Hdh_ok).
        destruct (_traverse_directory dh diropts sortopts maxresults pPattern)
          as [result dh1].
        apply Hres. now left.
    + destruct (Hfresh eq_refl) as (Hl & Hc & Hld).
      unfold _load_directory.
      destruct (host_opendir (dh_path dh)) as [errno|stream].
      * apply Hres. left.
        split; [exists O; cbn; now rewrite Hc, Hl|].
        cbn [dh_entry_list dh_loaded dh_entry_count]. rewrite Hl.
        split; [constructor|]. split; reflexivity.
      * apply Hres. right. split; [reflexivity | apply dhandle_ok_loaded].
  - apply find_free_no_handle in Hfind as [-> _].
    intros H. injection H as <- _. exact Hok.
Qed.
End Handlers.

Lemma set_dhandle_shape (s : Session) (h : Z) (dh : dir_handle) :
  length (dhandles (set_dhandle s h dh)) = length (dhandles s)
  /\ s_root (set_dhandle s h dh) = s_root s.
Proof. unfold set_dhandle. cbn [dhandles s_root]. now rewrite length_insert. Qed.

Lemma find_free_shape (now : Z) (s : Session) (path : cstr)
    (diropt sortopt : Z) (pattern : option cstr) (reuse : bool) (i : Z)
    (s1 : Session) :
  _tnfs_find_free_dir_handle now s path diropt sortopt pattern reuse = found i s1 ->
  length (dhandles s1) = length (dhandles s) /\ s_root s1 = s_root s.
Proof.
  intros H. apply find_free_found in H as (_ & Hr & d & f & _ & -> & _).
  now rewrite length_insert, length_map.
Qed.

Ltac handler_done :=
  let H := fresh in
  intros H; injection H as <- _;
  try (split; reflexivity);
  try apply set_dhandle_shape.

Lemma cursor_handlers_keep_shape (handler : Session -> list Z -> outcome)
    (s s1 : Session) (buf : list Z) (sent : list Reply) :
  In handler cursor_handlers -> handler s buf = Done s1 sent ->
  length (dhandles s1) = length (dhandles s) /\ s_root s1 = s_root s.
Proof.
  intros [<- | [<- | [<- | [<- | []]]]];
    unfold tnfs_closedir, tnfs_seekdir, tnfs_telldir, tnfs_readdirx, ebadf;
    repeat match goal with
           | |- context [match ?x with _ => _ end] => destruct x
           end;
    try discriminate; handler_done.
Qed.

Section HandlersShape.
Variable now : Z.
Variable realpath : cstr -> cstr.
Variable root realroot : cstr.
Variable host_opendir : cstr -> Z + list dirent.
Variable _traverse_directory :
  dir_handle -> Z -> Z -> Z -> option cstr -> Z * dir_handle.

Lemma opendir_keeps_shape (s s1 : Session) (buf : list Z) (sent : list Reply) :
  tnfs_opendir now realpath root realroot host_opendir s buf = Done s1 sent ->
  length (dhandles s1) = length (dhandles s) /\ s_root s1 = s_root s.
Proof.
  unfold tnfs_opendir.
  destruct (negb (bool_decide (last buf = Some 0))); [handler_done|].
  destruct (_tnfs_find_free_dir_handle now s _ 0 0 None false)
    as [i s2|s2|] eqn:Hfind; [| |discriminate].
  - apply find_free_shape in Hfind as [Hlen Hroot].
    destruct (dhandle_at s2 i) as [dh|]; [|discriminate].
    destruct (host_opendir (dh_path dh)); intros H; injection H as <- _;
      [auto|].
    destruct (set_dhandle_shape s2 i
                (set_open (set_handle dh (Some {| dir_loc := 0 |})) true)).
    split; congruence.
  - apply find_free_no_handle in Hfind as [-> _]. handler_done.
Qed.

Lemma opendirx_keeps_shape (s s1 : Session) (buf : list Z) (sent : list Reply) :
  tnfs_opendirx now realpath root realroot host_opendir _traverse_directory s buf
  = Done s1 sent ->
  length (dhandles s1) = length (dhandles s) /\ s_root s1 = s_root s.
Proof.
  unfold tnfs_opendirx.
  destruct ((Z.of_nat (length buf) <? 7) || negb (bool_decide (last buf = Some 0)));
    [handler_done|].
  destruct (_tnfs_find_free_dir_handle now s _ _ _ _ _)
    as [i s2|s2|] eqn:Hfind; [| |discriminate].
  - apply find_free_shape in Hfind as [Hlen Hroot].
    destruct (dhandle_at s2 i) as [dh|]; [|discriminate].
    match goal with
    | |- context [let '(_, _) := ?x in _] => destruct x as [result dh1]
    end.
    destruct (to_uint8 result =? 0); intros H; injection H as <- _;
      match goal with
      | |- context [set_dhandle s2 i ?d] =>
          destruct (set_dhandle_shape s2 i d); split; congruence
      end.
  - apply find_free_no_handle in Hfind as [-> _]. handler_done.
Qed.
End HandlersShape.

(** X15: the invariant of the handle table.  Every handler of a directory
    command keeps the number of slots and the mount point of the session,
    and keeps, for every slot: the cursor points into the entry list or
    past its end; the names of the list fit a reply; a slot that is not
    loaded has no list; and [entry_count] is the length of the list in 16
    bits.  The recursive loader of [traverse.c] is taken to keep these of
    the handle it fills. *)
Theorem directory_handlers_keep_invariant (now : Z) (realpath : cstr -> cstr)
    (root realroot : cstr) (host_opendir : cstr -> Z + list dirent)
    (_traverse_directory :
       dir_handle -> Z -> Z -> Z -> option cstr -> Z * dir_handle)
    (handler : Session -> list Z -> outcome)
    (s s1 : Session) (buf : list Z) (sent : list Reply) :
  (forall dh diropts sortopts maxresults pattern,
      dhandle_ok dh ->
      dhandle_ok (snd (_traverse_directory dh diropts sortopts maxresults pattern))) ->
  In handler (directory_handlers now realpath root realroot host_opendir
                _traverse_directory) ->
  session_ok s ->
  handler s buf = Done s1 sent ->
  session_ok s1
  /\ length (dhandles s1) = length (dhandles s)
  /\ s_root s1 = s_root s.
Proof.
  intros Htrav Hin Hok Hrun. unfold directory_handlers in Hin.
  apply in_app_or in Hin as [Hin | [<- | [<- | []]]].
  - split; [|now apply (cursor_handlers_keep_shape handler s s1 buf sent)].
    destruct Hin as [<- | [<- | [<- | [<- | []]]]].
    + now apply (closedir_keeps_ok s s1 buf sent).
    + now apply (seekdir_keeps_ok s s1 buf sent).
    + now rewrite (telldir_keeps_session s s1 buf sent Hrun).
    + now apply (readdirx_keeps_ok s s1 buf sent).
  - split; [eapply opendir_keeps_ok | eapply opendir_keeps_shape]; eassumption.
  - split; [eapply opendirx_keeps_ok | eapply opendirx_keeps_shape]; eassumption.
Qed.

Lemma directory_handlers_keep_invariant_witness :
  session_ok session_empty_dir.
Proof.
  refine (proj1 (directory_handlers_keep_invariant 1000 realpath_lexical
                   (cs "/srv/tnfs") (cs "/srv/tnfs") empty_host no_traverse
                   (tnfs_opendirx 1000 realpath_lexical (cs "/srv/tnfs")
                      (cs "/srv/tnfs") empty_host no_traverse)
                   blank_session session_empty_dir opendirx_plain
                   [tnfs_send TNFS_SUCCESS (data [0; 0; 0])] _ _ _ _)).
  - intros dh diropts sortopts maxresults pattern H. exact H.
  - unfold directory_handlers. apply in_or_app. right. right. left. reflexivity.
  - unfold session_ok, blank_session. cbn [dhandles].
    apply Forall_replicate.
    split; [now exists O|]. split; [constructor|]. split; reflexivity.
  - reflexivity.
Defined.

(** ** Replies and frames of the handlers *)

Ltac handler_cases :=
  repeat match goal with
         | |- context [match ?x with _ => _ end] => destruct x eqn:?
         end.

(** X16: CLOSEDIR, SEEKDIR, TELLDIR and READDIRX have one way to fail:
    when such a handler sends no success reply, it has sent the single
    reply EBADF and the session is unchanged. *)
Theorem cursor_handlers_fail_with_ebadf (handler : Session -> list Z -> outcome)
    (s s1 : Session) (buf : list Z) (sent : list Reply) :
  In handler cursor_handlers ->
  handler s buf = Done s1 sent ->
  Forall (fun r => r_status r <> TNFS_SUCCESS) sent ->
  s1 = s /\ sent = [tnfs_send TNFS_EBADF no_data].
Proof.
  intros [<- | [<- | [<- | [<- | []]]]];
    unfold tnfs_closedir, tnfs_seekdir, tnfs_telldir, tnfs_readdirx, ebadf;
    handler_cases; try discriminate;
    intros H; injection H as <- <-; intros Hall; try (split; reflexivity);
    exfalso; cbn [app] in Hall; rewrite List.Forall_forall in Hall;
    first [ now apply (Hall _ (or_introl eq_refl))
          | now apply (Hall _ (or_intror (or_introl eq_refl))) ].
Qed.

Lemma cursor_handlers_fail_with_ebadf_witness :
  blank_session = blank_session
  /\ [tnfs_send TNFS_EBADF no_data] = [tnfs_send TNFS_EBADF no_data].
Proof.
  apply (cursor_handlers_fail_with_ebadf tnfs_telldir blank_session
           blank_session [0] [tnfs_send TNFS_EBADF no_data]).
  - unfold cursor_handlers. right. right. left. reflexivity.
  - reflexivity.
  - constructor; [discriminate | constructor].
Defined.

(** X17: the handlers other than READDIRX send exactly one reply for a
    request. *)
Theorem one_reply_per_request (now : Z) (realpath : cstr -> cstr)
    (root realroot : cstr) (host_opendir : cstr -> Z + list dirent)
    (_traverse_directory :
       dir_handle -> Z -> Z -> Z -> option cstr -> Z * dir_handle)
    (handler : Session -> list Z -> outcome)
    (s s1 : Session) (buf : list Z) (sent : list Reply) :
  In handler [tnfs_closedir; tnfs_seekdir; tnfs_telldir;
              tnfs_opendir now realpath root realroot host_opendir;
              tnfs_opendirx now realpath root realroot host_opendir
                _traverse_directory] ->
  handler s buf = Done s1 sent ->
  exists r, sent = [r].
Proof.
  intros [<- | [<- | [<- | [<- | [<- | []]]]]];
    unfold tnfs_closedir, tnfs_seekdir, tnfs_telldir, tnfs_opendir, tnfs_opendirx,
      ebadf;
    handler_cases; try discriminate;
    intros H; injection H as <- <-; eauto.
Qed.

Lemma one_reply_per_request_witness :
  exists r, [tnfs_send TNFS_SUCCESS (data [0; 0; 0])] = [r].
Proof.
  apply (one_reply_per_request 1000 realpath_lexical (cs "/srv/tnfs")
           (cs "/srv/tnfs") empty_host no_traverse
           (tnfs_opendirx 1000 realpath_lexical (cs "/srv/tnfs") (cs "/srv/tnfs")
              empty_host no_traverse)
           blank_session session_empty_dir opendirx_plain).
  - do 4 right. left. reflexivity.
  - reflexivity.
Defined.

(** X18: CLOSEDIR, SEEKDIR, TELLDIR and READDIRX touch one slot, the one
    the first byte of the request names, and of that slot only the open
    flag, the cursor and the native stream: its path, pattern, options,
    time stamp, entry list, count and loaded flag stay, as do all the
    other slots. *)
Theorem cursor_handlers_frame (handler : Session -> list Z -> outcome)
    (s s1 : Session) (buf : list Z) (sent : list Reply) :
  In handler cursor_handlers ->
  handler s buf = Done s1 sent ->
  (forall k : nat, k <> Z.to_nat (hd 0 buf) -> dhandles s1 !! k = dhandles s !! k)
  /\ (forall dh, dhandle_at s (hd 0 buf) = Some dh ->
        exists dh1, dhandle_at s1 (hd 0 buf) = Some dh1 /\ same_listing dh dh1).
Proof.
  assert (Hset : forall h dh dh',
             dhandle_at s h = Some dh -> same_listing dh dh' ->
             (forall k : nat, k <> Z.to_nat h ->
                dhandles (set_dhandle s h dh') !! k = dhandles s !! k)
             /\ (forall dh0, dhandle_at s h = Some dh0 ->
                   exists dh1, dhandle_at (set_dhandle s h dh') h = Some dh1
                               /\ same_listing dh0 dh1)).
  { intros h dh dh' Hh Hsame. split.
    - intros k Hk. unfold set_dhandle. cbn [dhandles].
      apply list_lookup_insert_ne. congruence.
    - intros dh0 Hh0. exists dh'. split; [now apply (dhandle_at_set_eq s h dh)|].
      congruence. }
  assert (Hid : forall h,
             (forall k : nat, k <> Z.to_nat h -> dhandles s !! k = dhandles s !! k)
             /\ (forall dh0, dhandle_at s h = Some dh0 ->
                   exists dh1, dhandle_at s h = Some dh1 /\ same_listing dh0 dh1)).
  { intros h. split; [reflexivity|]. intros dh0 H. exists dh0.
    split; [assumption|]. repeat split. }
  intros [<- | [<- | [<- | [<- | []]]]];
    unfold tnfs_closedir, tnfs_seekdir, tnfs_telldir, tnfs_readdirx, ebadf;
    handler_cases; try discriminate;
    intros H; injection H as <- _; subst; cbn [hd];
    try apply Hid;
    (eapply Hset; [eassumption | repeat split]).
Qed.

Lemma cursor_handlers_frame_witness :
  exists dh1, dhandle_at (set_dhandle sample_session 0 (set_open sample_dhandle false)) 0
              = Some dh1
              /\ same_listing sample_dhandle dh1.
Proof.
  refine (proj2 (cursor_handlers_frame tnfs_closedir sample_session _ [0]
                   [tnfs_send TNFS_SUCCESS no_data] _ _) sample_dhandle _).
  - left. reflexivity.
  - reflexivity.
  - reflexivity.
Defined.

(** X19: once CLOSEDIR has succeeded on a handle, a second CLOSEDIR, a
    SEEKDIR and a TELLDIR on it are answered with EBADF and change
    nothing; READDIRX does not look at the open flag and still sends what
    it would have sent before the handle was closed. *)
Theorem closed_handle_requests (s s1 : Session) (h req b0 b1 b2 b3 : Z) :
  tnfs_closedir s [h] = Done s1 [tnfs_send TNFS_SUCCESS no_data] ->
  tnfs_closedir s1 [h] = ebadf s1
  /\ tnfs_seekdir s1 [h; b0; b1; b2; b3] = ebadf s1
  /\ tnfs_telldir s1 [h] = ebadf s1
  /\ replies_of (tnfs_readdirx s1 [h; req]) = replies_of (tnfs_readdirx s [h; req])
  /\ replies_of (tnfs_readdirx s [h; req]) <> [tnfs_send TNFS_EBADF no_data].
Proof.
  unfold tnfs_closedir, tnfs_seekdir, tnfs_telldir, tnfs_readdirx, ebadf.
  destruct (h >? MAX_DHND_PER_CONN) eqn:Hh; [discriminate|].
  destruct (dhandle_at s h) as [dh|] eqn:Hdh; [|discriminate].
  destruct (negb (dh_open dh)) eqn:Ho; [discriminate|].
  intros H. injection H as <-.
  rewrite (dhandle_at_set_eq s h dh _ Hdh).
  cbn [set_open dh_open negb dh_current_entry dh_entry_list replies_of].
  repeat split.
  destruct (dh_current_entry dh); cbn [app]; discriminate.
Qed.

Lemma closed_handle_requests_witness :
  tnfs_telldir (set_dhandle sample_session 0 (set_open sample_dhandle false)) [0]
  = ebadf (set_dhandle sample_session 0 (set_open sample_dhandle false)).
Proof.
  refine (proj1 (proj2 (proj2
            (closed_handle_requests sample_session _ 0 0 0 0 0 0 _)))).
  reflexivity.
Defined.

(** ** OPENDIR and OPENDIRX *)

Lemma find_free_all_open (now : Z) (s : Session) (path : cstr)
    (diropt sortopt : Z) (pattern : option cstr) :
  Forall (fun dhandle => dh_open dhandle = true) (dhandles s) ->
  _tnfs_find_free_dir_handle now s path diropt sortopt pattern false = no_handle s.
Proof.
  intros Hopen.
  destruct (proj2 (find_free_none_iff_all_open now s path diropt sortopt pattern)
              Hopen) as [s1 H].
  rewrite H. f_equal. now apply find_free_no_handle in H as [-> _].
Qed.

Section OpenSuccess.
Variable now : Z.
Variable realpath : cstr -> cstr.
Variable root realroot : cstr.
Variable host_opendir : cstr -> Z + list dirent.
Variable _traverse_directory :
  dir_handle -> Z -> Z -> Z -> option cstr -> Z * dir_handle.

(** What an allocation without reuse gives the two handlers. *)
Lemma find_free_fresh (s s2 : Session) (path : cstr) (diropt sortopt : Z)
    (pattern : option cstr) (i : Z) :
  _tnfs_find_free_dir_handle now s path diropt sortopt pattern false = found i s2 ->
  0 <= i < Z.of_nat (length (dhandles s))
  /\ exists d0 dh,
       dhandle_at s i = Some d0 /\ dh_open d0 = false
       /\ dhandle_at s2 i = Some dh
       /\ dh_open dh = false /\ dh_open_at dh = now
       /\ dh_diropt dh = diropt /\ dh_sortopt dh = sortopt
       /\ dh_path dh = strlcpy path MAX_TNFSPATH
       /\ (forall dh' k dk, dhandle_at s k = Some dk -> dh_open dk = true ->
                            dhandle_at (set_dhandle s2 i dh') k = Some dk)
       /\ (forall k dk, dhandle_at s k = Some dk -> dh_open dk = true ->
                        dhandle_at s2 k = Some dk).
Proof.
  intros H. apply find_free_found in H as (Hi & _ & d & f & Hd & Hs2 & Hf).
  destruct Hf as [(Hr & _) | (Ho & ->)]; [discriminate|].
  pose proof (lookup_lt_Some _ _ _ Hd) as Hlt.
  split; [lia|]. exists d. eexists.
  split; [exact Hd|]. split; [exact Ho|].
  split; [unfold dhandle_at; rewrite Hs2; apply list_lookup_insert_eq;
          now rewrite length_map|].
  assert (Hkeep : forall k dk, dhandle_at s k = Some dk -> dh_open dk = true ->
                    Z.to_nat k <> Z.to_nat i
                    /\ map (sweep_handle now) (dhandles s) !! Z.to_nat k = Some dk).
  { intros k dk Hk Hopen. unfold dhandle_at in Hk. split.
    - intros E. rewrite E in Hk. congruence.
    - change (map (sweep_handle now) (dhandles s))
        with (sweep_handle now <$> dhandles s).
      rewrite list_lookup_fmap, Hk. cbn. f_equal.
      unfold sweep_handle. now rewrite Hopen. }
  unfold _tnfs_init_dhandle. cbn [dh_open dh_open_at dh_diropt dh_sortopt dh_path].
  repeat split.
  - destruct (dh_loaded (sweep_handle now d));
      cbn [_tnfs_free_dir_handle dh_open]; now rewrite sweep_handle_open.
  - intros dh' k dk Hk Hopen. destruct (Hkeep k dk Hk Hopen) as [Hne Hl].
    unfold dhandle_at, set_dhandle. cbn [dhandles].
    rewrite Hs2, !list_lookup_insert_ne by congruence. exact Hl.
  - intros k dk Hk Hopen. destruct (Hkeep k dk Hk Hopen) as [Hne Hl].
    unfold dhandle_at. rewrite Hs2, list_lookup_insert_ne by congruence. exact Hl.
Qed.

(** X21: what a successful OPENDIRX without TRAVERSE leaves.  The reply
    names a slot that was not open, with the count of its entries; the
    slot is now open and loaded, stamped with the current time, holds the
    two option bytes of the request and the list of a directory the host
    could open, with the cursor at its head; and every handle that was
    open is exactly as it was.  A failing [opendir] of the host is taken
    to set an [errno] of 1 to 255. *)
Theorem opendirx_success (s s1 : Session) (buf : list Z) (r : Reply) :
  (forall path errno, host_opendir path = inl errno -> 0 < errno < 256) ->
  session_wf s ->
  has_flag (nth 0 buf 0) TNFS_DIROPT_TRAVERSE = false ->
  tnfs_opendirx now realpath root realroot host_opendir _traverse_directory s buf
  = Done s1 [r] ->
  r_status r = TNFS_SUCCESS ->
  exists i d0 dh stream,
    0 <= i < Z.of_nat (length (dhandles s))
    /\ dhandle_at s i = Some d0 /\ dh_open d0 = false
    /\ dhandle_at s1 i = Some dh
    /\ r_payload r = data (i :: uint16tnfs (dh_entry_count dh))
    /\ dh_open dh = true /\ dh_loaded dh = true
    /\ dh_open_at dh = now
    /\ dh_diropt dh = nth 0 buf 0 /\ dh_sortopt dh = nth 1 buf 0
    /\ host_opendir (dh_path dh) = inr stream
    /\ dh_current_entry dh = dh_entry_list dh
    /\ dh_entry_count dh = to_uint16 (Z.of_nat (length (dh_entry_list dh)))
    /\ names_fit (dh_entry_list dh)
    /\ (forall k dk, dhandle_at s k = Some dk -> dh_open dk = true ->
                     dhandle_at s1 k = Some dk).
Proof.
  intros Herrno Hsize Ht. unfold session_wf, MAX_DHND_PER_CONN in Hsize.
  unfold tnfs_opendirx.
  destruct ((Z.of_nat (length buf) <? 7) || negb (bool_decide (last buf = Some 0)));
    [intros H; injection H as <- <-; discriminate|].
  rewrite Ht.
  set (pPattern := if _ : bool then None else Some _).
  set (path := resolve_dirpath _ _ _ _ _).
  set (diropts := nth 0 buf 0) in *. set (sortopts := nth 1 buf 0).
  set (maxresults := tnfs16uint (drop 2 buf)).
  destruct (_tnfs_find_free_dir_handle now s path diropts sortopts pPattern false)
    as [i s2|s2|] eqn:Hfind; [| intros H; injection H as <- <-; discriminate
                              | discriminate].
  apply find_free_fresh in Hfind
    as (Hi & d0 & dh & Hd0 & Ho0 & Hdh & Hodh & Hat & Hdo & Hso & Hpath & Hkeep & _).
  rewrite Hdh. unfold _load_directory.
  destruct (host_opendir (dh_path dh)) as [errno|stream] eqn:Hhost.
  - apply Herrno in Hhost.
    replace (to_uint8 errno =? 0) with false
      by (symmetry; apply Z.eqb_neq; rewrite to_uint8_small; lia).
    intros H; injection H as <- <-; discriminate.
  - change (to_uint8 0 =? 0) with true. cbv iota.
    intros H. injection H as <- <-. intros _.
    pose proof (dhandle_ok_loaded dh diropts sortopts maxresults pPattern stream)
      as (_ & Hfit & _ & Hcount).
    exists i, d0. eexists. exists stream.
    split; [exact Hi|]. split; [exact Hd0|]. split; [exact Ho0|].
    split; [apply (dhandle_at_set_eq s2 i dh _ Hdh)|].
    split; [cbn [r_payload tnfs_send]; now rewrite to_uint8_small by lia|].
    split; [reflexivity|]. split; [reflexivity|].
    split; [exact Hat|]. split; [exact Hdo|]. split; [exact Hso|].
    split; [exact Hhost|]. split; [reflexivity|].
    split; [exact Hcount|]. split; [exact Hfit|].
    apply Hkeep.
Qed.

(** X22: what a successful OPENDIR leaves.  The reply names a slot that
    was not open; the slot is now open on the native stream of the resolved
    path, cut to the size of the field, with its position at the start;
    and every handle that was open is exactly as it was.  When OPENDIR
    fails, the handles that were open are as they were too. *)
Theorem opendir_outcome (s s1 : Session) (buf : list Z) (r : Reply) :
  session_wf s ->
  tnfs_opendir now realpath root realroot host_opendir s buf = Done s1 [r] ->
  (forall k dk, dhandle_at s k = Some dk -> dh_open dk = true ->
                dhandle_at s1 k = Some dk)
  /\ (r_status r = TNFS_SUCCESS ->
      exists i d0 dh,
        0 <= i < Z.of_nat (length (dhandles s))
        /\ dhandle_at s i = Some d0 /\ dh_open d0 = false
        /\ dhandle_at s1 i = Some dh
        /\ r_payload r = data [i]
        /\ dh_open dh = true
        /\ dh_handle dh = Some {| dir_loc := 0 |}
        /\ dh_path dh
           = strlcpy (resolve_dirpath realpath root realroot s (c_string buf))
               MAX_TNFSPATH
        /\ dh_diropt dh = 0 /\ dh_sortopt dh = 0 /\ dh_open_at dh = now).
Proof.
  intros Hsize. unfold session_wf, MAX_DHND_PER_CONN in Hsize.
  unfold tnfs_opendir.
  destruct (negb (bool_decide (last buf = Some 0)));
    [intros H; injection H as <- <-; split; [auto | discriminate]|].
  set (path := resolve_dirpath _ _ _ _ _).
  destruct (_tnfs_find_free_dir_handle now s path 0 0 None false)
    as [i s2|s2|] eqn:Hfind; [| |discriminate].
  - apply find_free_fresh in Hfind
      as (Hi & d0 & dh & Hd0 & Ho0 & Hdh & Hodh & Hat & Hdo & Hso & Hpath
          & Hkeep & Hkeep2).
    rewrite Hdh.
    destruct (host_opendir (dh_path dh)) as [errno|stream];
      intros H; injection H as <- <-.
    + split; [exact Hkeep2 | discriminate].
    + split; [apply Hkeep|]. intros _.
      exists i, d0. eexists.
      split; [exact Hi|]. split; [exact Hd0|]. split; [exact Ho0|].
      split; [apply (dhandle_at_set_eq s2 i dh _ Hdh)|].
      split; [cbn [r_payload tnfs_send]; now rewrite to_uint8_small by lia|].
      cbn [set_open set_handle dh_open dh_handle dh_path dh_diropt dh_sortopt
           dh_open_at].
      auto 10.
  - apply find_free_no_handle in Hfind as [-> _].
    intros H; injection H as <- <-. split; [auto | discriminate].
Qed.
End OpenSuccess.

Lemma opendirx_success_witness :
  exists i d0 dh stream,
    0 <= i < Z.of_nat (length (dhandles blank_session))
    /\ dhandle_at blank_session i = Some d0 /\ dh_open d0 = false
    /\ dhandle_at session_empty_dir i = Some dh
    /\ r_payload (tnfs_send TNFS_SUCCESS (data [0; 0; 0]))
       = data (i :: uint16tnfs (dh_entry_count dh))
    /\ dh_open dh = true /\ dh_loaded dh = true
    /\ dh_open_at dh = 1000
    /\ dh_diropt dh = nth 0 opendirx_plain 0 /\ dh_sortopt dh = nth 1 opendirx_plain 0
    /\ empty_host (dh_path dh) = inr stream
    /\ dh_current_entry dh = dh_entry_list dh
    /\ dh_entry_count dh = to_uint16 (Z.of_nat (length (dh_entry_list dh)))
    /\ names_fit (dh_entry_list dh)
    /\ (forall k dk, dhandle_at blank_session k = Some dk -> dh_open dk = true ->
                     dhandle_at session_empty_dir k = Some dk).
Proof.
  apply (opendirx_success 1000 realpath_lexical (cs "/srv/tnfs") (cs "/srv/tnfs")
           empty_host no_traverse blank_session session_empty_dir opendirx_plain
           (tnfs_send TNFS_SUCCESS (data [0; 0; 0]))).
  - intros path errno H. discriminate.
  - reflexivity.
  - reflexivity.
  - reflexivity.
  - reflexivity.
Defined.

Lemma opendir_outcome_witness :
  dhandle_at
    (set_dhandle sample_session 1
       (set_open
          (set_handle
             (_tnfs_init_dhandle 1000 blank_dhandle
                (resolve_dirpath realpath_lexical (cs "/srv/tnfs")
                   (cs "/srv/tnfs") sample_session (c_string [120; 0]))
                0 0 None)
             (Some {| dir_loc := 0 |})) true)) 0
  = Some sample_dhandle.
Proof.
  refine (proj1 (opendir_outcome 1000 realpath_lexical (cs "/srv/tnfs")
                   (cs "/srv/tnfs") empty_host sample_session _ [120; 0]
                   (tnfs_send TNFS_SUCCESS (data [1])) _ _) 0 sample_dhandle _ _);
    reflexivity.
Defined.

Lemma c_string_terminated (bytes rest : list Z) :
  Forall (fun b => b <> 0) bytes ->
  c_string (bytes ++ 0 :: rest) = map ascii_of_byte bytes.
Proof.
  induction 1 as [|b bytes Hb _ IH]; [reflexivity|].
  cbn [app c_string map]. rewrite IH.
  now destruct (Z.eqb_spec b 0).
Qed.

(** X23: an OPENDIRX request that carries one string is read as a request
    for that path without a pattern, the same as the request with an empty
    pattern before the path; but a path of fewer than two bytes is
    refused in that form, the request being shorter than seven bytes. *)
Theorem opendirx_one_string_request (now : Z) (realpath : cstr -> cstr)
    (root realroot : cstr) (host_opendir : cstr -> Z + list dirent)
    (_traverse_directory :
       dir_handle -> Z -> Z -> Z -> option cstr -> Z * dir_handle)
    (s : Session) (diropts sortopts m0 m1 : Z) (path : list Z) :
  Forall (fun b => b <> 0) path ->
  tnfs_opendirx now realpath root realroot host_opendir _traverse_directory s
    ([diropts; sortopts; m0; m1] ++ path ++ [0])
  = if (length path <? 2)%nat
    then Done s [tnfs_send TNFS_EINVAL no_data]
    else tnfs_opendirx now realpath root realroot host_opendir
           _traverse_directory s
           ([diropts; sortopts; m0; m1; 0] ++ path ++ [0]).
Proof.
  intros Hpath. unfold tnfs_opendirx.
  assert (Hlast : forall pre : list Z,
             negb (bool_decide (last (pre ++ path ++ [0]) = Some 0)) = false).
  { intros pre. rewrite app_assoc, last_snoc. reflexivity. }
  rewrite !Hlast, !orb_false_r.
  rewrite !length_app. cbn [length app drop nth]. rewrite ?drop_0.
  destruct (Nat.ltb_spec (length path) 2) as [Hshort | Hlong].
  - destruct (Z.ltb_spec (Z.of_nat (4 + (length path + 1))) 7); [|lia].
    reflexivity.
  - destruct (Z.ltb_spec (Z.of_nat (4 + (length path + 1))) 7); [lia|].
    destruct (Z.ltb_spec (Z.of_nat (5 + (length path + 1))) 7); [lia|].
    cbn [c_string]. change (0 =? 0) with true. cbv iota.
    rewrite (c_string_terminated path [] Hpath).
    unfold strlen. rewrite length_map. cbn [length].
    replace (Z.of_nat (length path) + 5 =? Z.of_nat (4 + (length path + 1)))
      with true by (symmetry; apply Z.eqb_eq; lia).
    replace (Z.of_nat 0 + 5 =? Z.of_nat (5 + (length path + 1)))
      with false by (symmetry; apply Z.eqb_neq; lia).
    cbn [orb]. change (Z.of_nat 0 =? 0) with true.
    replace (drop (4 + Z.to_nat (Z.of_nat 0) + 1)
               (diropts :: sortopts :: m0 :: m1 :: 0 :: path ++ [0]))
      with (path ++ [0]) by reflexivity.
    rewrite (c_string_terminated path [] Hpath).
    reflexivity.
Qed.

Lemma opendirx_one_string_request_witness :
  tnfs_opendirx 1000 realpath_lexical (cs "/srv/tnfs") (cs "/srv/tnfs")
    two_files_host no_traverse blank_session ([0; 0; 0; 0] ++ [120; 121] ++ [0])
  = tnfs_opendirx 1000 realpath_lexical (cs "/srv/tnfs") (cs "/srv/tnfs")
      two_files_host no_traverse blank_session ([0; 0; 0; 0; 0] ++ [120; 121] ++ [0]).
Proof.
  apply (opendirx_one_string_request 1000 realpath_lexical (cs "/srv/tnfs")
           (cs "/srv/tnfs") two_files_host no_traverse blank_session 0 0 0 0
           [120; 121]).
  repeat constructor; discriminate.
Defined.

(** ** Reading a directory to its end *)

(** One READDIRX on a handle whose names fit: the batch is a prefix of
    what is left, not empty unless nothing is left. *)
Lemma readdirx_step (s : Session) (h req : Z) (dh : dir_handle) :
  (h >? MAX_DHND_PER_CONN) = false ->
  dhandle_at s h = Some dh ->
  names_fit (dh_current_entry dh) ->
  0 <= req ->
  exists (k : nat) rx,
    tnfs_readdirx s [h; req]
    = Done (set_dhandle s h (set_current_entry dh (drop k (dh_current_entry dh))))
        (match dh_current_entry dh with
         | [] => [tnfs_send TNFS_EOF no_data]
         | _ :: _ => []
         end ++ [tnfs_send TNFS_SUCCESS (readdirx_data rx)])
    /\ rx_entries rx = take k (dh_current_entry dh)
    /\ (has_flag (rx_dir_status rx) TNFS_DIRSTATUS_EOF = true
        <-> drop k (dh_current_entry dh) = [])
    /\ (dh_current_entry dh <> [] -> (1 <= k)%nat).
Proof.
  intros Hh Hdh Hfit Hreq. unfold tnfs_readdirx. rewrite Hh, Hdh. cbv zeta.
  set (st0 := {| count_sent := 0; total_size := READDIRX_HEADER_SIZE;
                 dirpos := None; packed := []; cursor := dh_current_entry dh |}).
  destruct (pack_loop_spec req (dh_entry_list dh) (dh_current_entry dh) st0)
    as (k & Hpacked & Hcursor & Hcount & Htotal & Hmax & _ & Hstop & _);
    try (cbn; unfold READDIRX_HEADER_SIZE, READDIRX_ENTRY_SIZE, TNFS_MAX_PAYLOAD,
           MAXMSGSZ, TNFS_HEADERSZ; lia).
  exists k. eexists. split; [rewrite Hcursor; reflexivity|].
  cbn [rx_entries rx_dir_status]. split; [exact Hpacked|]. split.
  - destruct (drop k (dh_current_entry dh)).
    + split; reflexivity.
    + split; discriminate.
  - intros Hne. destruct k as [|k]; [exfalso | lia].
    rewrite drop_0 in Hstop. rewrite take_0 in Htotal.
    change (wire_sum []) with 0 in Htotal.
    destruct Hstop as [[Hr Hc] | [(e & rest & He & Hbig) | He]].
    + rewrite Hcount in Hc. cbn in Hc. lia.
    + rewrite Htotal in Hbig. rewrite He in Hfit.
      apply Forall_inv in Hfit. cbn in Hbig.
      unfold entry_wire_size, READDIRX_HEADER_SIZE, READDIRX_ENTRY_SIZE,
        TNFS_MAX_PAYLOAD, MAXMSGSZ, TNFS_HEADERSZ, MAX_FILENAME_LEN in *.
      lia.
    + contradiction.
Qed.

Lemma readdirx_all_spec (h req : Z) :
  (h >? MAX_DHND_PER_CONN) = false -> 0 <= req ->
  forall (fuel : nat) (s : Session) (dh : dir_handle),
    dhandle_at s h = Some dh ->
    names_fit (dh_current_entry dh) ->
    (length (dh_current_entry dh) < fuel)%nat ->
    readdirx_all fuel s h req = Some (dh_current_entry dh).
Proof.
  intros Hh Hreq. induction fuel as [|fuel IH]; intros s dh Hdh Hfit Hfuel; [lia|].
  cbn [readdirx_all].
  destruct (readdirx_step s h req dh Hh Hdh Hfit Hreq)
    as (k & rx & -> & Hrx & Heof & Hk).
  destruct (dh_current_entry dh) as [|e cur] eqn:Hcur; [reflexivity|].
  cbn [app r_status r_payload tnfs_send].
  specialize (Hk ltac:(discriminate)).
  destruct (has_flag (rx_dir_status rx) TNFS_DIRSTATUS_EOF) eqn:Hflag.
  - rewrite Hrx. f_equal.
    rewrite <- (take_drop k (e :: cur)) at 2.
    rewrite (proj1 Heof eq_refl). now rewrite app_nil_r.
  - rewrite (IH _ (set_current_entry dh (drop k (e :: cur)))).
    + cbn [set_current_entry dh_current_entry option_map]. f_equal.
      rewrite Hrx. apply take_drop.
    + apply (dhandle_at_set_eq s h dh _ Hdh).
    + cbn [set_current_entry dh_current_entry]. now apply Forall_drop.
    + cbn [set_current_entry dh_current_entry]. rewrite length_drop.
      cbn [length] in *. lia.
Qed.

(** X24: a client that repeats READDIRX on a handle, for any batch size,
    until it is told that the end is reached, receives the entries from
    the cursor to the end of the list, each once and in list order, within
    as many requests as there are entries left plus one.  The names are
    taken to fit a reply, as [_load_directory] leaves them. *)
Theorem readdirx_all_enumerates (s : Session) (h req_count : Z) (dh : dir_handle)
    (fuel : nat) :
  0 <= h <= MAX_DHND_PER_CONN ->
  0 <= req_count ->
  dhandle_at s h = Some dh ->
  names_fit (dh_current_entry dh) ->
  (length (dh_current_entry dh) < fuel)%nat ->
  readdirx_all fuel s h req_count = Some (dh_current_entry dh).
Proof.
  intros Hh Hreq Hdh Hfit Hfuel.
  apply readdirx_all_spec; try assumption.
  unfold MAX_DHND_PER_CONN in *. lia.
Qed.

Lemma readdirx_all_enumerates_witness :
  readdirx_all 3 sample_session 0 1 = Some (drop 1 sample_entries).
Proof.
  apply (readdirx_all_enumerates sample_session 0 1 sample_dhandle 3).
  - unfold MAX_DHND_PER_CONN. lia.
  - lia.
  - reflexivity.
  - repeat constructor.
  - cbn. lia.
Defined.

(** ** Glob matching on any name *)

Lemma tolower_idem (c : ascii) : tolower (tolower c) = tolower c.
Proof. destruct c as [[] [] [] [] [] [] [] []]; reflexivity. Qed.

Lemma tolower_not_upper_a (c : ascii) : tolower c <> "A"%char.
Proof. destruct c as [[] [] [] [] [] [] [] []]; discriminate. Qed.

Lemma tolower_star (c : ascii) :
  Ascii.eqb (tolower c) "*" = Ascii.eqb c "*".
Proof. destruct c as [[] [] [] [] [] [] [] []]; reflexivity. Qed.

Lemma tolower_question (c : ascii) :
  Ascii.eqb (tolower c) "?" = Ascii.eqb c "?".
Proof. destruct c as [[] [] [] [] [] [] [] []]; reflexivity. Qed.

Lemma char_at_tolower (s : cstr) (k : nat) :
  char_at (map tolower s) k = tolower (char_at s k).
Proof. unfold char_at. exact (map_nth tolower s zero k). Qed.

Lemma for_from_1_ext {St : Type} (hi : nat) (body body' : nat -> St -> St)
    (init : St) :
  (forall k st, body k st = body' k st) ->
  for_from_1 hi body init = for_from_1 hi body' init.
Proof.
  intros H. induction hi as [|hi IH]; [reflexivity|].
  now rewrite !for_from_1_S, IH, H.
Qed.

(** The test of the inner loop sees the two characters up to case only. *)
Lemma cell_test_tolower (a b : ascii) :
  Ascii.eqb a b || Ascii.eqb (tolower a) (tolower b)
  = Ascii.eqb (tolower a) (tolower b).
Proof.
  destruct (Ascii.eqb_spec a b) as [-> | _]; [|reflexivity].
  now rewrite Ascii.eqb_refl.
Qed.

Lemma match_cell_tolower_src (src pattern : cstr) (i j : nat) (lookup : table) :
  match_cell (map tolower src) pattern i j lookup = match_cell src pattern i j lookup.
Proof.
  unfold match_cell. rewrite char_at_tolower.
  rewrite <- !orb_assoc, !cell_test_tolower, tolower_idem. reflexivity.
Qed.

Lemma match_cell_tolower_pattern (src pattern : cstr) (i j : nat) (lookup : table) :
  match_cell src (map tolower pattern) i j lookup = match_cell src pattern i j lookup.
Proof.
  unfold match_cell. rewrite char_at_tolower, tolower_star, tolower_question.
  rewrite <- !orb_assoc, !cell_test_tolower, tolower_idem. reflexivity.
Qed.

Lemma pattern_match_tolower_src (src pattern : cstr) :
  _pattern_match (map tolower src) pattern = _pattern_match src pattern.
Proof.
  unfold _pattern_match. rewrite length_map.
  destruct (length pattern =? 0)%nat; [reflexivity|]. cbv zeta.
  rewrite (for_from_1_ext (length src)
             (fun i lookup =>
                for_from_1 (length pattern) (match_cell (map tolower src) pattern i)
                  lookup)
             (fun i lookup =>
                for_from_1 (length pattern) (match_cell src pattern i) lookup));
    [reflexivity|].
  intros i st. apply for_from_1_ext. intros j st'. apply match_cell_tolower_src.
Qed.

Lemma pattern_match_tolower_pattern (src pattern : cstr) :
  _pattern_match src (map tolower pattern) = _pattern_match src pattern.
Proof.
  unfold _pattern_match. rewrite length_map.
  destruct (length pattern =? 0)%nat; [reflexivity|].
  assert (Hrow : forall init : table,
             for_from_1 (length pattern)
               (fun j lookup =>
                  if Ascii.eqb (char_at (map tolower pattern) (j - 1)) "*"
                  then table_set lookup 0 j (lookup 0%nat (j - 1)%nat)
                  else lookup) init
             = for_from_1 (length pattern)
                 (fun j lookup =>
                    if Ascii.eqb (char_at pattern (j - 1)) "*"
                    then table_set lookup 0 j (lookup 0%nat (j - 1)%nat)
                    else lookup) init).
  { intros init. apply for_from_1_ext. intros j st.
    now rewrite char_at_tolower, tolower_star. }
  cbv zeta. rewrite Hrow.
  rewrite (for_from_1_ext (length src)
             (fun i lookup =>
                for_from_1 (length pattern) (match_cell src (map tolower pattern) i)
                  lookup)
             (fun i lookup =>
                for_from_1 (length pattern) (match_cell src pattern i) lookup));
    [reflexivity|].
  intros i st. apply for_from_1_ext. intros j st'. apply match_cell_tolower_pattern.
Qed.

(** The match in terms of the name in lower case, which holds no [A]. *)
Lemma pattern_match_lower (src pattern : cstr) :
  _pattern_match src pattern = true
  <-> glob_match "A" pattern (map tolower src).
Proof.
  rewrite <- pattern_match_tolower_src.
  apply pattern_match_glob.
  intros H. apply in_map_iff in H as (c & Hc & _).
  now apply tolower_not_upper_a in Hc.
Qed.

Lemma glob_lower_any (pattern lowered : cstr) :
  glob_match "A" pattern lowered ->
  forall src, lowered = map tolower src -> glob_any pattern src.
Proof.
  induction 1 as [|p s w H IH|p s c Hc H IH|x p s c Hx Hq Hl H IH];
    intros src E.
  - symmetry in E. apply map_eq_nil in E as ->. constructor.
  - symmetry in E. apply map_eq_app in E as (w' & s' & -> & _ & E).
    apply glob_any_star. apply IH. now symmetry.
  - destruct src as [|c' src]; [discriminate|]. injection E as -> E.
    apply glob_any_question. now apply IH.
  - destruct src as [|c' src]; [discriminate|]. injection E as -> E.
    apply glob_any_literal; [assumption.. | | now apply IH].
    now rewrite Hl, tolower_idem.
Qed.

Lemma glob_any_lower (pattern src : cstr) :
  glob_any pattern src -> glob_match "A" pattern (map tolower src).
Proof.
  induction 1 as [|p s w H IH|p s c H IH|x p s c Hx Hq Hl H IH].
  - constructor.
  - rewrite map_app. now apply glob_star.
  - cbn [map]. apply glob_question; [apply tolower_not_upper_a | assumption].
  - cbn [map]. apply glob_literal; [assumption.. | | assumption].
    now rewrite tolower_idem.
Qed.

(** X25: for every name and every pattern, [_pattern_match] returns true
    exactly when the pattern matches the whole name as a glob in which
    [*] stands for any sequence of characters, [?] for any one character,
    a path separator included, and any other character for itself up to
    case. *)
Theorem pattern_match_any_name (name pattern : cstr) :
  _pattern_match name pattern = true <-> glob_any pattern name.
Proof.
  rewrite pattern_match_lower. split.
  - intros H. now apply (glob_lower_any pattern (map tolower name)).
  - apply glob_any_lower.
Qed.

(** X26: [_pattern_match] does not see the case of letters, in the name
    or in the pattern: two names that are equal up to case and two
    patterns that are equal up to case give the same answer. *)
Theorem pattern_match_ignores_case (name name' pattern pattern' : cstr) :
  map tolower name = map tolower name' ->
  map tolower pattern = map tolower pattern' ->
  _pattern_match name pattern = _pattern_match name' pattern'.
Proof.
  intros Hn Hp.
  rewrite <- (pattern_match_tolower_src name), <- (pattern_match_tolower_src name').
  rewrite <- (pattern_match_tolower_pattern _ pattern),
    <- (pattern_match_tolower_pattern _ pattern').
  now rewrite Hn, Hp.
Qed.

Lemma pattern_match_ignores_case_witness :
  _pattern_match (cs "ReadMe.TXT") (cs "*.txt")
  = _pattern_match (cs "README.txt") (cs "*.TXT").
Proof.
  apply pattern_match_ignores_case; reflexivity.
Defined.

Lemma glob_literal_pattern (sep : ascii) (pattern : cstr) :
  literal_pattern pattern ->
  forall s, ~ In sep s ->
    glob_match sep pattern s <-> map tolower s = map tolower pattern.
Proof.
  induction 1 as [|x p [Hs Hq] Hp IH]; intros s Hsep.
  - rewrite glob_nil_l. split; [now intros -> | now intros H%map_eq_nil].
  - split.
    + intros H. inversion H as [|? ? ? ?|? ? ? ? ?|x' p' s' c Hx' Hq' Hl H'];
        subst; try congruence.
      cbn [map]. rewrite <- Hl. f_equal. apply IH; [|assumption].
      intros Hin. apply Hsep. now right.
    + destruct s as [|c s]; [discriminate|]. cbn [map]. intros E.
      injection E as Hc E.
      apply glob_literal; [assumption.. | now symmetry |].
      apply IH; [|assumption]. intros Hin. apply Hsep. now right.
Qed.

(** X27: a pattern without [*] and [?] matches exactly the names that are
    equal to it up to case. *)
Theorem pattern_match_literal (name pattern : cstr) :
  literal_pattern pattern ->
  (_pattern_match name pattern = true <-> map tolower name = map tolower pattern).
Proof.
  intros Hlit. rewrite pattern_match_lower.
  rewrite (glob_literal_pattern "A" pattern Hlit).
  - now rewrite map_map, (map_ext _ _ tolower_idem).
  - intros H. apply in_map_iff in H as (c & Hc & _).
    now apply tolower_not_upper_a in Hc.
Qed.

Lemma pattern_match_literal_witness :
  _pattern_match (cs "Makefile") (cs "makefile") = true.
Proof.
  apply (pattern_match_literal (cs "Makefile") (cs "makefile")).
  - repeat constructor; discriminate.
  - reflexivity.
Defined.

(** X28: a star at an end of the pattern.  [*] followed by [p] matches a
    name exactly when [p] matches one of its suffixes, and [p] followed by
    [*] exactly when [p] matches one of its prefixes; the pattern [*]
    alone matches every name. *)
Theorem pattern_match_star_at_end (name p : cstr) :
  (_pattern_match name ("*"%char :: p) = true
   <-> exists k : nat, _pattern_match (drop k name) p = true)
  /\ (_pattern_match name (p ++ ["*"%char]) = true
      <-> exists k : nat, _pattern_match (take k name) p = true)
  /\ _pattern_match name ["*"%char] = true.
Proof.
  split; [|split].
  - rewrite pattern_match_lower. split.
    + intros H.
      inversion H as [|p' s w H' E1 E2|? ? ? ? ?|? ? ? ? ? ? ? ?]; subst;
        try congruence.
      symmetry in E2. apply map_eq_app in E2 as (w' & s' & -> & <- & <-).
      exists (length w'). rewrite drop_app_length.
      now apply pattern_match_lower.
    + intros [k Hk]. apply pattern_match_lower in Hk.
      rewrite <- (take_drop k name), map_app. now apply glob_star.
  - rewrite pattern_match_lower. split.
    + intros H. apply glob_app_inv in H as (s1 & s2 & E & H1 & _).
      apply map_eq_app in E as (w' & s' & -> & <- & <-).
      exists (length w'). rewrite take_app_length.
      now apply pattern_match_lower.
    + intros [k Hk]. apply pattern_match_lower in Hk.
      rewrite <- (take_drop k name), map_app.
      apply glob_app; [assumption | apply glob_one_star].
  - apply pattern_match_lower. apply glob_one_star.
Qed.

(** ** The code's filters and the specification's *)

Lemma filter_selection {A : Type} (P : A -> Prop) (f : A -> bool) (l : list A) :
  (forall x, In x l -> (f x = true <-> P x)) ->
  selection P l (List.filter f l).
Proof.
  induction l as [|x l IH]; intros H; cbn [List.filter]; [constructor|].
  assert (IH' : selection P l (List.filter f l))
    by (apply IH; intros y Hy; apply H; now right).
  destruct (f x) eqn:Hx.
  - apply selection_keep; [now apply H; [left|] | exact IH'].
  - apply selection_skip; [|exact IH'].
    intros HP. apply H in HP; [congruence | now left].
Qed.

(** The three filters of the load loop are step 3. *)
Lemma filters_spec (diropts : Z) (finf : fileinfo_t) :
  (negb (has_flag diropts TNFS_DIROPT_NO_SKIPHIDDEN)
   && has_flag (fi_flags finf) FILEINFOFLAG_HIDDEN)
  || (negb (has_flag diropts TNFS_DIROPT_NO_SKIPSPECIAL)
      && has_flag (fi_flags finf) FILEINFOFLAG_SPECIAL)
  || (has_flag diropts TNFS_DIROPT_NO_FOLDERS
      && has_flag (fi_flags finf) FILEINFOFLAG_DIRECTORY) = false
  <-> ~ spec_skips diropts finf.
Proof.
  unfold spec_skips.
  destruct (has_flag diropts TNFS_DIROPT_NO_SKIPHIDDEN),
    (has_flag (fi_flags finf) FILEINFOFLAG_HIDDEN),
    (has_flag diropts TNFS_DIROPT_NO_SKIPSPECIAL),
    (has_flag (fi_flags finf) FILEINFOFLAG_SPECIAL),
    (has_flag diropts TNFS_DIROPT_NO_FOLDERS),
    (has_flag (fi_flags finf) FILEINFOFLAG_DIRECTORY); cbn;
    intuition congruence.
Qed.

(** The first [continue] of the load loop is step 4. *)
Lemma pattern_skips_spec (sep : ascii) (diropts : Z) (pattern name : cstr)
    (finf : fileinfo_t) :
  ~ In sep name ->
  pattern_skips diropts (request_pattern pattern) name finf = false
  <-> (pattern <> [] -> spec_pattern_applies diropts finf ->
       glob_match sep pattern name).
Proof.
  intros Hsep. unfold pattern_skips, spec_pattern_applies.
  destruct pattern as [|c p]; cbn [request_pattern].
  - destruct (_ || _); split; congruence.
  - pose proof (pattern_match_glob sep name (c :: p) Hsep) as Hm.
    destruct (has_flag diropts TNFS_DIROPT_DIR_PATTERN),
      (has_flag (fi_flags finf) FILEINFOFLAG_DIRECTORY); cbn [orb negb];
      try (rewrite negb_false_iff, Hm; split;
           [intros H _ _; exact H | intros H; apply H; [discriminate | auto]]).
    split; [|reflexivity]. intros _ _ [H | H]; discriminate.
Qed.

Lemma accepted_spec (sep : ascii) (diropts : Z) (pattern : cstr) (entry : dirent) :
  ~ In sep (d_name entry) ->
  accepted diropts (request_pattern pattern) entry = true
  <-> spec_accepts sep diropts pattern entry.
Proof.
  intros Hsep. unfold accepted, spec_accepts.
  destruct (d_info entry) as [finf|].
  - unfold entry_skipped. rewrite negb_true_iff, <- !orb_assoc, orb_false_iff.
    rewrite (pattern_skips_spec sep) by assumption.
    rewrite !orb_assoc, filters_spec. split.
    + intros [Hp Hf]. exists finf. auto.
    + intros (finf' & E & Hf & Hp). injection E as <-. auto.
  - split; [discriminate | intros (finf & E & _); discriminate].
Qed.

Lemma in_dirs_group_spec (diropts : Z) (entry : dirent) :
  in_dirs_group diropts entry = spec_in_dirs diropts entry.
Proof. reflexivity. Qed.

Lemma listed_truncate (diropts maxresults : Z) (pattern : option cstr)
    (stream : list dirent) :
  listed diropts maxresults pattern stream
  = spec_truncate maxresults (List.filter (accepted diropts pattern) stream).
Proof.
  unfold listed, retained, spec_truncate. now rewrite Z.sub_0_r.
Qed.

Lemma listed_incl (diropts maxresults : Z) (pattern : option cstr)
    (stream : list dirent) (entry : dirent) :
  In entry (listed diropts maxresults pattern stream) ->
  In entry stream /\ accepted diropts pattern entry = true.
Proof.
  rewrite listed_truncate. unfold spec_truncate. intros H.
  apply filter_In.
  destruct (maxresults =? 0); [exact H|].
  rewrite <- (take_drop (Z.to_nat maxresults)
                (List.filter (accepted diropts pattern) stream)).
  apply in_or_app. now left.
Qed.

(** A node shows of its entry what the specification's view holds. *)
Lemma node_view (entry : dirent) :
  d_info entry <> None ->
  strlen (d_name entry) < MAX_FILENAME_LEN ->
  entry_view (node_of entry) = spec_view entry.
Proof.
  unfold entry_view, spec_view, node_of, make_node, strlen, MAX_FILENAME_LEN.
  intros Hinfo Hlen. destruct (d_info entry) as [finf|]; [|congruence].
  cbn [e_entrypath e_flags e_size e_mtime e_ctime].
  unfold strlcpy. rewrite take_ge by lia.
  destruct (has_flag (fi_flags finf) FILEINFOFLAG_DIRECTORY) eqn:Hd;
    [now rewrite Hd | reflexivity].
Qed.

Lemma node_key_fits (sortopts : Z) (entry : dirent) :
  d_info entry <> None ->
  stat_key_fits sortopts entry -> key_fits sortopts (node_of entry).
Proof.
  unfold stat_key_fits, key_fits, node_of, make_node.
  destruct (d_info entry) as [finf|]; [|congruence]. intros _ H. exact H.
Qed.

(** The groups the load loop forms are the groups of the specification. *)
Lemma code_groups_spec (sep : ascii) (diropts maxresults : Z) (pattern : cstr)
    (stream : list dirent) :
  stream_names_ok sep stream ->
  exists dirs files,
    spec_groups sep diropts maxresults pattern stream dirs files
    /\ dirs_group diropts maxresults (request_pattern pattern) stream
       = map node_of dirs
    /\ files_group diropts maxresults (request_pattern pattern) stream
       = map node_of files
    /\ map entry_view (map node_of dirs) = map spec_view dirs
    /\ map entry_view (map node_of files) = map spec_view files
    /\ (forall sortopts, Forall (stat_key_fits sortopts) stream ->
          Forall (key_fits sortopts)
            (map node_of
               (listed diropts maxresults (request_pattern pattern) stream))).
Proof.
  intros Hnames.
  set (l := listed diropts maxresults (request_pattern pattern) stream).
  assert (Hl : forall entry, In entry l ->
                 In entry stream /\ d_info entry <> None
                 /\ strlen (d_name entry) < MAX_FILENAME_LEN).
  { intros entry Hin. apply listed_incl in Hin as [Hin Hacc].
    split; [exact Hin|]. split.
    - unfold accepted in Hacc. destruct (d_info entry); congruence.
    - unfold stream_names_ok in Hnames. rewrite List.Forall_forall in Hnames.
      now apply Hnames. }
  assert (Hview : forall f : dirent -> bool,
             map entry_view (map node_of (List.filter f l))
             = map spec_view (List.filter f l)).
  { intros f. rewrite map_map. apply map_ext_in. intros entry Hin.
    apply filter_In in Hin as [Hin _]. apply Hl in Hin as (_ & Hi & Hn).
    now apply node_view. }
  exists (List.filter (spec_in_dirs diropts) l),
    (List.filter (fun entry => negb (spec_in_dirs diropts entry)) l).
  split; [|split; [reflexivity|split; [reflexivity|split; [apply Hview|split;
    [apply Hview|]]]]].
  - exists (List.filter (accepted diropts (request_pattern pattern)) stream).
    split; [|unfold l; rewrite listed_truncate; auto].
    apply filter_selection. intros entry Hin. apply accepted_spec.
    unfold stream_names_ok in Hnames. rewrite List.Forall_forall in Hnames.
    now apply Hnames.
  - intros sortopts Hfit. rewrite List.Forall_forall in *.
    intros node Hnode. apply in_map_iff in Hnode as (entry & <- & Hin).
    apply Hl in Hin as (Hin & Hi & _).
    apply node_key_fits; [exact Hi | now apply Hfit].
Qed.

Lemma filter_partition_perm {A : Type} (f : A -> bool) (l : list A) :
  Permutation (List.filter f l ++ List.filter (fun x => negb (f x)) l) l.
Proof.
  induction l as [|x l IH]; [constructor|].
  cbn [List.filter]. destruct (f x); cbn [negb app].
  - now constructor.
  - rewrite <- Permutation_middle. now constructor.
Qed.

Lemma node_name (entry : dirent) :
  strlen (d_name entry) < MAX_FILENAME_LEN ->
  e_entrypath (node_of entry) = d_name entry.
Proof.
  unfold node_of, make_node, strlcpy, strlen, MAX_FILENAME_LEN. intros H.
  cbn [e_entrypath]. apply take_ge. lia.
Qed.

(** What [load_entries] makes of a stream, in the words of the
    specification. *)
Lemma load_entries_spec_listing (sep : ascii) (dirh : dir_handle)
    (diropts sortopts maxresults : Z) (pattern : cstr) (stream : list dirent) :
  0 <= maxresults < 2 ^ 16 ->
  stream_names_ok sep stream ->
  let l := dh_entry_list
             (load_entries dirh diropts sortopts maxresults
                (request_pattern pattern) stream) in
  (has_flag sortopts TNFS_DIRSORT_NONE = false ->
   Forall (stat_key_fits sortopts) stream ->
   spec_listing sep diropts sortopts maxresults pattern stream l)
  /\ (has_flag sortopts TNFS_DIRSORT_NONE = true ->
      spec_listing_unsorted sep diropts maxresults pattern stream l)
  /\ exists sel,
       selection (spec_accepts sep diropts pattern) stream sel
       /\ Permutation (map e_entrypath l) (map d_name (spec_truncate maxresults sel)).
Proof.
  intros Hmax Hnames l.
  destruct (code_groups_spec sep diropts maxresults pattern stream Hnames)
    as (dirs & files & Hgroups & Hd & Hf & Hvd & Hvf & Hkeys).
  split; [|split].
  - intros Hnone Hfit.
    destruct (load_entries_code_listing dirh diropts sortopts maxresults
                (request_pattern pattern) stream Hmax (Hkeys sortopts Hfit))
      as (_ & Hsorted & _).
    destruct (Hsorted Hnone) as (ds & fs & El & Pd & Pf & Sd & Sf).
    exists dirs, files, ds, fs.
    split; [exact Hgroups|]. split; [exact El|].
    split; [rewrite <- Hvd, <- Hd; now apply Permutation_map|].
    split; [rewrite <- Hvf, <- Hf; now apply Permutation_map|].
    split; assumption.
  - intros Hnone.
    destruct (load_loop_groups diropts maxresults (request_pattern pattern) stream
                Hmax) as (H1 & H2 & _).
    exists dirs, files.
    exists (rev (map node_of dirs)), (rev (map node_of files)).
    split; [exact Hgroups|]. split.
    + unfold l, load_entries. cbn [dh_entry_list].
      rewrite Hnone. cbn [negb]. rewrite dirlist_concat_app, H1, H2, Hd, Hf.
      reflexivity.
    + now rewrite !map_rev, Hvd, Hvf.
  - destruct Hgroups as (sel & Hsel & -> & ->). exists sel.
    split; [exact Hsel|].
    destruct (load_entries_shape dirh diropts sortopts maxresults
                (request_pattern pattern) stream)
      as (ds & fs & _ & Pd & Pf & El & _).
    destruct (load_loop_groups diropts maxresults (request_pattern pattern) stream
                Hmax) as (H1 & H2 & _).
    cbv zeta in Pd, Pf. rewrite H1 in Pd. rewrite H2 in Pf.
    rewrite Hd in Pd. rewrite Hf in Pf.
    rewrite <- Permutation_rev in Pd, Pf.
    unfold l. rewrite El, map_app, Pd, Pf, <- map_app, <- map_app.
    rewrite filter_partition_perm, map_map.
    apply Permutation_refl'. apply map_ext_in. intros entry Hin.
    apply node_name.
    assert (Hs : In entry stream).
    { assert (Hin' : In entry
                       (listed diropts maxresults (request_pattern pattern) stream)).
      { rewrite listed_truncate.
        assert (Hfilter : List.filter (accepted diropts (request_pattern pattern))
                            stream = sel).
        { clear -Hsel Hnames. unfold stream_names_ok in Hnames.
          induction Hsel as [|x l0 sel0 Hx _ IH|x l0 sel0 Hx _ IH];
            cbn [List.filter]; [reflexivity| |];
            inversion Hnames as [|? ? [Hsep _] Hrest]; subst.
          - rewrite (proj2 (accepted_spec sep diropts pattern x Hsep) Hx).
            f_equal. now apply IH.
          - destruct (accepted diropts (request_pattern pattern) x) eqn:E;
              [|now apply IH].
            exfalso. apply Hx. now apply (accepted_spec sep). }
        now rewrite Hfilter. }
      now apply listed_incl in Hin'. }
    unfold stream_names_ok in Hnames. rewrite List.Forall_forall in Hnames.
    now apply Hnames.
Qed.

(** ** The OPENDIRX request *)

Lemma ascii_of_byte_code (c : ascii) : ascii_of_byte (code c) = c.
Proof.
  unfold ascii_of_byte, code. rewrite N2Z.id. apply ascii_N_embedding.
Qed.

Lemma code_nonzero (c : ascii) : c <> zero -> code c <> 0.
Proof.
  intros Hc E. apply Hc. rewrite <- (ascii_N_embedding c).
  unfold code in E. now replace (N_of_ascii c) with 0%N by lia.
Qed.

Lemma c_string_codes (str : cstr) (rest : list Z) :
  Forall (fun c => c <> zero) str ->
  c_string (map code str ++ 0 :: rest) = str.
Proof.
  intros H. rewrite c_string_terminated.
  - rewrite map_map. rewrite <- (map_id str) at 2.
    apply map_ext. apply ascii_of_byte_code.
  - rewrite Forall_map. eapply Forall_impl; [exact H|].
    intros c Hc. now apply code_nonzero.
Qed.

(** What [tnfs_opendirx] reads in a request that carries a pattern and a
    path. *)
Lemma opendirx_request_fields (diropts sortopts maxresults : Z)
    (pattern dirpath : cstr) :
  0 <= maxresults < 2 ^ 16 ->
  Forall (fun c => c <> zero) pattern ->
  Forall (fun c => c <> zero) dirpath ->
  dirpath <> [] ->
  let buf := opendirx_request diropts sortopts maxresults pattern dirpath in
  (Z.of_nat (length buf) <? 7) || negb (bool_decide (last buf = Some 0)) = false
  /\ nth 0 buf 0 = diropts /\ nth 1 buf 0 = sortopts
  /\ tnfs16uint (drop 2 buf) = maxresults
  /\ c_string (drop 4 buf) = pattern
  /\ (strlen pattern + 5 =? Z.of_nat (length buf)) = false
  /\ c_string (drop (4 + Z.to_nat (strlen pattern) + 1) buf) = dirpath.
Proof.
  intros Hmax Hpattern Hdirpath Hne buf.
  set (rest := map code pattern ++ 0 :: map code dirpath ++ [0]).
  assert (Hbuf : buf = diropts :: sortopts :: uint16tnfs maxresults ++ rest)
    by reflexivity.
  assert (Hlen : length buf
                 = (4 + (length pattern + S (length dirpath + 1)))%nat).
  { rewrite Hbuf. unfold uint16tnfs, rest. cbn [length app].
    rewrite length_app. cbn [length]. rewrite length_app, !length_map.
    cbn [length]. lia. }
  assert (Hdp : (1 <= length dirpath)%nat)
    by (destruct dirpath; [congruence | cbn; lia]).
  assert (Hlast : last buf = Some 0).
  { rewrite Hbuf. unfold rest.
    replace (diropts :: sortopts :: uint16tnfs maxresults
             ++ map code pattern ++ 0 :: map code dirpath ++ [0])
      with ((diropts :: sortopts :: uint16tnfs maxresults
             ++ map code pattern ++ 0 :: map code dirpath) ++ [0]).
    - apply last_snoc.
    - cbn [app]. rewrite <- !app_assoc. cbn [app]. reflexivity. }
  split.
  { rewrite Hlast, Hlen, bool_decide_eq_true_2 by reflexivity.
    cbn [negb]. rewrite orb_false_r. apply Z.ltb_ge. lia. }
  split; [reflexivity|]. split; [reflexivity|]. split.
  { rewrite Hbuf. cbn [drop]. rewrite drop_0.
    change (tnfs16uint (uint16tnfs maxresults ++ rest))
      with (tnfs16uint (uint16tnfs maxresults)).
    rewrite tnfs16uint_uint16tnfs by lia. apply to_uint16_small. exact Hmax. }
  assert (Hdrop4 : drop 4 buf = rest) by reflexivity.
  split; [rewrite Hdrop4; now apply c_string_codes|].
  split; [rewrite Hlen; apply Z.eqb_neq; unfold strlen; lia|].
  replace (4 + Z.to_nat (strlen pattern) + 1)%nat
    with (4 + (length (map code pattern) + 1))%nat
    by (unfold strlen; rewrite length_map; lia).
  rewrite <- drop_drop, Hdrop4. unfold rest.
  replace (map code pattern ++ 0 :: map code dirpath ++ [0])
    with ((map code pattern ++ [0]) ++ map code dirpath ++ [0])
    by (now rewrite <- app_assoc).
  rewrite <- (length_app (map code pattern) [0]) at 1.
  cbn [length]. rewrite drop_app_length.
  now apply c_string_codes.
Qed.

Lemma request_pattern_strlen (pattern : cstr) :
  (if false || (strlen pattern =? 0) then None else Some pattern)
  = request_pattern pattern.
Proof. now destruct pattern. Qed.

Lemma find_free_finds (now : Z) (s : Session) (path : cstr)
    (diropt sortopt : Z) (pattern : option cstr) :
  Exists (fun dhandle => dh_open dhandle = false) (dhandles s) ->
  exists i s2,
    _tnfs_find_free_dir_handle now s path diropt sortopt pattern false
    = found i s2.
Proof.
  intros Hfree.
  destruct (_tnfs_find_free_dir_handle now s path diropt sortopt pattern false)
    as [i s2|s2|] eqn:Hfind; [eauto | exfalso..].
  - apply find_free_no_handle in Hfind as [_ Hopen].
    apply Exists_exists in Hfree as (d & Hd & Hclosed).
    rewrite Forall_forall in Hopen. specialize (Hopen d Hd). congruence.
  - revert Hfind. unfold _tnfs_find_free_dir_handle.
    destruct (first_slot _ _ 0); [discriminate|].
    destruct (first_slot _ _ 0); discriminate.
Qed.

(** ** The listing OPENDIRX materializes *)

(** C5, amended: OPENDIRX without TRAVERSE, in a session with a slot that
    is not open and for a path the host can open, replies success with a
    handle whose entry list READDIRX reads from the head; the list holds
    exactly the entries of the directory that can be stat'ed and pass the
    hidden, special and folder filters and the pattern, truncated to
    maxresults when it is not zero, the group of directories first (unless
    NO_FOLDERSFIRST), then the group of files.  Unless the NONE bit of
    sortopt is set each group is sorted by the key sortopt selects, numeric
    keys being below 2^31; with NONE each group is in the reverse of the
    order of the stream.  Repeated READDIRX on the handle enumerates the
    list, each entry once and in list order. *)
Theorem opendirx_listing (now : Z) (realpath : cstr -> cstr)
    (root realroot : cstr) (host_opendir : cstr -> Z + list dirent)
    (_traverse_directory :
       dir_handle -> Z -> Z -> Z -> option cstr -> Z * dir_handle)
    (sep : ascii) (s : Session) (diropts sortopts maxresults : Z)
    (pattern dirpath : cstr) (stream : list dirent) :
  session_wf s ->
  Exists (fun dhandle => dh_open dhandle = false) (dhandles s) ->
  has_flag diropts TNFS_DIROPT_TRAVERSE = false ->
  0 <= maxresults < 2 ^ 16 ->
  Forall (fun c => c <> zero) pattern ->
  Forall (fun c => c <> zero) dirpath ->
  dirpath <> [] ->
  host_opendir (strlcpy (resolve_dirpath realpath root realroot s dirpath)
                  MAX_TNFSPATH) = inr stream ->
  stream_names_ok sep stream ->
  (has_flag sortopts TNFS_DIRSORT_NONE = false ->
   Forall (stat_key_fits sortopts) stream) ->
  exists i s1 dh,
    tnfs_opendirx now realpath root realroot host_opendir _traverse_directory s
      (opendirx_request diropts sortopts maxresults pattern dirpath)
    = Done s1 [tnfs_send TNFS_SUCCESS
                 (data (i :: uint16tnfs (dh_entry_count dh)))]
    /\ dhandle_at s1 i = Some dh
    /\ dh_current_entry dh = dh_entry_list dh
    /\ (has_flag sortopts TNFS_DIRSORT_NONE = false ->
        spec_listing sep diropts sortopts maxresults pattern stream
          (dh_entry_list dh))
    /\ (has_flag sortopts TNFS_DIRSORT_NONE = true ->
        spec_listing_unsorted sep diropts maxresults pattern stream
          (dh_entry_list dh))
    /\ (forall (req_count : Z) (fuel : nat),
          0 <= req_count ->
          (length (dh_entry_list dh) < fuel)%nat ->
          readdirx_all fuel s1 i req_count = Some (dh_entry_list dh)).
Proof.
  intros Hwf Hfree Ht Hmax Hpattern Hdirpath Hne Hhost Hnames Hkeys.
  destruct (opendirx_request_fields diropts sortopts maxresults pattern dirpath
              Hmax Hpattern Hdirpath Hne)
    as (Hchk & Hdo & Hso & Hmr & Hpat & Hone & Hdp).
  cbv zeta in Hchk, Hdo, Hso, Hmr, Hpat, Hone, Hdp.
  unfold tnfs_opendirx. cbv zeta.
  rewrite Hchk, Hdo, Hso, Hmr, Hpat, Hone, Hdp, Ht, request_pattern_strlen.
  set (path := resolve_dirpath realpath root realroot s dirpath) in *.
  destruct (find_free_finds now s path diropts sortopts (request_pattern pattern)
              Hfree) as (i & s2 & Hfind).
  rewrite Hfind.
  apply find_free_fresh in Hfind
    as (Hi & d0 & dh & Hd0 & Ho0 & Hdh & Hodh & Hat & Hdo' & Hso' & Hpath & _).
  unfold session_wf, MAX_DHND_PER_CONN in Hwf.
  rewrite Hdh. unfold _load_directory. rewrite Hpath, Hhost.
  change (to_uint8 0 =? 0) with true. cbv iota.
  rewrite (to_uint8_small i) by lia.
  set (dh1 := load_entries dh diropts sortopts maxresults
                (request_pattern pattern) stream).
  exists i, (set_dhandle s2 i (set_loaded (set_open dh1 true) true)),
    (set_loaded (set_open dh1 true) true).
  destruct (load_entries_spec_listing sep dh diropts sortopts maxresults pattern
              stream Hmax Hnames) as (Hsorted & Hunsorted & _).
  split; [reflexivity|].
  split; [apply (dhandle_at_set_eq s2 i dh _ Hdh)|].
  split; [reflexivity|].
  split; [intros Hnone; apply Hsorted; auto|].
  split; [exact Hunsorted|].
  intros req_count fuel Hreq Hfuel.
  change (dh_entry_list (set_loaded (set_open dh1 true) true))
    with (dh_current_entry (set_loaded (set_open dh1 true) true)) in *.
  apply (readdirx_all_spec i req_count); try assumption.
  - unfold MAX_DHND_PER_CONN. lia.
  - apply (dhandle_at_set_eq s2 i dh _ Hdh).
  - apply (dhandle_ok_loaded dh diropts sortopts maxresults
             (request_pattern pattern) stream).
Qed.

Lemma opendirx_listing_witness :
  exists i s1 dh,
    tnfs_opendirx 1000 realpath_lexical (cs "/srv/tnfs") (cs "/srv/tnfs")
      (fun _ => inr scenario_stream) no_traverse blank_session
      (opendirx_request 0 0 0 (cs "*") (cs "x"))
    = Done s1 [tnfs_send TNFS_SUCCESS
                 (data (i :: uint16tnfs (dh_entry_count dh)))]
    /\ dhandle_at s1 i = Some dh
    /\ dh_current_entry dh = dh_entry_list dh
    /\ (has_flag 0 TNFS_DIRSORT_NONE = false ->
        spec_listing "/" 0 0 0 (cs "*") scenario_stream (dh_entry_list dh))
    /\ (has_flag 0 TNFS_DIRSORT_NONE = true ->
        spec_listing_unsorted "/" 0 0 (cs "*") scenario_stream (dh_entry_list dh))
    /\ (forall (req_count : Z) (fuel : nat),
          0 <= req_count ->
          (length (dh_entry_list dh) < fuel)%nat ->
          readdirx_all fuel s1 i req_count = Some (dh_entry_list dh)).
Proof.
  apply (opendirx_listing 1000 realpath_lexical (cs "/srv/tnfs") (cs "/srv/tnfs")
           (fun _ => inr scenario_stream) no_traverse "/" blank_session
           0 0 0 (cs "*") (cs "x") scenario_stream).
  - reflexivity.
  - apply Exists_cons_hd. reflexivity.
  - reflexivity.
  - lia.
  - repeat constructor; discriminate.
  - repeat constructor; discriminate.
  - discriminate.
  - reflexivity.
  - repeat constructor; try reflexivity;
      cbn; intuition discriminate.
  - intros _. repeat constructor.
Defined.

Lemma selection_incl {A : Type} (P : A -> Prop) (l sel : list A) :
  selection P l sel -> forall x, In x sel -> In x l.
Proof.
  induction 1 as [|x l sel _ _ IH|x l sel _ _ IH]; intros y Hy.
  - exact Hy.
  - destruct Hy as [<- | Hy]; [now left | right; now apply IH].
  - right. now apply IH.
Qed.

Lemma filter_none {A : Type} (f : A -> bool) (l : list A) :
  (forall x, In x l -> f x = false) -> List.filter f l = [].
Proof.
  induction l as [|x l IH]; intros H; [reflexivity|].
  cbn [List.filter]. rewrite (H x) by now left.
  apply IH. intros y Hy. apply H. now right.
Qed.

(** With the NONE bit of sortopt set, OPENDIRX on a directory whose stream
    gives [a] then [b] lists [b] before [a]: the group of files is not
    sorted by the key sortopt selects. *)
Lemma unsorted_listing_breaks_order :
  map e_entrypath unsorted_listing = [cs "b"; cs "a"]
  /\ ~ spec_listing "/" 0 TNFS_DIRSORT_NONE 0 [] two_files unsorted_listing.
Proof.
  split; [reflexivity|].
  intros (dirs & files & ds & fs & (sel & Hsel & Hdirs & _) & E & Pd & _ & _ & Sf).
  assert (Hnone : List.filter (spec_in_dirs 0) (spec_truncate 0 sel) = []).
  { change (spec_truncate 0 sel) with sel.
    assert (Hin : forall x, In x sel -> spec_in_dirs 0 x = false).
    { intros x Hx. apply (selection_incl _ _ _ Hsel) in Hx.
      destruct Hx as [<- | [<- | []]]; reflexivity. }
    now apply filter_none. }
  rewrite Hdirs, Hnone in Pd. cbn [map] in Pd.
  apply Permutation_sym, Permutation_nil in Pd.
  apply map_eq_nil in Pd. subst ds.
  cbn [app] in E. subst fs.
  vm_compute in Sf.
  inversion Sf as [|x l Hs Hall]; subst.
  inversion Hall as [|y l' Hord _]; subst.
  vm_compute in Hord. apply Hord. reflexivity.
Qed.

(** ** The pattern in directory loading *)

(** C6: for a name without the separator, the pattern match of directory
    loading holds exactly when the pattern matches the name as a glob: [*]
    any sequence of characters, [?] exactly one character that is not the
    separator, any other character one character equal to it up to case.
    The first [continue] of the load loop is taken exactly when the entry
    is not a directory or DIR_PATTERN is set, and the pattern does not
    match; without a pattern it is never taken.  And the list that
    [_load_directory] makes of a directory the host can open holds, up to
    the limit, the names of exactly the entries that can be stat'ed, are
    not skipped by the hidden, special and folder filters and, when they
    are not directories or DIR_PATTERN is set, match the pattern of the
    request. *)
Theorem pattern_match_is_glob (sep : ascii) (name pattern : cstr)
    (diropts : Z) (finf : fileinfo_t) :
  ~ In sep name ->
  (_pattern_match name pattern = true <-> glob_match sep pattern name)
  /\ (pattern_skips diropts (Some pattern) name finf = true
      <-> (has_flag diropts TNFS_DIROPT_DIR_PATTERN = true
           \/ has_flag (fi_flags finf) FILEINFOFLAG_DIRECTORY = false)
          /\ ~ glob_match sep pattern name)
  /\ pattern_skips diropts None name finf = false
  /\ (forall (host_opendir : cstr -> Z + list dirent) (dirh : dir_handle)
             (sortopts maxresults : Z) (stream : list dirent),
        host_opendir (dh_path dirh) = inr stream ->
        0 <= maxresults < 2 ^ 16 ->
        stream_names_ok sep stream ->
        exists sel,
          selection (spec_accepts sep diropts pattern) stream sel
          /\ Permutation
               (map e_entrypath
                  (dh_entry_list
                     (snd (_load_directory host_opendir dirh diropts sortopts
                             maxresults (request_pattern pattern)))))
               (map d_name (spec_truncate maxresults sel))).
Proof.
  intros Hsep.
  pose proof (pattern_match_glob sep name pattern Hsep) as Hm.
  split; [exact Hm|]. split; [|split].
  - assert (Hneg : negb (_pattern_match name pattern) = true
                   <-> ~ glob_match sep pattern name).
    { rewrite <- Hm. destruct (_pattern_match name pattern); simpl.
      - split; [discriminate | intros H; exfalso; now apply H].
      - split; [intros _; discriminate | reflexivity]. }
    unfold pattern_skips.
    destruct (has_flag diropts TNFS_DIROPT_DIR_PATTERN);
      destruct (has_flag (fi_flags finf) FILEINFOFLAG_DIRECTORY); simpl.
    + rewrite Hneg. tauto.
    + rewrite Hneg. tauto.
    + split; [discriminate|]. intros [[H | H] _]; discriminate H.
    + rewrite Hneg. tauto.
  - unfold pattern_skips. now destruct (_ || _).
  - intros host_opendir dirh sortopts maxresults stream Hhost Hmax Hnames.
    unfold _load_directory. rewrite Hhost. cbn [snd].
    apply (load_entries_spec_listing sep dirh diropts sortopts maxresults pattern
             stream Hmax Hnames).
Qed.

Lemma pattern_match_is_glob_witness :
  ~ In "/"%char (cs "foo.sna")
  /\ (_pattern_match (cs "foo.sna") (cs "*.SNA") = true
      <-> glob_match "/" (cs "*.SNA") (cs "foo.sna")).
Proof.
  assert (H : ~ In "/"%char (cs "foo.sna")).
  { simpl. intuition discriminate. }
  split; [exact H|].
  apply (pattern_match_is_glob "/" (cs "foo.sna") (cs "*.SNA") 0
           {| fi_flags := 0; fi_size := 0; fi_m_time := 0; fi_c_time := 0 |} H).
Defined.

(** The glob scenario in loading: of foo.sna, foo.txt, bar.sna and the
    directory txt, the pattern [*.sna] keeps the two snapshots and, the
    pattern not being applied to it, the directory; with DIR_PATTERN the
    directory is dropped too. *)
Example load_directory_pattern_scenario :
  let stream := [plain_file "foo.sna" 1 1; plain_file "foo.txt" 2 2;
                 plain_file "bar.sna" 3 3; subdirectory "txt"] in
  map e_entrypath
    (dh_entry_list
       (snd (_load_directory (fun _ => inr stream) blank_dhandle 0 0 0
               (request_pattern (cs "*.sna")))))
  = [cs "txt"; cs "bar.sna"; cs "foo.sna"]
  /\ map e_entrypath
       (dh_entry_list
          (snd (_load_directory (fun _ => inr stream) blank_dhandle
                  TNFS_DIROPT_DIR_PATTERN 0 0 (request_pattern (cs "*.sna")))))
     = [cs "bar.sna"; cs "foo.sna"].
Proof. split; reflexivity. Qed.

(** ** A full table *)

Section FullTable.
Variable now : Z.
Variable realpath : cstr -> cstr.
Variable root realroot : cstr.
Variable host_opendir : cstr -> Z + list dirent.
Variable _traverse_directory :
  dir_handle -> Z -> Z -> Z -> option cstr -> Z * dir_handle.

(** X20: when every slot of the session is open, OPENDIR, and OPENDIRX
    without TRAVERSE, answer a well-formed request with EMFILE and leave
    the session as it is.  When a slot is not open they do not: the reply
    is success, or the status [tnfs_error] gives for the [errno] of the
    host's [opendir], whatever byte the error table makes of it. *)
Theorem full_table_answers_emfile (s : Session) (buf : list Z) :
  last buf = Some 0 ->
  (Forall (fun dhandle => dh_open dhandle = true) (dhandles s) ->
   tnfs_opendir now realpath root realroot host_opendir s buf
   = Done s [tnfs_send TNFS_EMFILE no_data]
   /\ ((7 <=? Z.of_nat (length buf))
       && negb (has_flag (nth 0 buf 0) TNFS_DIROPT_TRAVERSE) = true ->
       tnfs_opendirx now realpath root realroot host_opendir
         _traverse_directory s buf
       = Done s [tnfs_send TNFS_EMFILE no_data]))
  /\ (Exists (fun dhandle => dh_open dhandle = false) (dhandles s) ->
      (exists s1 r,
          tnfs_opendir now realpath root realroot host_opendir s buf
          = Done s1 [r]
          /\ (r_status r = TNFS_SUCCESS
              \/ exists path errno,
                   host_opendir path = inl errno
                   /\ r_status r = tnfs_error errno))
      /\ ((7 <=? Z.of_nat (length buf))
          && negb (has_flag (nth 0 buf 0) TNFS_DIROPT_TRAVERSE) = true ->
          exists s1 r,
            tnfs_opendirx now realpath root realroot host_opendir
              _traverse_directory s buf
            = Done s1 [r]
            /\ (r_status r = TNFS_SUCCESS
                \/ exists path errno,
                     host_opendir path = inl errno
                     /\ r_status r = tnfs_error (to_uint8 errno)))).
Proof.
  intros Hlast.
  assert (Hdec : negb (bool_decide (last buf = Some 0)) = false)
    by now rewrite bool_decide_eq_true_2.
  assert (Hchk : (7 <=? Z.of_nat (length buf))
                 && negb (has_flag (nth 0 buf 0) TNFS_DIROPT_TRAVERSE) = true ->
                 (Z.of_nat (length buf) <? 7)
                 || negb (bool_decide (last buf = Some 0)) = false
                 /\ has_flag (nth 0 buf 0) TNFS_DIROPT_TRAVERSE = false).
  { intros Hx. apply andb_true_iff in Hx as [Hsz Ht].
    apply negb_true_iff in Ht. split; [|exact Ht].
    rewrite Hdec, orb_false_r. lia. }
  split.
  - intros Hopen. split.
    + unfold tnfs_opendir. rewrite Hdec. now rewrite find_free_all_open.
    + intros Hx. apply Hchk in Hx as [Hc Ht].
      unfold tnfs_opendirx. rewrite Hc, Ht. now rewrite find_free_all_open.
  - intros Hfree. split.
    + unfold tnfs_opendir. rewrite Hdec.
      match goal with
      | |- context [_tnfs_find_free_dir_handle now s ?p 0 0 None false] =>
          destruct (find_free_finds now s p 0 0 None Hfree) as (i & s2 & Hfind)
      end.
      rewrite Hfind.
      apply find_free_fresh in Hfind as (_ & _ & dh & _ & _ & Hdh & _).
      rewrite Hdh.
      destruct (host_opendir (dh_path dh)) as [errno|stream] eqn:Hhost.
      * eexists _, _. split; [reflexivity|]. right. eauto.
      * eexists _, _. split; [reflexivity|]. now left.
    + intros Hx. apply Hchk in Hx as [Hc Ht].
      unfold tnfs_opendirx. rewrite Hc, Ht.
      match goal with
      | |- context [_tnfs_find_free_dir_handle now s ?p ?a ?b ?c false] =>
          destruct (find_free_finds now s p a b c Hfree) as (i & s2 & Hfind)
      end.
      rewrite Hfind.
      apply find_free_fresh in Hfind as (_ & _ & dh & _ & _ & Hdh & _).
      rewrite Hdh. unfold _load_directory.
      destruct (host_opendir (dh_path dh)) as [errno|stream] eqn:Hhost.
      * destruct (to_uint8 errno =? 0); eexists _, _;
          (split; [reflexivity|]); [now left | right; eauto].
      * eexists _, _. split; [reflexivity|]. now left.
Qed.
End FullTable.

Lemma full_table_answers_emfile_witness :
  tnfs_opendir 1000 realpath_lexical (cs "/srv/tnfs") (cs "/srv/tnfs") empty_host
    full_session [120; 0]
  = Done full_session [tnfs_send TNFS_EMFILE no_data].
Proof.
  refine (proj1 (proj1 (full_table_answers_emfile 1000 realpath_lexical
                          (cs "/srv/tnfs") (cs "/srv/tnfs") empty_host no_traverse
                          full_session [120; 0] _) _)).
  - reflexivity.
  - unfold full_session. cbn [dhandles]. repeat constructor.
Defined.
